(** * Verification of [lib/fs_watch.py]

    A shallow embedding of the change-notification waiter: the inotify record
    decoder, [InotifyWaiter], [AdaptivePollWaiter] and the [FileChangeWaiter]
    facade, followed by the properties the specification states about them.

    Conventions of the embedding.
    - Python [float] is IEEE binary64, modelled by Rocq's primitive floats.
    - Python [int] is [Z]; bit masks use [Z.land] and [Z.lor].
    - Python [str] is [string]; [bytes] is [list byte].
    - A Python [dict] is an association list in insertion order with unique
      keys ([dict_set] updates in place or appends, as CPython does).
    - A call that can raise returns a [result]; [except Exception] is a match
      on it.  Mutations made before a raise are kept, as in Python.
    - Everything outside the module (the file system, the inotify backend,
      [time.sleep], [sys.platform], [pathlib]) is a parameter: a record of
      operations on an abstract operating-system state.  Every call to it is
      appended to a trace, so that theorems can speak about the calls made. *)

From Stdlib Require Import ZArith List String Ascii Bool Lia Floats.
From Stdlib Require Import Strings.Byte.
Import ListNotations.

Local Open Scope Z_scope.
Set Warnings "-inexact-float".

(* ================================================================== *)
(** * Python values *)

(** The outcome of a call: a value, or an exception (any subclass of
    [Exception]; the handlers of the module never look at its class). *)
Inductive result (A : Type) : Type :=
| Ok (a : A)
| Raised.
Arguments Ok {A} a.
Arguments Raised {A}.

(** [max(a, b)] and [min(a, b)] of Python on floats: the first argument is
    kept unless the second is strictly greater (smaller). *)
Definition py_max (a b : float) : float := if (a <? b)%float then b else a.
Definition py_min (a b : float) : float := if (b <? a)%float then b else a.

(** [int(x)] on a float: truncation toward zero; [OverflowError] on an
    infinity and [ValueError] on a NaN. *)
Definition py_int (x : float) : result Z :=
  match Prim2SF x with
  | S754_zero _ => Ok 0
  | S754_finite s m e =>
      let mag := if 0 <=? e then Z.pos m * 2 ^ e else Z.pos m / 2 ^ (- e) in
      Ok (if s then - mag else mag)
  | S754_infinity _ => Raised
  | S754_nan => Raised
  end.

(** Truth value of a [str]. *)
Definition str_truthy (s : string) : bool :=
  match s with EmptyString => false | String _ _ => true end.

(** Truth value of an [int]. *)
Definition int_truthy (z : Z) : bool := negb (z =? 0).

(* ------------------------------------------------------------------ *)
(** ** Dictionaries *)

Section Dict.
Context {K V : Type} (eqb : K -> K -> bool).

Definition dict := list (K * V).

(** [d.get(k)] *)
Fixpoint dict_get (k : K) (d : dict) : option V :=
  match d with
  | [] => None
  | (k', v) :: d' => if eqb k k' then Some v else dict_get k d'
  end.

(** [d[k] = v]: an existing key keeps its position. *)
Fixpoint dict_set (k : K) (v : V) (d : dict) : dict :=
  match d with
  | [] => [(k, v)]
  | (k', v') :: d' =>
      if eqb k k' then (k, v) :: d' else (k', v') :: dict_set k v d'
  end.

(** [d.pop(k, None)] *)
Definition dict_pop (k : K) (d : dict) : dict :=
  filter (fun kv => negb (eqb k (fst kv))) d.

(** [list(d.keys())] *)
Definition dict_keys (d : dict) : list K := map fst d.
End Dict.

(* ================================================================== *)
(** * [InotifyEvent] *)

Record InotifyEvent : Type := {
  wd : Z;
  mask : Z;
  cookie : Z;
  name : string
}.

(* ================================================================== *)
(** * The environment *)

(** [pathlib]: paths are kept in their [str()] form.  [mk_path s] is
    [str(Path(s))], [path_parent p] is [str(p.parent)] and [path_name p] is
    [p.name]. *)
Record Pathlib : Type := {
  mk_path : string -> string;
  path_parent : string -> string;
  path_name : string -> string
}.

(** The operating system as the module sees it, over a state [W] that each
    call may change and that can hold anything (a file system that changes
    between two calls, a scripted backend of a test, an oracle). *)
Record Env (W : Type) : Type := {
  os_path_exists : string -> W -> result bool * W;      (* Path.exists() *)
  os_path_is_dir : string -> W -> result bool * W;      (* Path.is_dir() *)
  os_make_backend : W -> result unit * W;               (* _make_backend() *)
  os_add_watch : string -> Z -> W -> result Z * W;      (* backend.add_watch *)
  os_rm_watch : Z -> W -> result unit * W;              (* backend.rm_watch *)
  os_read : Z -> W -> result (list InotifyEvent) * W;   (* backend.read *)
  os_close : W -> result unit * W;                      (* backend.close *)
  os_sleep : float -> W -> result unit * W;             (* time.sleep *)
  os_is_linux : bool                                    (* sys.platform == "linux" *)
}.
Arguments os_path_exists {W}.
Arguments os_path_is_dir {W}.
Arguments os_make_backend {W}.
Arguments os_add_watch {W}.
Arguments os_rm_watch {W}.
Arguments os_read {W}.
Arguments os_close {W}.
Arguments os_sleep {W}.
Arguments os_is_linux {W}.

(** One call to the environment, with its outcome. *)
Inductive Call : Type :=
| CExists (path : string) (r : result bool)
| CIsDir (path : string) (r : result bool)
| CMakeBackend (r : result unit)
| CAddWatch (path : string) (mask : Z) (r : result Z)
| CRmWatch (wd : Z) (r : result unit)
| CRead (timeout_ms : Z) (r : result (list InotifyEvent))
| CClose (r : result unit)
| CSleep (seconds : float) (r : result unit).

(** The state of the world: the operating system and the calls made so far,
    oldest first. *)
Record World (W : Type) : Type := {
  os : W;
  trace : list Call
}.
Arguments os {W}.
Arguments trace {W}.

Section Calls.
Context {W : Type} (E : Env W).

Definition perform {A : Type} (op : W -> result A * W)
  (log : result A -> Call) (w : World W) : result A * World W :=
  let '(r, o) := op (os w) in
  (r, {| os := o; trace := trace w ++ [log r] |}).

Definition path_exists (p : string) := perform (os_path_exists E p) (CExists p).
Definition path_is_dir (p : string) := perform (os_path_is_dir E p) (CIsDir p).
Definition make_backend := perform (os_make_backend E) CMakeBackend.
Definition add_watch (p : string) (m : Z) := perform (os_add_watch E p m) (CAddWatch p m).
Definition rm_watch (h : Z) := perform (os_rm_watch E h) (CRmWatch h).
Definition read (ms : Z) := perform (os_read E ms) (CRead ms).
Definition backend_close := perform (os_close E) CClose.
Definition time_sleep (d : float) := perform (os_sleep E d) (CSleep d).
End Calls.

(** The calls made between two states of the world. *)
Definition calls_between {W} (w w' : World W) : list Call :=
  skipn (List.length (trace w)) (trace w').

(* ================================================================== *)
(** * [InotifyWaiter] *)

Module InotifyWaiter.

(** linux/inotify.h masks (subset) *)
Definition MASK_MODIFY : Z := 0x00000002.
Definition MASK_ATTRIB : Z := 0x00000004.
Definition MASK_CLOSE_WRITE : Z := 0x00000008.
Definition MASK_MOVED_TO : Z := 0x00000080.
Definition MASK_CREATE : Z := 0x00000100.
Definition MASK_DELETE : Z := 0x00000200.
Definition MASK_MOVE_SELF : Z := 0x00000800.
Definition MASK_DELETE_SELF : Z := 0x00000400.
Definition MASK_Q_OVERFLOW : Z := 0x00004000.

Definition _FILE_MASK : Z :=
  Z.lor (Z.lor (Z.lor (Z.lor MASK_MODIFY MASK_ATTRIB) MASK_CLOSE_WRITE)
           MASK_MOVE_SELF) MASK_DELETE_SELF.
Definition _DIR_MASK : Z :=
  Z.lor (Z.lor (Z.lor (Z.lor MASK_MOVED_TO MASK_CREATE) MASK_DELETE)
           MASK_CLOSE_WRITE) MASK_ATTRIB.

(** The first component of a [_wds] value: ["dir"] or ["file"]. *)
Inductive kind : Type := KDir | KFile.

Definition is_file (k : kind) : bool :=
  match k with KFile => true | KDir => false end.

(** The fields of an instance.  [_backend] is the environment. *)
Record t : Type := {
  _wds : list (Z * (kind * string));          (* wd -> (kind, path) *)
  _tracked_files : list (string * string);    (* file path -> parent dir *)
  overflowed : bool
}.

Definition set_wds (d : list (Z * (kind * string))) (self : t) : t :=
  {| _wds := d; _tracked_files := _tracked_files self;
     overflowed := overflowed self |}.

Definition set_tracked_files (d : list (string * string)) (self : t) : t :=
  {| _wds := _wds self; _tracked_files := d; overflowed := overflowed self |}.

Definition set_overflowed (b : bool) (self : t) : t :=
  {| _wds := _wds self; _tracked_files := _tracked_files self;
     overflowed := b |}.

Section Methods.
Context {W : Type} (E : Env W) (P : Pathlib).

(** [__init__(backend=None)]: the backend is made by [_make_backend],
    whose failure propagates. *)
Definition new (w : World W) : result t * World W :=
  let '(r, w) := make_backend E w in
  match r with
  | Ok _ => (Ok {| _wds := []; _tracked_files := []; overflowed := false |}, w)
  | Raised => (Raised, w)
  end.

(** [for wd in list(self._wds.keys()): try: rm_watch(wd) except: pass] *)
Fixpoint rm_watches (wds : list Z) (w : World W) : World W :=
  match wds with
  | [] => w
  | h :: rest => let '(_, w) := rm_watch E h w in rm_watches rest w
  end.

Definition close (self : t) (w : World W) : t * World W :=
  let w := rm_watches (dict_keys (_wds self)) w in
  let self := set_wds [] self in
  let '(_, w) := backend_close E w in
  (self, w).

Definition _reset_watches (self : t) (w : World W) : t * World W :=
  let w := rm_watches (dict_keys (_wds self)) w in
  let self := set_wds [] self in
  let self := set_tracked_files [] self in
  (self, w).

Definition _watch_one (path : string) (self : t) (w : World W) : t * World W :=
  let parent := path_parent P path in
  let file_path := path in
  let self := set_tracked_files
                (dict_set String.eqb file_path parent (_tracked_files self)) self in
  let '(r, w) := path_exists E file_path w in
  let exists_ := match r with Ok b => b | Raised => false end in
  (* If the path itself is a directory, watch it directly. *)
  let '(returned, self, w) :=
    if exists_ then
      let '(r, w) := path_is_dir E file_path w in
      match r with
      | Ok true =>
          let '(r, w) := add_watch E file_path _DIR_MASK w in
          match r with
          | Ok wd_dir =>
              (true, set_wds (dict_set Z.eqb wd_dir (KDir, file_path) (_wds self)) self, w)
          | Raised => (false, self, w)
          end
      | Ok false => (false, self, w)
      | Raised => (false, self, w)
      end
    else (false, self, w) in
  if returned then (self, w) else
  (* Otherwise watch parent directory to detect replacements/rotations. *)
  let '(r, w) := add_watch E parent _DIR_MASK w in
  let self :=
    match r with
    | Ok wd_dir => set_wds (dict_set Z.eqb wd_dir (KDir, parent) (_wds self)) self
    | Raised => self
    end in
  (* Watch file itself for append/modify. *)
  if exists_ then
    let '(r, w) := add_watch E file_path _FILE_MASK w in
    match r with
    | Ok wd_file =>
        (set_wds (dict_set Z.eqb wd_file (KFile, file_path) (_wds self)) self, w)
    | Raised => (self, w)
    end
  else (self, w).

(** [for path in paths: self._watch_one(Path(path))] *)
Fixpoint watch_each (paths : list string) (self : t) (w : World W) : t * World W :=
  match paths with
  | [] => (self, w)
  | path :: rest =>
      let '(self, w) := _watch_one path self w in
      watch_each rest self w
  end.

Definition watch_paths (paths : list string) (self : t) (w : World W) : t * World W :=
  let '(self, w) := _reset_watches self w in
  watch_each paths self w.

(** The loop of [_refresh_file_watch] over [list(self._wds.items())]. *)
Fixpoint drop_file_watches (file_path : string)
  (items : list (Z * (kind * string))) (self : t) (w : World W) : t * World W :=
  match items with
  | [] => (self, w)
  | (h, (k, watched_path)) :: rest =>
      if is_file k && String.eqb watched_path file_path then
        let '(_, w) := rm_watch E h w in
        let self := set_wds (dict_pop Z.eqb h (_wds self)) self in
        drop_file_watches file_path rest self w
      else drop_file_watches file_path rest self w
  end.

Definition _refresh_file_watch (file_path : string) (self : t) (w : World W)
  : t * World W :=
  let '(r, w) := path_exists E file_path w in
  match r with
  | Ok true =>
      (* Remove any existing watches for this file, then re-add. *)
      let '(self, w) := drop_file_watches file_path (_wds self) self w in
      let '(r, w) := add_watch E file_path _FILE_MASK w in
      match r with
      | Ok wd_file =>
          (set_wds (dict_set Z.eqb wd_file (KFile, file_path) (_wds self)) self, w)
      | Raised => (self, w)
      end
  | Ok false => (self, w)
  | Raised => (self, w)
  end.

(** The loop of [wait] over [self._tracked_files.items()]; every way out
    of it is followed by [return True]. *)
Fixpoint scan_tracked (ev_name watched_path : string)
  (items : list (string * string)) (self : t) (w : World W) : t * World W :=
  match items with
  | [] => (self, w)
  | (file_path, parent) :: rest =>
      if negb (str_truthy parent) then
        scan_tracked ev_name watched_path rest self w
      else if str_truthy watched_path && negb (String.eqb watched_path parent) then
        scan_tracked ev_name watched_path rest self w
      else if String.eqb (path_name P file_path) ev_name then
        _refresh_file_watch file_path self w
      else scan_tracked ev_name watched_path rest self w
  end.

(** The loop of [wait] over [events]. *)
Fixpoint handle_events (events : list InotifyEvent) (self : t) (w : World W)
  : bool * t * World W :=
  match events with
  | [] => (true, self, w)
  | ev :: rest =>
      if int_truthy (Z.land (mask ev) MASK_Q_OVERFLOW) then
        (true, set_overflowed true self, w)
      else if int_truthy (Z.land (mask ev) (Z.lor MASK_MOVE_SELF MASK_DELETE_SELF)) then
        (* If a watched file is replaced/rotated, its watch is dropped; refresh. *)
        match dict_get Z.eqb (wd ev) (_wds self) with
        | Some (KFile, path) =>
            let '(self, w) := _refresh_file_watch path self w in
            (true, self, w)
        | Some (KDir, _) => (true, self, w)
        | None => (true, self, w)
        end
      else if str_truthy (name ev) then
        (* Directory event: if it targets one of our files, refresh its file watch. *)
        let watched_path :=
          match dict_get Z.eqb (wd ev) (_wds self) with
          | Some (_, path) => path
          | None => EmptyString
          end in
        let '(self, w) :=
          scan_tracked (name ev) watched_path (_tracked_files self) self w in
        (true, self, w)
      else handle_events rest self w
  end.

(** [int(max(0.0, timeout) * 1000)] *)
Definition timeout_ms (timeout : float) : result Z :=
  py_int (py_max 0 timeout * 1000)%float.

Definition wait (timeout : float) (self : t) (w : World W)
  : result bool * t * World W :=
  match timeout_ms timeout with
  | Raised => (Raised, self, w)
  | Ok ms =>
      let '(r, w) := read E ms w in
      match r with
      | Raised => (Raised, self, w)
      | Ok [] => (Ok false, self, w)
      | Ok (ev :: rest) =>
          let '(b, self, w) := handle_events (ev :: rest) self w in
          (Ok b, self, w)
      end
  end.
End Methods.
End InotifyWaiter.

(* ================================================================== *)
(** * [AdaptivePollWaiter] *)

Module AdaptivePollWaiter.

Record t : Type := {
  _base : float;
  _max : float;
  _current : float
}.

Definition set_current (c : float) (self : t) : t :=
  {| _base := _base self; _max := _max self; _current := c |}.

(** [__init__(base_interval, max_interval=0.5)] *)
Definition new (base_interval max_interval : float) : t :=
  let base := py_max 0 base_interval in
  let max := py_max base max_interval in
  {| _base := base; _max := max; _current := base |}.

Definition reset (self : t) : t := set_current (_base self) self.

(** The local [sleep_for] of [wait]. *)
Definition sleep_for (timeout : float) (self : t) : float :=
  py_min (py_max 0 timeout) (_current self).

(** The interval that [wait] stores when [timeout > 0]. *)
Definition next_interval (self : t) : float :=
  py_min (_max self) (py_max (_base self) (_current self * 1.5)%float).

Section Methods.
Context {W : Type} (E : Env W).

Definition wait (timeout : float) (self : t) (w : World W)
  : result bool * t * World W :=
  let '(r, w) := time_sleep E (sleep_for timeout self) w in
  match r with
  | Raised => (Raised, self, w)
  | Ok _ =>
      let self :=
        if (0 <? timeout)%float then set_current (next_interval self) self
        else self in
      (Ok false, self, w)
  end.
End Methods.
End AdaptivePollWaiter.

(* ================================================================== *)
(** * [FileChangeWaiter] *)

(** What the facade uses of its native watcher: the constructor and four
    members.  The facade wraps each call in [try/except Exception], so it is
    written over any watcher with these operations, each of which may raise.
    [inotify_watcher] below is the one of the source. *)
Record Watcher (W NW : Type) : Type := {
  nw_new : World W -> result NW * World W;
  nw_watch_paths : list string -> NW -> World W -> result unit * NW * World W;
  nw_wait : float -> NW -> World W -> result bool * NW * World W;
  nw_close : NW -> World W -> result unit * NW * World W;
  nw_overflowed : NW -> bool
}.
Arguments nw_new {W NW}.
Arguments nw_watch_paths {W NW}.
Arguments nw_wait {W NW}.
Arguments nw_close {W NW}.
Arguments nw_overflowed {W NW}.

(** [InotifyWaiter] as the facade's watcher. *)
Definition inotify_watcher {W} (E : Env W) (P : Pathlib) : Watcher W InotifyWaiter.t :=
  {| nw_new := InotifyWaiter.new E;
     nw_watch_paths := fun paths self w =>
       let '(self, w) := InotifyWaiter.watch_paths E P paths self w in
       (Ok tt, self, w);
     nw_wait := InotifyWaiter.wait E P;
     nw_close := fun self w =>
       let '(self, w) := InotifyWaiter.close E self w in
       (Ok tt, self, w);
     nw_overflowed := InotifyWaiter.overflowed |}.

Module FileChangeWaiter.

Record t (NW : Type) : Type := {
  _paths : list string;
  _enabled : bool;
  _debug_name : string;
  _poll : AdaptivePollWaiter.t;
  _inotify : option NW;
  _use_inotify : bool
}.
Arguments _paths {NW}.
Arguments _enabled {NW}.
Arguments _debug_name {NW}.
Arguments _poll {NW}.
Arguments _inotify {NW}.
Arguments _use_inotify {NW}.

Section Methods.
Context {W NW : Type} (E : Env W) (P : Pathlib) (N : Watcher W NW).

Definition set_paths (ps : list string) (self : t NW) : t NW :=
  {| _paths := ps; _enabled := _enabled self; _debug_name := _debug_name self;
     _poll := _poll self; _inotify := _inotify self;
     _use_inotify := _use_inotify self |}.

Definition set_poll (p : AdaptivePollWaiter.t) (self : t NW) : t NW :=
  {| _paths := _paths self; _enabled := _enabled self;
     _debug_name := _debug_name self; _poll := p; _inotify := _inotify self;
     _use_inotify := _use_inotify self |}.

Definition set_inotify (i : option NW) (self : t NW) : t NW :=
  {| _paths := _paths self; _enabled := _enabled self;
     _debug_name := _debug_name self; _poll := _poll self; _inotify := i;
     _use_inotify := _use_inotify self |}.

Definition set_use_inotify (b : bool) (self : t NW) : t NW :=
  {| _paths := _paths self; _enabled := _enabled self;
     _debug_name := _debug_name self; _poll := _poll self;
     _inotify := _inotify self; _use_inotify := b |}.

(** [[Path(p) for p in paths if p]] *)
Definition to_paths (paths : list string) : list string :=
  map (mk_path P) (filter str_truthy paths).

Definition close (self : t NW) (w : World W) : t NW * World W :=
  let '(self, w) :=
    match _inotify self with
    | Some i =>
        let '(_, i, w) := nw_close N i w in
        (set_inotify (Some i) self, w)
    | None => (self, w)
    end in
  (set_inotify None self, w).

Definition _maybe_enable_inotify (self : t NW) (w : World W) : t NW * World W :=
  if negb (_enabled self) then (self, w)
  else if negb (os_is_linux E) then (self, w)
  else
    let '(r, w) := nw_new N w in
    match r with
    | Ok i => (set_use_inotify true (set_inotify (Some i) self), w)
    | Raised => (set_use_inotify false (set_inotify None self), w)
    end.

Definition overflowed (self : t NW) : bool :=
  match _inotify self with
  | Some i => nw_overflowed N i
  | None => false
  end.

Definition reset_backoff (self : t NW) : t NW :=
  set_poll (AdaptivePollWaiter.reset (_poll self)) self.

(** [update_paths] after its first line, on the converted list. *)
Definition apply_paths (paths : list string) (self : t NW) (w : World W)
  : t NW * World W :=
  let self := set_paths paths self in
  match _use_inotify self, _inotify self with
  | true, Some i =>
      let '(r, i, w) := nw_watch_paths N (_paths self) i w in
      let self := set_inotify (Some i) self in
      match r with
      | Ok _ => (self, w)
      | Raised =>
          (* Inotify can be unreliable on some mounts; fall back to polling. *)
          let self := set_use_inotify false self in
          let '(_, i, w) := nw_close N i w in
          (set_inotify None self, w)
      end
  | _, _ => (self, w)
  end.

Definition update_paths (paths : list string) (self : t NW) (w : World W)
  : t NW * World W :=
  apply_paths (to_paths paths) self w.

Definition wait (timeout : float) (self : t NW) (w : World W)
  : result bool * t NW * World W :=
  let '(returned, self, w) :=
    match _use_inotify self, _inotify self with
    | true, Some i =>
        let '(r, i, w) := nw_wait N timeout i w in
        let self := set_inotify (Some i) self in
        match r with
        | Ok b => (Some b, self, w)
        | Raised =>
            (* Degrade to polling on unexpected failures. *)
            let self := set_use_inotify false self in
            let '(_, i, w) := nw_close N i w in
            (None, set_inotify None self, w)
        end
    | _, _ => (None, self, w)
    end in
  match returned with
  | Some b => (Ok b, self, w)
  | None =>
      let '(r, p, w) := AdaptivePollWaiter.wait E timeout (_poll self) w in
      (r, set_poll p self, w)
  end.

(** [__init__(paths, *, enabled, poll_interval, debug_name)]; the poller
    gets the default [max_interval] of 0.5. *)
Definition new (paths : list string) (enabled : bool) (poll_interval : float)
  (debug_name : string) (w : World W) : t NW * World W :=
  let self :=
    {| _paths := to_paths paths; _enabled := enabled;
       _debug_name := debug_name;
       _poll := AdaptivePollWaiter.new poll_interval 0.5;
       _inotify := None; _use_inotify := false |} in
  let '(self, w) := _maybe_enable_inotify self w in
  (* [self.update_paths(self._paths)]: the elements are [Path] objects
     already, which the comprehension keeps as they are. *)
  apply_paths (_paths self) self w.
End Methods.
End FileChangeWaiter.

(* ================================================================== *)
(** * [_CtypesInotifyBackend.read]: the decode loop *)

Module CtypesInotifyBackend.

(** [sys.byteorder]: the format ["iIII"] is in native order. *)
Inductive byteorder : Type := little | big.

(** [struct.calcsize("iIII")]: four 4-byte fields, no padding. *)
Definition header_size : nat := 16.

Definition byte_val (b : byte) : Z := Z.of_N (Byte.to_N b).

Fixpoint uint_le (bs : list byte) : Z :=
  match bs with
  | [] => 0
  | b :: rest => byte_val b + 256 * uint_le rest
  end.

(** One ["I"] field: unsigned, 4 bytes. *)
Definition unpack_I (bo : byteorder) (bs : list byte) : Z :=
  match bo with
  | little => uint_le bs
  | big => uint_le (rev bs)
  end.

(** One ["i"] field: signed (two's complement), 4 bytes. *)
Definition unpack_i (bo : byteorder) (bs : list byte) : Z :=
  let u := unpack_I bo bs in
  if u <? 2 ^ 31 then u else u - 2 ^ 32.

(** [data[lo:hi]] *)
Definition slice (data : list byte) (lo hi : nat) : list byte :=
  firstn (hi - lo) (skipn lo data).

(** [struct.unpack_from("iIII", data, offset)] *)
Definition unpack_from_iIII (bo : byteorder) (data : list byte) (offset : nat)
  : Z * Z * Z * Z :=
  (unpack_i bo (slice data offset (offset + 4)),
   unpack_I bo (slice data (offset + 4) (offset + 8)),
   unpack_I bo (slice data (offset + 8) (offset + 12)),
   unpack_I bo (slice data (offset + 12) (offset + 16))).

(** [raw.split(b"\x00", 1)[0]] *)
Fixpoint before_nul (raw : list byte) : list byte :=
  match raw with
  | [] => []
  | b :: rest => if Byte.eqb b x00 then [] else b :: before_nul rest
  end.

Section Decode.
(** [bytes.decode("utf-8", errors="ignore")], the codec of CPython. *)
Variable utf8_decode_ignore : list byte -> string.
Variable bo : byteorder.

(** The [while] loop; each turn moves [offset] forward by at least
    [header_size], so as many turns as [data] has bytes are enough
    ([None] stands for running out of [fuel], which [decode] never does). *)
Fixpoint decode_loop (fuel : nat) (data : list byte) (offset : nat)
  (events : list InotifyEvent) : option (list InotifyEvent) :=
  if (offset + header_size <=? List.length data)%nat then
    match fuel with
    | O => None
    | S fuel =>
        let '(wd, mask, cookie, name_len) := unpack_from_iIII bo data offset in
        let offset := (offset + header_size)%nat in
        let '(name, offset) :=
          if int_truthy name_len then
            let raw_name := slice data offset (offset + Z.to_nat name_len) in
            (utf8_decode_ignore (before_nul raw_name),
             (offset + Z.to_nat name_len)%nat)
          else (EmptyString, offset) in
        decode_loop fuel data offset
          (events ++ [{| wd := wd; mask := mask; cookie := cookie; name := name |}])
    end
  else Some events.

(** The part of [read] from [offset = 0] to [return events]. *)
Definition decode (data : list byte) : option (list InotifyEvent) :=
  decode_loop (List.length data) data 0 [].
End Decode.

(** ** The records of linux/inotify.h, to state what [decode] is given *)

(** [struct inotify_event { int wd; uint32_t mask; uint32_t cookie;
    uint32_t len; char name[]; }], with [len] the length of [name]. *)
Record inotify_event : Type := {
  ie_wd : Z;
  ie_mask : Z;
  ie_cookie : Z;
  ie_name : list byte
}.

Definition well_formed (r : inotify_event) : Prop :=
  - 2 ^ 31 <= ie_wd r < 2 ^ 31 /\
  0 <= ie_mask r < 2 ^ 32 /\
  0 <= ie_cookie r < 2 ^ 32 /\
  Z.of_nat (List.length (ie_name r)) < 2 ^ 32.

Definition byte_of (z : Z) : byte :=
  match Byte.of_N (Z.to_N (z mod 256)) with
  | Some b => b
  | None => x00
  end.

Fixpoint bytes_le (n : nat) (z : Z) : list byte :=
  match n with
  | O => []
  | S n => byte_of z :: bytes_le n (z / 256)
  end.

(** The 4 bytes of a 32-bit field holding [z] (modulo [2^32]). *)
Definition field (bo : byteorder) (z : Z) : list byte :=
  match bo with
  | little => bytes_le 4 z
  | big => rev (bytes_le 4 z)
  end.

Definition record_bytes (bo : byteorder) (r : inotify_event) : list byte :=
  field bo (ie_wd r) ++ field bo (ie_mask r) ++ field bo (ie_cookie r)
    ++ field bo (Z.of_nat (List.length (ie_name r))) ++ ie_name r.

(** The event that [read] is to produce for a record. *)
Definition event_of (utf8_decode_ignore : list byte -> string)
  (r : inotify_event) : InotifyEvent :=
  {| wd := ie_wd r; mask := ie_mask r; cookie := ie_cookie r;
     name := match ie_name r with
             | [] => EmptyString
             | _ :: _ => utf8_decode_ignore (before_nul (ie_name r))
             end |}.
End CtypesInotifyBackend.

(* ================================================================== *)
(** * A scripted environment, for the examples *)

Module Fake.

(** A file system that does not change by itself, a backend that hands out
    increasing handles and refuses paths that do not exist, and a script of
    the batches that [read] returns. *)
Record OS : Type := {
  files : list string;
  dirs : list string;
  next_wd : Z;
  script : list (result (list InotifyEvent))
}.

Definition present (p : string) (o : OS) : bool :=
  existsb (String.eqb p) (files o ++ dirs o).

Definition env : Env OS :=
  {| os_path_exists := fun p o => (Ok (present p o), o);
     os_path_is_dir := fun p o => (Ok (existsb (String.eqb p) (dirs o)), o);
     os_make_backend := fun o => (Ok tt, o);
     os_add_watch := fun p m o =>
       if present p o then
         (Ok (next_wd o),
          {| files := files o; dirs := dirs o; next_wd := next_wd o + 1;
             script := script o |})
       else (Raised, o);
     os_rm_watch := fun h o => (Ok tt, o);
     os_read := fun ms o =>
       match script o with
       | [] => (Ok [], o)
       | batch :: rest =>
           (batch,
            {| files := files o; dirs := dirs o; next_wd := next_wd o;
               script := rest |})
       end;
     os_close := fun o => (Ok tt, o);
     os_sleep := fun d o => (Ok tt, o);
     os_is_linux := true |}.

Definition slash : ascii := "/"%char.

Fixpoint has_slash (s : string) : bool :=
  match s with
  | EmptyString => false
  | String c r => Ascii.eqb c slash || has_slash r
  end.

(** The part after the last slash. *)
Fixpoint base_name (s : string) : string :=
  match s with
  | EmptyString => EmptyString
  | String c r =>
      if has_slash r then base_name r
      else if Ascii.eqb c slash then r else s
  end.

(** The part before the last slash. *)
Fixpoint dir_name (s : string) : string :=
  match s with
  | EmptyString => EmptyString
  | String c r =>
      if Ascii.eqb c slash && negb (has_slash r) then EmptyString
      else String c (dir_name r)
  end.

(** [pathlib] on POSIX paths in normal form. *)
Definition posix : Pathlib :=
  {| mk_path := fun s => s;
     path_parent := fun s =>
       if has_slash s then
         match dir_name s with
         | EmptyString => "/"%string
         | d => d
         end
       else "."%string;
     path_name := base_name |}.

Definition world (o : OS) : World OS := {| os := o; trace := [] |}.

(** A watcher whose every method raises, as a stand-in for a backend that
    fails after construction. *)
Definition broken_watcher : Watcher OS unit :=
  {| nw_new := fun w => (Ok tt, w);
     nw_watch_paths := fun _ i w => (Raised, i, w);
     nw_wait := fun _ i w => (Raised, i, w);
     nw_close := fun i w => (Raised, i, w);
     nw_overflowed := fun _ => false |}.
End Fake.

(* ================================================================== *)
(** * Vocabulary of the properties *)

(** The durations given to [time.sleep] in a list of calls. *)
Fixpoint sleeps (calls : list Call) : list float :=
  match calls with
  | [] => []
  | CSleep d _ :: rest => d :: sleeps rest
  | _ :: rest => sleeps rest
  end.

(** [n] calls of [AdaptivePollWaiter.wait] in a row. *)
Fixpoint wait_n {W} (E : Env W) (n : nat) (timeout : float)
  (self : AdaptivePollWaiter.t) (w : World W) : AdaptivePollWaiter.t * World W :=
  match n with
  | O => (self, w)
  | S n =>
      let '(_, self, w) := AdaptivePollWaiter.wait E timeout self w in
      wait_n E n timeout self w
  end.

(** The intervals of a poller with [base = 0.05] and [max = 0.5], in binary64
    arithmetic: five multiplications by 1.5 stay below the cap. *)
Definition backoff_table : list float :=
  [0.05; 0.05 * 1.5; 0.05 * 1.5 * 1.5; 0.05 * 1.5 * 1.5 * 1.5;
   0.05 * 1.5 * 1.5 * 1.5 * 1.5; 0.05 * 1.5 * 1.5 * 1.5 * 1.5 * 1.5]%float.

Definition backoff_at (i : nat) : float := nth i backoff_table 0.5%float.

(** Two floats that differ by less than [1e-15]. *)
Definition close_to (x y : float) : bool := (abs (x - y) <? 1e-15)%float.

(** The fields of a poller are at or above zero (and so are not NaN). *)
Definition poll_nonneg (self : AdaptivePollWaiter.t) : Prop :=
  (0 <=? AdaptivePollWaiter._base self)%float = true /\
  (0 <=? AdaptivePollWaiter._max self)%float = true /\
  (0 <=? AdaptivePollWaiter._current self)%float = true.

(** An empty world for the examples. *)
Definition w0 : World Fake.OS :=
  Fake.world {| Fake.files := []; Fake.dirs := []; Fake.next_wd := 1;
                Fake.script := [] |}.

(** ** Events of a batch *)

(** The event has the overflow bit. *)
Definition has_overflow (ev : InotifyEvent) : bool :=
  int_truthy (Z.land (mask ev) InotifyWaiter.MASK_Q_OVERFLOW).

(** The event has the moved-self or the deleted-self bit. *)
Definition has_self_gone (ev : InotifyEvent) : bool :=
  int_truthy (Z.land (mask ev)
                (Z.lor InotifyWaiter.MASK_MOVE_SELF InotifyWaiter.MASK_DELETE_SELF)).

(** The loop of [wait] returns at this event: one of its three [if]s holds. *)
Definition ends_scan (ev : InotifyEvent) : bool :=
  has_overflow ev || has_self_gone ev || str_truthy (name ev).

(** ** Calls on an [InotifyWaiter] *)

Inductive watcher_op : Type :=
| OpWait (timeout : float)
| OpWatchPaths (paths : list string)
| OpClose.

Definition watcher_step {W} (E : Env W) (P : Pathlib) (op : watcher_op)
  (self : InotifyWaiter.t) (w : World W) : InotifyWaiter.t * World W :=
  match op with
  | OpWait timeout =>
      let '(_, self, w) := InotifyWaiter.wait E P timeout self w in (self, w)
  | OpWatchPaths paths => InotifyWaiter.watch_paths E P paths self w
  | OpClose => InotifyWaiter.close E self w
  end.

Fixpoint watcher_run {W} (E : Env W) (P : Pathlib) (ops : list watcher_op)
  (self : InotifyWaiter.t) (w : World W) : InotifyWaiter.t * World W :=
  match ops with
  | [] => (self, w)
  | op :: rest =>
      let '(self, w) := watcher_step E P op self w in
      watcher_run E P rest self w
  end.

(** ** Examples *)

Definition ev_moved_self : InotifyEvent :=
  {| wd := 1; mask := InotifyWaiter.MASK_MOVE_SELF; cookie := 0; name := EmptyString |}.

Definition ev_overflow : InotifyEvent :=
  {| wd := -1; mask := InotifyWaiter.MASK_Q_OVERFLOW; cookie := 0; name := EmptyString |}.

Definition ev_modify : InotifyEvent :=
  {| wd := 1; mask := InotifyWaiter.MASK_MODIFY; cookie := 0; name := EmptyString |}.

Definition ev_deleted_self : InotifyEvent :=
  {| wd := 7; mask := InotifyWaiter.MASK_DELETE_SELF; cookie := 0; name := EmptyString |}.

(** A watcher with no watch. *)
Definition iw_empty : InotifyWaiter.t :=
  {| InotifyWaiter._wds := []; InotifyWaiter._tracked_files := [];
     InotifyWaiter.overflowed := false |}.

(** A world in which [read] returns the given batch next. *)
Definition world_with_batch (files dirs : list string) (batch : list InotifyEvent)
  : World Fake.OS :=
  Fake.world {| Fake.files := files; Fake.dirs := dirs; Fake.next_wd := 10;
                Fake.script := [Ok batch] |}.

(** ** Calls on a [FileChangeWaiter] *)

Inductive facade_op : Type :=
| FWait (timeout : float)
| FUpdatePaths (paths : list string)
| FResetBackoff
| FClose.

Definition facade_step {W NW} (E : Env W) (P : Pathlib) (N : Watcher W NW)
  (op : facade_op) (self : FileChangeWaiter.t NW) (w : World W)
  : FileChangeWaiter.t NW * World W :=
  match op with
  | FWait timeout =>
      let '(_, self, w) := FileChangeWaiter.wait E N timeout self w in (self, w)
  | FUpdatePaths paths => FileChangeWaiter.update_paths P N paths self w
  | FResetBackoff => (FileChangeWaiter.reset_backoff self, w)
  | FClose => FileChangeWaiter.close N self w
  end.

Fixpoint facade_run {W NW} (E : Env W) (P : Pathlib) (N : Watcher W NW)
  (ops : list facade_op) (self : FileChangeWaiter.t NW) (w : World W)
  : FileChangeWaiter.t NW * World W :=
  match ops with
  | [] => (self, w)
  | op :: rest =>
      let '(self, w) := facade_step E P N op self w in
      facade_run E P N rest self w
  end.

(** The facade is on the polling strategy: no native watcher is held and
    the flag is off. *)
Definition polling {NW} (self : FileChangeWaiter.t NW) : Prop :=
  FileChangeWaiter._use_inotify self = false /\
  FileChangeWaiter._inotify self = None.

(** A facade on the native strategy, holding the broken watcher. *)
Definition facade_native : FileChangeWaiter.t unit :=
  {| FileChangeWaiter._paths := []; FileChangeWaiter._enabled := true;
     FileChangeWaiter._debug_name := EmptyString;
     FileChangeWaiter._poll := AdaptivePollWaiter.new 0.05 0.5;
     FileChangeWaiter._inotify := Some tt;
     FileChangeWaiter._use_inotify := true |}.

(** ** Watches *)

(** An entry of [_wds] that is a file watch for [path]. *)
Definition tagged_file (path : string) (e : Z * (InotifyWaiter.kind * string)) : bool :=
  InotifyWaiter.is_file (fst (snd e)) && String.eqb (snd (snd e)) path.

(** The call is [rm_watch(h)], whatever came of it. *)
Definition is_rm_of (c : Call) (h : Z) : Prop := exists r, c = CRmWatch h r.

(** A watcher holding a file watch, handle 7, and the watch of the parent. *)
Definition iw_one_file : InotifyWaiter.t :=
  {| InotifyWaiter._wds :=
       [(3, (InotifyWaiter.KDir, "/tmp"%string));
        (7, (InotifyWaiter.KFile, "/tmp/a.log"%string))];
     InotifyWaiter._tracked_files := [("/tmp/a.log"%string, "/tmp"%string)];
     InotifyWaiter.overflowed := false |}.

(** The keys of a dictionary are pairwise distinct (always so in Python). *)
Fixpoint unique_keys {V} (d : list (Z * V)) : bool :=
  match d with
  | [] => true
  | (k, _) :: rest => negb (existsb (Z.eqb k) (dict_keys rest)) && unique_keys rest
  end.

(** ** The calls of [watch_paths] *)

(** What [_watch_one] stores for a watch: a directory-mask watch is entered
    as ["dir"], a file-mask watch as ["file"]. *)
Definition kind_of_mask (m : Z) : InotifyWaiter.kind :=
  if m =? InotifyWaiter._DIR_MASK then InotifyWaiter.KDir else InotifyWaiter.KFile.

(** The watch map that a list of calls leaves behind: each successful
    [add_watch] enters its handle, a later one with the same handle
    overwriting it. *)
Fixpoint recorded (calls : list Call) (d : list (Z * (InotifyWaiter.kind * string)))
  : list (Z * (InotifyWaiter.kind * string)) :=
  match calls with
  | [] => d
  | CAddWatch p m (Ok h) :: rest =>
      recorded rest (dict_set Z.eqb h (kind_of_mask m, p) d)
  | _ :: rest => recorded rest d
  end.

(** The call is not an [add_watch] that raised. *)
Definition add_ok (c : Call) : bool :=
  match c with
  | CAddWatch _ _ Raised => false
  | _ => true
  end.

(** No handle was given out for two different watches. *)
Definition handles_distinct (calls : list Call) : Prop :=
  forall p1 m1 p2 m2 h,
    In (CAddWatch p1 m1 (Ok h)) calls -> In (CAddWatch p2 m2 (Ok h)) calls ->
    p1 = p2 /\ m1 = m2.

(** The calls that [_watch_one path] makes when every [add_watch] succeeds. *)
Inductive watch_chunk (P : Pathlib) (path : string) : list Call -> Prop :=
| chunk_directory (h : Z) :
    (* the path exists and is a directory: it is watched itself *)
    watch_chunk P path
      [CExists path (Ok true); CIsDir path (Ok true);
       CAddWatch path InotifyWaiter._DIR_MASK (Ok h)]
| chunk_file (r : result bool) (h_dir h_file : Z) :
    (* the path exists and is not known to be a directory: parent and path *)
    r <> Ok true ->
    watch_chunk P path
      [CExists path (Ok true); CIsDir path r;
       CAddWatch (path_parent P path) InotifyWaiter._DIR_MASK (Ok h_dir);
       CAddWatch path InotifyWaiter._FILE_MASK (Ok h_file)]
| chunk_missing (r : result bool) (h_dir : Z) :
    (* the path is not known to exist: the parent only *)
    r <> Ok true ->
    watch_chunk P path
      [CExists path r;
       CAddWatch (path_parent P path) InotifyWaiter._DIR_MASK (Ok h_dir)].

(** A directory, a file in another directory and a path that does not exist. *)
Definition w_tree : World Fake.OS :=
  Fake.world {| Fake.files := ["/d/f"%string];
                Fake.dirs := ["/"%string; "/d"%string; "/e"%string];
                Fake.next_wd := 1; Fake.script := [] |}.

(** [handles_distinct], as a test. *)
Definition same_watch_or_other_handle (c1 c2 : Call) : bool :=
  match c1, c2 with
  | CAddWatch p1 m1 (Ok h1), CAddWatch p2 m2 (Ok h2) =>
      negb (h1 =? h2) || (String.eqb p1 p2 && (m1 =? m2))
  | _, _ => true
  end.

Definition handles_distinctb (calls : list Call) : bool :=
  forallb (fun c1 => forallb (same_watch_or_other_handle c1) calls) calls.

(** ** Example records *)

(** A name padded with NULs to 8 bytes, as the kernel pads it. *)
Definition rec_created : CtypesInotifyBackend.inotify_event :=
  {| CtypesInotifyBackend.ie_wd := 1;
     CtypesInotifyBackend.ie_mask := InotifyWaiter.MASK_CREATE;
     CtypesInotifyBackend.ie_cookie := 0;
     CtypesInotifyBackend.ie_name :=
       list_byte_of_string "a.log" ++ [x00; x00; x00] |}.

(** The overflow record: handle -1 and no name. *)
Definition rec_overflow : CtypesInotifyBackend.inotify_event :=
  {| CtypesInotifyBackend.ie_wd := -1;
     CtypesInotifyBackend.ie_mask := InotifyWaiter.MASK_Q_OVERFLOW;
     CtypesInotifyBackend.ie_cookie := 0;
     CtypesInotifyBackend.ie_name := [] |}.

(** The handles of the watch map are pairwise distinct. *)
Definition wds_unique (self : InotifyWaiter.t) : Prop :=
  NoDup (dict_keys (InotifyWaiter._wds self)).

(** A facade on the native strategy, holding an [InotifyWaiter]. *)
Definition facade_inotify : FileChangeWaiter.t InotifyWaiter.t :=
  {| FileChangeWaiter._paths := ["/tmp/a.log"%string];
     FileChangeWaiter._enabled := true;
     FileChangeWaiter._debug_name := EmptyString;
     FileChangeWaiter._poll := AdaptivePollWaiter.new 0.05 0.5;
     FileChangeWaiter._inotify := Some iw_one_file;
     FileChangeWaiter._use_inotify := true |}.

(** A world in which the next [read] of the backend raises. *)
Definition w_read_raises : World Fake.OS :=
  Fake.world {| Fake.files := ["/tmp/a.log"%string]; Fake.dirs := ["/tmp"%string];
                Fake.next_wd := 10; Fake.script := [Raised] |}.

(** The example poller ([base = 0.05], [max = 0.5]) at its [k]-th interval. *)
Definition poller_at (k : nat) : AdaptivePollWaiter.t :=
  {| AdaptivePollWaiter._base := 0.05; AdaptivePollWaiter._max := 0.5;
     AdaptivePollWaiter._current := backoff_at k |}.

(* ================================================================== *)
(** * Vocabulary of the further properties *)

(** Not negative: a zero, a finite number or an infinity with the sign bit
    off, or a NaN. *)
Definition sf_unsigned (x : spec_float) : Prop :=
  match x with
  | S754_zero s => s = false
  | S754_infinity s => s = false
  | S754_finite s _ _ => s = false
  | S754_nan => True
  end.

(** Calls on an [AdaptivePollWaiter]. *)
Inductive poll_op : Type :=
| PWait (timeout : float)
| PReset.

Fixpoint poll_run {W} (E : Env W) (ops : list poll_op)
  (self : AdaptivePollWaiter.t) (w : World W) : AdaptivePollWaiter.t * World W :=
  match ops with
  | [] => (self, w)
  | PWait timeout :: rest =>
      let '(_, self, w) := AdaptivePollWaiter.wait E timeout self w in
      poll_run E rest self w
  | PReset :: rest => poll_run E rest (AdaptivePollWaiter.reset self) w
  end.

(** The interval lies between the base and the cap, and the base is not
    negative. *)
Definition poll_bounded (self : AdaptivePollWaiter.t) : Prop :=
  (0 <=? AdaptivePollWaiter._base self)%float = true /\
  (AdaptivePollWaiter._base self <=? AdaptivePollWaiter._current self)%float = true /\
  (AdaptivePollWaiter._current self <=? AdaptivePollWaiter._max self)%float = true.

(** The tracked files that [watch_each] leaves: each path entered with its
    parent, on top of those there were. *)
Fixpoint track_all (P : Pathlib) (paths : list string) (d : list (string * string))
  : list (string * string) :=
  match paths with
  | [] => d
  | p :: rest => track_all P rest (dict_set String.eqb p (path_parent P p) d)
  end.

(** Calls that leave the set of paths alone. *)
Definition keeps_paths (op : watcher_op) : bool :=
  match op with
  | OpWatchPaths _ => false
  | _ => true
  end.

(** The tracked file that a named event refreshes: its parent is set, it is
    the parent that the handle stands for when the handle is known, and the
    file is called as the event says. *)
Definition names_tracked (P : Pathlib) (ev_name watched_path : string)
  (entry : string * string) : bool :=
  str_truthy (snd entry)
  && (negb (str_truthy watched_path) || String.eqb watched_path (snd entry))
  && String.eqb (path_name P (fst entry)) ev_name.

(** The directory that the handle of an event stands for, [""] if unknown. *)
Definition watched_path_of (self : InotifyWaiter.t) (ev : InotifyEvent) : string :=
  match dict_get Z.eqb (wd ev) (InotifyWaiter._wds self) with
  | Some (_, path) => path
  | None => EmptyString
  end.


(** The call is a [time.sleep]. *)
Definition is_sleep (c : Call) : bool :=
  match c with
  | CSleep _ _ => true
  | _ => false
  end.

(** The facade holds a watcher and uses it. *)
Definition native {NW} (self : FileChangeWaiter.t NW) (i : NW) : Prop :=
  FileChangeWaiter._use_inotify self = true /\
  FileChangeWaiter._inotify self = Some i.

(** The header fields of an event fit the C types of the record. *)
Definition fields_in_range (ev : InotifyEvent) : Prop :=
  - 2 ^ 31 <= wd ev < 2 ^ 31
  /\ 0 <= mask ev < 2 ^ 32
  /\ 0 <= cookie ev < 2 ^ 32.

(** A directory event for a child called [a.log]. *)
Definition ev_created : InotifyEvent :=
  {| wd := 3; mask := InotifyWaiter.MASK_CREATE; cookie := 0; name := "a.log" |}.

(** A facade on the polling strategy. *)
Definition facade_polling : FileChangeWaiter.t unit :=
  {| FileChangeWaiter._paths := []; FileChangeWaiter._enabled := false;
     FileChangeWaiter._debug_name := EmptyString;
     FileChangeWaiter._poll := AdaptivePollWaiter.new 0.05 0.5;
     FileChangeWaiter._inotify := None;
     FileChangeWaiter._use_inotify := false |}.

(* ================================================================== *)
(** * [_CtypesInotifyBackend]: the methods, over libc *)

Module CtypesBackend.

(** The exceptions that the methods tell apart. *)
Inductive exn : Type :=
| OSError (errno : Z)
| ValueError
| OverflowError          (* int too large to convert to float *)
| OtherError.            (* any other exception *)

Inductive outcome (A : Type) : Type :=
| Returns (a : A)
| Raises (e : exn).
Arguments Returns {A}.
Arguments Raises {A}.

(** [errno] on Linux. *)
Definition ENOENT : Z := 2.
Definition EAGAIN : Z := 11.
Definition EWOULDBLOCK : Z := 11.
Definition EINVAL : Z := 22.

(** What [ctypes] makes of a Python [int] given or returned as a C [int] or
    a [uint32_t]: the value modulo [2^32], without any range test. *)
Definition c_int (z : Z) : Z := (z + 2 ^ 31) mod 2 ^ 32 - 2 ^ 31.
Definition c_uint32 (z : Z) : Z := z mod 2 ^ 32.

(** libc and the [os] and [select] modules, over a state [S]. *)
Record Libc (S : Type) : Type := {
  libc_inotify_add_watch : Z -> list byte -> Z -> S -> Z * S;
  libc_inotify_rm_watch : Z -> Z -> S -> Z * S;
  ctypes_get_errno : S -> Z;
  os_fsencode : string -> outcome (list byte);
  (* select.select(rlist, [], [], timeout): the first list of the result *)
  select_select : list Z -> float -> S -> outcome (list Z) * S;
  posix_read : Z -> Z -> S -> outcome (list byte) * S;       (* os.read *)
  posix_close : Z -> S -> outcome unit * S                   (* os.close *)
}.
Arguments libc_inotify_add_watch {S}.
Arguments libc_inotify_rm_watch {S}.
Arguments ctypes_get_errno {S}.
Arguments os_fsencode {S}.
Arguments select_select {S}.
Arguments posix_read {S}.
Arguments posix_close {S}.

(** One call that leaves the interpreter, with what came back. *)
Inductive Sys : Type :=
| SAddWatch (fd : Z) (path : list byte) (mask : Z) (rc : Z)
| SRmWatch (fd wd : Z) (rc : Z)
| SSelect (rlist : list Z) (timeout : float) (r : outcome (list Z))
| SRead (fd n : Z) (r : outcome (list byte))
| SClose (fd : Z) (r : outcome unit).

(** The state of libc and the calls made so far, oldest first. *)
Record Machine (S : Type) : Type := {
  mem : S;
  syscalls : list Sys
}.
Arguments mem {S}.
Arguments syscalls {S}.

(** The field of an instance ([_libc], [_add] and [_rm] are the
    environment). *)
Record t : Type := { _fd : Z }.

(** [float(z)], as [int / float] converts its left operand: rounded to
    nearest even, [OverflowError] beyond the range of a double. *)
Definition float_of_int (z : Z) : outcome float :=
  match binary_normalize prec emax z 0 false with
  | S754_infinity _ => Raises OverflowError
  | x => Returns (SF2Prim x)
  end.

Section Methods.
Context {S : Type} (L : Libc S).
(** [bytes.decode("utf-8", errors="ignore")] and [sys.byteorder]. *)
Variable utf8_decode_ignore : list byte -> string.
Variable bo : CtypesInotifyBackend.byteorder.

Definition add_watch (path : string) (mask : Z) (self : t) (m : Machine S)
  : outcome Z * Machine S :=
  match os_fsencode L path with
  | Raises e => (Raises e, m)
  | Returns encoded =>
      let '(rc, s) :=
        libc_inotify_add_watch L (c_int (_fd self)) encoded (c_uint32 mask) (mem m) in
      let wd := c_int rc in
      let m := {| mem := s;
                  syscalls := syscalls m
                    ++ [SAddWatch (c_int (_fd self)) encoded (c_uint32 mask) wd] |} in
      if wd <? 0 then (Raises (OSError (ctypes_get_errno L (mem m))), m)
      else (Returns wd, m)
  end.

Definition rm_watch (wd : Z) (self : t) (m : Machine S)
  : outcome unit * Machine S :=
  if wd <=? 0 then (Returns tt, m)
  else
    let '(rc, s) :=
      libc_inotify_rm_watch L (c_int (_fd self)) (c_int wd) (mem m) in
    let rc := c_int rc in
    let m := {| mem := s;
                syscalls := syscalls m ++ [SRmWatch (c_int (_fd self)) (c_int wd) rc] |} in
    if rc <? 0 then
      let err := ctypes_get_errno L (mem m) in
      (* Ignore "no such watch" / already removed. *)
      if (err =? EINVAL) || (err =? ENOENT) then (Returns tt, m)
      else (Raises (OSError err), m)
    else (Returns tt, m).

(** The events of [data]; the loop returns on every buffer
    ([decode_total]), so the second case does not arise. *)
Definition events_of (data : list byte) : list InotifyEvent :=
  match CtypesInotifyBackend.decode utf8_decode_ignore bo data with
  | Some events => events
  | None => []
  end.

Definition read (timeout_ms : Z) (self : t) (m : Machine S)
  : outcome (list InotifyEvent) * Machine S :=
  match float_of_int timeout_ms with
  | Raises e => (Raises e, m)
  | Returns ms =>
      let timeout_s := py_max 0 (ms / 1000)%float in
      let '(r, s) := select_select L [_fd self] timeout_s (mem m) in
      let m := {| mem := s;
                  syscalls := syscalls m ++ [SSelect [_fd self] timeout_s r] |} in
      match r with
      | Raises (OSError _) => (Returns [], m)
      | Raises ValueError => (Returns [], m)
      | Raises e => (Raises e, m)
      | Returns [] => (Returns [], m)
      | Returns (_ :: _) =>
          (* Read a reasonably large chunk to drain bursts. *)
          let '(d, s) := posix_read L (_fd self) (64 * 1024) (mem m) in
          let m := {| mem := s;
                      syscalls := syscalls m ++ [SRead (_fd self) (64 * 1024) d] |} in
          match d with
          | Raises (OSError errno) =>
              if (errno =? EAGAIN) || (errno =? EWOULDBLOCK) then (Returns [], m)
              else (Raises (OSError errno), m)
          | Raises e => (Raises e, m)
          | Returns data => (Returns (events_of data), m)
          end
      end
  end.

Definition close (self : t) (m : Machine S) : outcome unit * Machine S :=
  let '(r, s) := posix_close L (_fd self) (mem m) in
  (Returns tt, {| mem := s; syscalls := syscalls m ++ [SClose (_fd self) r] |}).
End Methods.
End CtypesBackend.

(** The calls made between two states of the machine. *)
Definition syscalls_between {S} (m m' : CtypesBackend.Machine S)
  : list CtypesBackend.Sys :=
  skipn (List.length (CtypesBackend.syscalls m)) (CtypesBackend.syscalls m').


(** The exception is one that [read] lets through when [select] raises it. *)
Definition passes_select (e : CtypesBackend.exn) : bool :=
  match e with
  | CtypesBackend.OSError _ => false
  | CtypesBackend.ValueError => false
  | _ => true
  end.

(** The exception is one that [read] lets through when [os.read] raises it. *)
Definition passes_read (e : CtypesBackend.exn) : bool :=
  match e with
  | CtypesBackend.OSError errno => negb (errno =? CtypesBackend.EAGAIN)
  | _ => true
  end.

(** [os.read(fd, n)] returns at most [n] bytes. *)
Definition read_within_count {S} (L : CtypesBackend.Libc S) : Prop :=
  forall fd n s data,
    fst (CtypesBackend.posix_read L fd n s) = CtypesBackend.Returns data ->
    (List.length data <= Z.to_nat n)%nat.

(** A scripted libc, for the examples. *)
Module FakeLibc.
Record Mem : Type := {
  rc : Z;                                         (* what the C calls return *)
  errno : Z;
  ready : CtypesBackend.outcome (list Z);         (* what [select] gives *)
  input : CtypesBackend.outcome (list byte)       (* what [os.read] gives *)
}.

Definition libc : CtypesBackend.Libc Mem :=
  {| CtypesBackend.libc_inotify_add_watch := fun _ _ _ s => (rc s, s);
     CtypesBackend.libc_inotify_rm_watch := fun _ _ s => (rc s, s);
     CtypesBackend.ctypes_get_errno := errno;
     CtypesBackend.os_fsencode := fun p => CtypesBackend.Returns (list_byte_of_string p);
     CtypesBackend.select_select := fun _ _ s => (ready s, s);
     CtypesBackend.posix_read := fun _ n s =>
       (match input s with
        | CtypesBackend.Returns data =>
            CtypesBackend.Returns (firstn (Z.to_nat n) data)
        | r => r
        end, s);
     CtypesBackend.posix_close := fun _ s => (CtypesBackend.Returns tt, s) |}.

Definition machine (s : Mem) : CtypesBackend.Machine Mem :=
  {| CtypesBackend.mem := s; CtypesBackend.syscalls := [] |}.
End FakeLibc.

(** The backend on descriptor 3. *)
Definition backend3 : CtypesBackend.t := {| CtypesBackend._fd := 3 |}.

(** A machine on which [select] reports the descriptor and [os.read] fails
    with [EIO]. *)
Definition m_read_fails : CtypesBackend.Machine FakeLibc.Mem :=
  FakeLibc.machine
    {| FakeLibc.rc := 0; FakeLibc.errno := 5;
       FakeLibc.ready := CtypesBackend.Returns [3];
       FakeLibc.input := CtypesBackend.Raises (CtypesBackend.OSError 5) |}.

(** A machine on which [os.read] gives the two example records. *)
Definition m_two_records : CtypesBackend.Machine FakeLibc.Mem :=
  FakeLibc.machine
    {| FakeLibc.rc := 0; FakeLibc.errno := 0;
       FakeLibc.ready := CtypesBackend.Returns [3];
       FakeLibc.input :=
         CtypesBackend.Returns
           (List.concat (map (CtypesInotifyBackend.record_bytes
                                CtypesInotifyBackend.little)
                           [rec_created; rec_overflow])) |}.

(** Paths that all exist and are files, and a clock; the backend calls of
    this environment are not used. *)
Definition fake_base : Env (CtypesBackend.Machine FakeLibc.Mem) :=
  {| os_path_exists := fun _ m => (Ok true, m);
     os_path_is_dir := fun _ m => (Ok false, m);
     os_make_backend := fun m => (Ok tt, m);
     os_add_watch := fun _ _ m => (Raised, m);
     os_rm_watch := fun _ m => (Raised, m);
     os_read := fun _ m => (Raised, m);
     os_close := fun m => (Raised, m);
     os_sleep := fun _ m => (Ok tt, m);
     os_is_linux := true |}.

(** A machine on which the C calls return 5. *)
Definition m_handle5 : CtypesBackend.Machine FakeLibc.Mem :=
  FakeLibc.machine
    {| FakeLibc.rc := 5; FakeLibc.errno := 0;
       FakeLibc.ready := CtypesBackend.Returns [];
       FakeLibc.input := CtypesBackend.Returns [] |}.

(** A machine on which the C calls fail with [ENOENT]. *)
Definition m_enoent : CtypesBackend.Machine FakeLibc.Mem :=
  FakeLibc.machine
    {| FakeLibc.rc := -1; FakeLibc.errno := 2;
       FakeLibc.ready := CtypesBackend.Returns [];
       FakeLibc.input := CtypesBackend.Returns [] |}.

(** An outcome as the callers of the backend see it: they catch
    [Exception], whatever it is. *)
Definition forget {A} (o : CtypesBackend.outcome A) : result A :=
  match o with
  | CtypesBackend.Returns a => Ok a
  | CtypesBackend.Raises _ => Raised
  end.

(** The environment of an [InotifyWaiter] whose backend is the
    [_CtypesInotifyBackend] [B]; paths, clock and platform are those of
    [base]. *)
Definition ctypes_env {S} (L : CtypesBackend.Libc S)
  (utf8_decode_ignore : list byte -> string) (bo : CtypesInotifyBackend.byteorder)
  (B : CtypesBackend.t) (base : Env (CtypesBackend.Machine S))
  : Env (CtypesBackend.Machine S) :=
  {| os_path_exists := os_path_exists base;
     os_path_is_dir := os_path_is_dir base;
     os_make_backend := os_make_backend base;
     os_add_watch := fun path mask m =>
       let '(r, m) := CtypesBackend.add_watch L path mask B m in (forget r, m);
     os_rm_watch := fun wd m =>
       let '(r, m) := CtypesBackend.rm_watch L wd B m in (forget r, m);
     os_read := fun timeout_ms m =>
       let '(r, m) :=
         CtypesBackend.read L utf8_decode_ignore bo timeout_ms B m in
       (forget r, m);
     os_close := fun m =>
       let '(r, m) := CtypesBackend.close L B m in (forget r, m);
     os_sleep := os_sleep base;
     os_is_linux := os_is_linux base |}.

(** Every handle of the watch map is a C [int] that is not negative. *)
Definition handles_valid (self : InotifyWaiter.t) : Prop :=
  Forall (fun e => 0 <= fst e < 2 ^ 31) (InotifyWaiter._wds self).

(** Every handle of the watch map has the property [Q]. *)
Definition all_handles (Q : Z -> Prop) (self : InotifyWaiter.t) : Prop :=
  forall h v, In (h, v) (InotifyWaiter._wds self) -> Q h.

(** A world over the scripted libc, with no call made yet. *)
Definition world_of (m : CtypesBackend.Machine FakeLibc.Mem)
  : World (CtypesBackend.Machine FakeLibc.Mem) :=
  {| os := m; trace := [] |}.

(** The calls that [_watch_one path] makes, whatever fails. *)
Inductive watch_attempt (P : Pathlib) (path : string) : list Call -> Prop :=
| attempt_directory (h : Z) :
    (* the path exists and is a directory that could be watched *)
    watch_attempt P path
      [CExists path (Ok true); CIsDir path (Ok true);
       CAddWatch path InotifyWaiter._DIR_MASK (Ok h)]
| attempt_directory_refused (r_dir r_file : result Z) :
    (* a directory that could not be watched is treated as a file *)
    watch_attempt P path
      [CExists path (Ok true); CIsDir path (Ok true);
       CAddWatch path InotifyWaiter._DIR_MASK Raised;
       CAddWatch (path_parent P path) InotifyWaiter._DIR_MASK r_dir;
       CAddWatch path InotifyWaiter._FILE_MASK r_file]
| attempt_file (r : result bool) (r_dir r_file : result Z) :
    (* the path exists and is not known to be a directory *)
    r <> Ok true ->
    watch_attempt P path
      [CExists path (Ok true); CIsDir path r;
       CAddWatch (path_parent P path) InotifyWaiter._DIR_MASK r_dir;
       CAddWatch path InotifyWaiter._FILE_MASK r_file]
| attempt_missing (r : result bool) (r_dir : result Z) :
    (* the path is not known to exist: the parent only *)
    r <> Ok true ->
    watch_attempt P path
      [CExists path r;
       CAddWatch (path_parent P path) InotifyWaiter._DIR_MASK r_dir].

(* PROPERTIES *)
(* ================================================================== *)
(** * Properties *)

(** ** Traces *)

Lemma calls_between_app {W} (w w' : World W) (seg : list Call) :
  trace w' = trace w ++ seg -> calls_between w w' = seg.
Proof.
  intros H. unfold calls_between. rewrite H.
  rewrite skipn_app, skipn_all, Nat.sub_diag. reflexivity.
Qed.

(** ** Order on binary64 *)

Lemma SFcompare_refl x : x <> S754_nan -> SFcompare x x = Some Eq.
Proof.
  destruct x as [s|s| |s m e]; cbn; intros H; try congruence;
    destruct s; try reflexivity;
    now rewrite Z.compare_refl, Pos.compare_cont_refl.
Qed.

Lemma SFltb_SFleb x y : SFltb x y = true -> SFleb x y = true.
Proof. unfold SFltb, SFleb. destruct (SFcompare x y) as [[]|]; congruence. Qed.

Lemma SFleb_not_nan_r x y : SFleb x y = true -> y <> S754_nan.
Proof. intros H ->. destruct x; discriminate. Qed.

Lemma SFleb_trans x y z :
  SFleb x y = true -> SFleb y z = true -> SFleb x z = true.
Proof.
  unfold SFleb.
  destruct x as [sx|sx| |sx mx ex], y as [sy|sy| |sy my ey],
    z as [sz|sz| |sz mz ez];
    cbn; try discriminate; try reflexivity;
    try (destruct sx; cbn; try discriminate; try reflexivity);
    try (destruct sy; cbn; try discriminate; try reflexivity);
    try (destruct sz; cbn; try discriminate; try reflexivity).
  all: rewrite ?Pos.compare_cont_spec; cbn [Pos.switch_Eq].
  all: destruct (Z.compare_spec ex ey), (Z.compare_spec ey ez),
         (Z.compare_spec ex ez);
       try lia; try discriminate; try reflexivity; subst.
  all: destruct (Pos.compare_spec mx my), (Pos.compare_spec my mz),
         (Pos.compare_spec mx mz);
       cbn; try lia; try discriminate; try reflexivity.
Qed.

Lemma ltb_leb (a b : float) : (a <? b)%float = true -> (a <=? b)%float = true.
Proof. rewrite ltb_spec, leb_spec. apply SFltb_SFleb. Qed.

Lemma leb_trans (a b c : float) :
  (a <=? b)%float = true -> (b <=? c)%float = true -> (a <=? c)%float = true.
Proof. rewrite !leb_spec. apply SFleb_trans. Qed.

Lemma leb_refl_r (a b : float) : (a <=? b)%float = true -> (b <=? b)%float = true.
Proof.
  rewrite !leb_spec. intros H. unfold SFleb.
  now rewrite SFcompare_refl by (eapply SFleb_not_nan_r; eauto).
Qed.

(** A negative float is not positive. *)
Lemma ltb_zero_asym (t : float) : (t <? 0)%float = true -> (0 <? t)%float = false.
Proof.
  rewrite !ltb_spec. change (Prim2SF 0) with (S754_zero false).
  destruct (Prim2SF t) as [s|s| |s m e]; cbn; try discriminate;
    destruct s; cbn; congruence.
Qed.

Lemma leb_zero_not_ltb (c : float) : (0 <=? c)%float = true -> (c <? 0)%float = false.
Proof.
  rewrite ltb_spec, leb_spec. change (Prim2SF 0) with (S754_zero false).
  destruct (Prim2SF c) as [s|s| |s m e]; cbn; try discriminate;
    destruct s; cbn; congruence.
Qed.

Lemma py_max_zero_neg (t : float) : (t <? 0)%float = true -> py_max 0 t = 0%float.
Proof. intros H. unfold py_max. now rewrite (ltb_zero_asym t H). Qed.

Lemma py_max_zero_nonneg (t : float) : (0 <=? py_max 0 t)%float = true.
Proof.
  unfold py_max. destruct (0 <? t)%float eqn:H.
  - now apply ltb_leb.
  - reflexivity.
Qed.

Lemma py_min_le_l (a b : float) :
  (a <=? a)%float = true -> (py_min a b <=? a)%float = true.
Proof.
  intros Ha. unfold py_min.
  destruct (b <? a)%float eqn:H; [now apply ltb_leb | exact Ha].
Qed.

Lemma py_min_zero_nonneg (c : float) : (0 <=? c)%float = true -> py_min 0 c = 0%float.
Proof. intros H. unfold py_min. now rewrite (leb_zero_not_ltb c H). Qed.

Lemma timeout_ms_negative (t : float) :
  (t <? 0)%float = true -> InotifyWaiter.timeout_ms t = Ok 0.
Proof.
  intros H. unfold InotifyWaiter.timeout_ms. rewrite (py_max_zero_neg t H).
  vm_compute. reflexivity.
Qed.

Lemma timeout_ms_zero : InotifyWaiter.timeout_ms 0 = Ok 0.
Proof. vm_compute. reflexivity. Qed.

(** ** [AdaptivePollWaiter] *)

Lemma poll_wait_unfold {W} (E : Env W) timeout self w :
  let d := AdaptivePollWaiter.sleep_for timeout self in
  let r := fst (os_sleep E d (os w)) in
  AdaptivePollWaiter.wait E timeout self w =
    (match r with
     | Raised => Raised
     | Ok _ => Ok false
     end,
     match r with
     | Raised => self
     | Ok _ =>
         if (0 <? timeout)%float
         then AdaptivePollWaiter.set_current
                (AdaptivePollWaiter.next_interval self) self
         else self
     end,
     {| os := snd (os_sleep E d (os w)); trace := trace w ++ [CSleep d r] |}).
Proof.
  cbv zeta. unfold AdaptivePollWaiter.wait, time_sleep, perform.
  destruct (os_sleep E (AdaptivePollWaiter.sleep_for timeout self) (os w))
    as [[u|] o]; reflexivity.
Qed.

Lemma sleep_for_le_clamped timeout self :
  (AdaptivePollWaiter.sleep_for timeout self <=? py_max 0 timeout)%float = true.
Proof.
  unfold AdaptivePollWaiter.sleep_for. apply py_min_le_l.
  exact (leb_refl_r _ _ (py_max_zero_nonneg timeout)).
Qed.

Lemma sleep_for_le_timeout timeout self :
  (0 <=? timeout)%float = true ->
  (AdaptivePollWaiter.sleep_for timeout self <=? timeout)%float = true.
Proof.
  intros H. eapply leb_trans; [apply sleep_for_le_clamped|].
  unfold py_max. destruct (0 <? timeout)%float; [|exact H].
  exact (leb_refl_r _ _ H).
Qed.

(** The example poller: its next interval and its sleep under a timeout of
    one second. *)
Lemma backoff_next k :
  AdaptivePollWaiter.next_interval (poller_at k) = backoff_at (S k).
Proof.
  do 6 (destruct k as [|k]; [vm_compute; reflexivity|]).
  unfold poller_at, backoff_at. rewrite !nth_overflow by (cbn; lia).
  vm_compute. reflexivity.
Qed.

Lemma backoff_sleep k :
  AdaptivePollWaiter.sleep_for 1 (poller_at k) = backoff_at k.
Proof.
  do 6 (destruct k as [|k]; [vm_compute; reflexivity|]).
  unfold poller_at, backoff_at. rewrite !nth_overflow by (cbn; lia).
  vm_compute. reflexivity.
Qed.

Lemma backoff_monotone i : (backoff_at i <=? backoff_at (S i))%float = true.
Proof.
  do 6 (destruct i as [|i]; [vm_compute; reflexivity|]).
  unfold backoff_at. rewrite !nth_overflow by (cbn; lia). reflexivity.
Qed.

Lemma backoff_capped i : (backoff_at i <=? 0.5)%float = true.
Proof.
  do 6 (destruct i as [|i]; [vm_compute; reflexivity|]).
  unfold backoff_at. rewrite !nth_overflow by (cbn; lia). reflexivity.
Qed.

Lemma backoff_at_cap i : (6 <= i)%nat -> backoff_at i = 0.5%float.
Proof. intros H. unfold backoff_at. now rewrite nth_overflow by (cbn; lia). Qed.

Lemma wait_n_backoff {W} (E : Env W) :
  (forall d o, fst (os_sleep E d o) = Ok tt) ->
  forall n k w,
    fst (wait_n E n 1 (poller_at k) w) = poller_at (k + n)
    /\ exists seg,
        trace (snd (wait_n E n 1 (poller_at k) w)) = trace w ++ seg
        /\ sleeps seg = map backoff_at (seq k n).
Proof.
  intros Hs. induction n as [|n IH]; intros k w; cbn [wait_n].
  - rewrite Nat.add_0_r. split; [reflexivity|]. exists []. now rewrite app_nil_r.
  - rewrite poll_wait_unfold. cbv zeta. rewrite Hs, backoff_sleep.
    change (0 <? 1)%float with true. cbv iota.
    replace (AdaptivePollWaiter.set_current
               (AdaptivePollWaiter.next_interval (poller_at k)) (poller_at k))
      with (poller_at (S k))
      by (rewrite backoff_next; reflexivity).
    destruct (IH (S k)
                {| os := snd (os_sleep E (backoff_at k) (os w));
                   trace := trace w ++ [CSleep (backoff_at k) (Ok tt)] |})
      as [Hself (seg & Ht & Hsl)].
    split.
    + rewrite Hself. f_equal. lia.
    + exists (CSleep (backoff_at k) (Ok tt) :: seg). split.
      * rewrite Ht. cbn [trace]. now rewrite <- app_assoc.
      * cbn. now rewrite Hsl.
Qed.

Lemma wait_n_sleeps {W} (E : Env W) :
  (forall d o, fst (os_sleep E d o) = Ok tt) ->
  forall n w,
    sleeps (calls_between w (snd (wait_n E n 1 (poller_at 0) w)))
    = map backoff_at (seq 0 n).
Proof.
  intros Hs n w. destruct (wait_n_backoff E Hs n 0%nat w) as [_ (seg & Ht & Hsl)].
  now rewrite (calls_between_app _ _ _ Ht).
Qed.

Lemma py_max_ge_l (a b : float) :
  (0 <=? a)%float = true -> (0 <=? py_max a b)%float = true.
Proof.
  intros Ha. unfold py_max. destruct (a <? b)%float eqn:H; [|exact Ha].
  exact (leb_trans _ _ _ Ha (ltb_leb _ _ H)).
Qed.

Lemma py_min_ge (a b : float) :
  (0 <=? a)%float = true -> (0 <=? b)%float = true ->
  (0 <=? py_min a b)%float = true.
Proof. intros Ha Hb. unfold py_min. now destruct (b <? a)%float. Qed.

(** The intervals of a poller are never negative. *)
Lemma poll_new_nonneg base_interval max_interval :
  poll_nonneg (AdaptivePollWaiter.new base_interval max_interval).
Proof.
  unfold poll_nonneg, AdaptivePollWaiter.new; cbn.
  pose proof (py_max_zero_nonneg base_interval) as Hb.
  repeat split; auto using py_max_ge_l.
Qed.

Lemma poll_reset_nonneg self :
  poll_nonneg self -> poll_nonneg (AdaptivePollWaiter.reset self).
Proof. unfold poll_nonneg, AdaptivePollWaiter.reset; cbn. tauto. Qed.

Lemma poll_wait_nonneg {W} (E : Env W) timeout self w :
  poll_nonneg self ->
  poll_nonneg (snd (fst (AdaptivePollWaiter.wait E timeout self w))).
Proof.
  intros (Hb & Hm & Hc). rewrite poll_wait_unfold. cbv zeta. cbn [fst snd].
  destruct (fst (os_sleep E _ _)); [|now repeat split].
  destruct (0 <? timeout)%float; [|now repeat split].
  unfold poll_nonneg, AdaptivePollWaiter.set_current,
    AdaptivePollWaiter.next_interval; cbn.
  repeat split; auto using py_min_ge, py_max_ge_l.
Qed.

(** C7.  For every timeout and every state of the poller,
    [AdaptivePollWaiter.wait] returns [False] whenever [time.sleep] returns
    (it raises only if [time.sleep] does), and it never returns [True]: the
    poller reports no change by itself. *)
Theorem poll_wait_reports_no_change {W} (E : Env W) (timeout : float)
  (self : AdaptivePollWaiter.t) (w : World W) :
  fst (fst (AdaptivePollWaiter.wait E timeout self w)) =
    match fst (os_sleep E (AdaptivePollWaiter.sleep_for timeout self) (os w)) with
    | Ok _ => Ok false
    | Raised => Raised
    end
  /\ fst (fst (AdaptivePollWaiter.wait E timeout self w)) <> Ok true.
Proof.
  rewrite poll_wait_unfold. cbv zeta. cbn [fst].
  destruct (fst (os_sleep E _ _)); split; congruence.
Qed.

(** C6.  [AdaptivePollWaiter.wait(timeout)] sleeps for
    [min(max(0, timeout), current)], which is at most the clamped timeout and
    at most [timeout] itself when that is not negative; after a wait with
    [timeout > 0] (in which [time.sleep] returned) the interval is
    [min(max, max(base, current * 1.5))].  With [base = 0.05], [max = 0.5] and
    [timeout = 1.0] the successive sleeps are [backoff_at 0, 1, 2, ...]:
    0.05, then 0.05 * 1.5 and 0.05 * 1.5 * 1.5 in binary64 (within 1e-15 of
    0.075 and 0.1125), non-decreasing, at most 0.5 and equal to 0.5 from the
    seventh on; [reset()] puts the interval back to [base], after which the
    same sequence starts again. *)
Theorem adaptive_backoff {W} (E : Env W) :
  (forall timeout self w,
      exists r,
        calls_between w (snd (AdaptivePollWaiter.wait E timeout self w)) =
          [CSleep (py_min (py_max 0 timeout) (AdaptivePollWaiter._current self)) r])
  /\ (forall timeout self,
         (py_min (py_max 0 timeout) (AdaptivePollWaiter._current self)
          <=? py_max 0 timeout)%float = true)
  /\ (forall timeout self,
         (0 <=? timeout)%float = true ->
         (py_min (py_max 0 timeout) (AdaptivePollWaiter._current self)
          <=? timeout)%float = true)
  /\ (forall timeout self w,
         fst (os_sleep E (AdaptivePollWaiter.sleep_for timeout self) (os w)) = Ok tt ->
         AdaptivePollWaiter._current
           (snd (fst (AdaptivePollWaiter.wait E timeout self w))) =
           if (0 <? timeout)%float
           then py_min (AdaptivePollWaiter._max self)
                  (py_max (AdaptivePollWaiter._base self)
                     (AdaptivePollWaiter._current self * 1.5)%float)
           else AdaptivePollWaiter._current self)
  /\ ((forall d o, fst (os_sleep E d o) = Ok tt) ->
      forall n w,
        sleeps (calls_between w
                  (snd (wait_n E n 1 (AdaptivePollWaiter.new 0.05 0.5) w))) =
          map backoff_at (seq 0 n))
  /\ (backoff_at 0 = 0.05%float
      /\ close_to (backoff_at 1) 0.075 = true
      /\ close_to (backoff_at 2) 0.1125 = true)
  /\ (forall i, (backoff_at i <=? backoff_at (S i))%float = true)
  /\ (forall i, (backoff_at i <=? 0.5)%float = true)
  /\ (forall i, (6 <= i)%nat -> backoff_at i = 0.5%float)
  /\ (forall self,
         AdaptivePollWaiter._current (AdaptivePollWaiter.reset self)
         = AdaptivePollWaiter._base self)
  /\ ((forall d o, fst (os_sleep E d o) = Ok tt) ->
      forall k n w w2,
        let used := fst (wait_n E k 1 (AdaptivePollWaiter.new 0.05 0.5) w) in
        sleeps (calls_between w2
                  (snd (wait_n E n 1 (AdaptivePollWaiter.reset used) w2))) =
          map backoff_at (seq 0 n)).
Proof.
  split; [|split; [|split; [|split; [|split; [|split; [|split; [|split;
    [|split; [|split]]]]]]]]].
  - intros timeout self w. rewrite poll_wait_unfold. cbv zeta. cbn [snd].
    eexists. apply calls_between_app. reflexivity.
  - intros. apply sleep_for_le_clamped.
  - intros. now apply sleep_for_le_timeout.
  - intros timeout self w H. rewrite poll_wait_unfold. cbv zeta.
    rewrite H. cbn [fst snd]. now destruct (0 <? timeout)%float.
  - intros Hs n w. exact (wait_n_sleeps E Hs n w).
  - repeat split; vm_compute; reflexivity.
  - apply backoff_monotone.
  - apply backoff_capped.
  - apply backoff_at_cap.
  - reflexivity.
  - intros Hs k n w w2. cbv zeta.
    change (AdaptivePollWaiter.new 0.05 0.5) with (poller_at 0).
    destruct (wait_n_backoff E Hs k 0%nat w) as [-> _].
    exact (wait_n_sleeps E Hs n w2).
Qed.

Lemma adaptive_backoff_witness :
  (0 <=? 0.02)%float = true
  /\ (py_min (py_max 0 0.02) 0.05 <=? 0.02)%float = true
  /\ AdaptivePollWaiter._current
       (snd (fst (AdaptivePollWaiter.wait Fake.env 1
                    (AdaptivePollWaiter.new 0.05 0.5) w0)))
     = (0.05 * 1.5)%float
  /\ sleeps (calls_between w0
               (snd (wait_n Fake.env 8 1 (AdaptivePollWaiter.new 0.05 0.5) w0)))
     = map backoff_at (seq 0 8)
  /\ sleeps (calls_between w0
               (snd (wait_n Fake.env 2 1
                       (AdaptivePollWaiter.reset
                          (fst (wait_n Fake.env 4 1
                                  (AdaptivePollWaiter.new 0.05 0.5) w0)))
                       w0)))
     = map backoff_at (seq 0 2).
Proof.
  pose proof (adaptive_backoff Fake.env)
    as (_ & _ & H3 & H4 & H5 & _ & _ & _ & _ & _ & H11).
  split; [reflexivity|]. split.
  - exact (H3 0.02%float (AdaptivePollWaiter.new 0.05 0.5) eq_refl).
  - split.
    + exact (H4 1%float (AdaptivePollWaiter.new 0.05 0.5) w0 eq_refl).
    + split.
      * exact (H5 (fun _ _ => eq_refl) 8%nat w0).
      * exact (H11 (fun _ _ => eq_refl) 4%nat 2%nat w0 w0).
Defined.

(** ** [InotifyWaiter]: the flag and the result of [wait] *)

(** Case analysis on the next call to the environment in the goal. *)
Ltac case_call :=
  match goal with
  | |- context [path_exists ?E ?p ?w] =>
      let r := fresh "r" in let w' := fresh "w" in
      destruct (path_exists E p w) as [[[|]|] w']
  | |- context [path_is_dir ?E ?p ?w] =>
      let w' := fresh "w" in
      destruct (path_is_dir E p w) as [[[|]|] w']
  | |- context [add_watch ?E ?p ?m ?w] =>
      let h := fresh "h" in let w' := fresh "w" in
      destruct (add_watch E p m w) as [[h|] w']
  | |- context [rm_watch ?E ?h ?w] =>
      let r := fresh "r" in let w' := fresh "w" in
      destruct (rm_watch E h w) as [r w']
  | |- context [backend_close ?E ?w] =>
      let r := fresh "r" in let w' := fresh "w" in
      destruct (backend_close E w) as [r w']
  end.

Ltac iw_simpl :=
  cbn [fst snd InotifyWaiter.overflowed InotifyWaiter._wds
       InotifyWaiter._tracked_files InotifyWaiter.set_wds
       InotifyWaiter.set_tracked_files InotifyWaiter.set_overflowed].

Section WatcherFacts.
Context {W : Type} (E : Env W) (P : Pathlib).

Lemma drop_file_watches_overflowed file_path items self w :
  InotifyWaiter.overflowed (fst (InotifyWaiter.drop_file_watches E file_path items self w))
  = InotifyWaiter.overflowed self.
Proof.
  revert self w. induction items as [|[h [k p]] items IH]; intros self w; cbn.
  - reflexivity.
  - destruct (InotifyWaiter.is_file k && String.eqb p file_path).
    + destruct (rm_watch E h w) as [r w1]. now rewrite IH.
    + apply IH.
Qed.

Lemma refresh_overflowed file_path self w :
  InotifyWaiter.overflowed (fst (InotifyWaiter._refresh_file_watch E file_path self w))
  = InotifyWaiter.overflowed self.
Proof.
  unfold InotifyWaiter._refresh_file_watch.
  destruct (path_exists E file_path w) as [[[|]|] w1]; try reflexivity.
  pose proof (drop_file_watches_overflowed file_path
                (InotifyWaiter._wds self) self w1) as H.
  destruct (InotifyWaiter.drop_file_watches E file_path _ self w1) as [s2 w2].
  destruct (add_watch E file_path InotifyWaiter._FILE_MASK w2) as [[h|] w3];
    exact H.
Qed.

Lemma scan_tracked_overflowed ev_name watched_path items self w :
  InotifyWaiter.overflowed
    (fst (InotifyWaiter.scan_tracked E P ev_name watched_path items self w))
  = InotifyWaiter.overflowed self.
Proof.
  induction items as [|[f p] items IH]; cbn; [reflexivity|].
  destruct (negb (str_truthy p)); [exact IH|].
  destruct (str_truthy watched_path && negb (String.eqb watched_path p));
    [exact IH|].
  destruct (String.eqb (path_name P f) ev_name); [|exact IH].
  apply refresh_overflowed.
Qed.

Lemma handle_events_cons ev events self w :
  InotifyWaiter.handle_events E P (ev :: events) self w =
    if has_overflow ev then (true, InotifyWaiter.set_overflowed true self, w)
    else if has_self_gone ev then
      match dict_get Z.eqb (wd ev) (InotifyWaiter._wds self) with
      | Some (InotifyWaiter.KFile, path) =>
          (true, fst (InotifyWaiter._refresh_file_watch E path self w),
           snd (InotifyWaiter._refresh_file_watch E path self w))
      | _ => (true, self, w)
      end
    else if str_truthy (name ev) then
      let watched_path :=
        match dict_get Z.eqb (wd ev) (InotifyWaiter._wds self) with
        | Some (_, path) => path
        | None => EmptyString
        end in
      (true,
       fst (InotifyWaiter.scan_tracked E P (name ev) watched_path
              (InotifyWaiter._tracked_files self) self w),
       snd (InotifyWaiter.scan_tracked E P (name ev) watched_path
              (InotifyWaiter._tracked_files self) self w))
    else InotifyWaiter.handle_events E P events self w.
Proof.
  cbn [InotifyWaiter.handle_events]. unfold has_overflow, has_self_gone.
  destruct (int_truthy (Z.land (mask ev) InotifyWaiter.MASK_Q_OVERFLOW));
    [reflexivity|].
  destruct (int_truthy (Z.land (mask ev) (Z.lor _ _))).
  - destruct (dict_get Z.eqb (wd ev) (InotifyWaiter._wds self))
      as [[[|] path]|]; try reflexivity.
    now destruct (InotifyWaiter._refresh_file_watch E path self w).
  - destruct (str_truthy (name ev)); [|reflexivity].
    cbn zeta. now destruct (InotifyWaiter.scan_tracked E P _ _ _ self w).
Qed.

(** What the loop over a batch returns, and what it does to the flag. *)
Lemma handle_events_spec events self w :
  fst (fst (InotifyWaiter.handle_events E P events self w)) = true
  /\ InotifyWaiter.overflowed (snd (fst (InotifyWaiter.handle_events E P events self w)))
     = InotifyWaiter.overflowed self
       || match find ends_scan events with
          | Some ev => has_overflow ev
          | None => false
          end.
Proof.
  induction events as [|ev events IH].
  - cbn. now rewrite orb_false_r.
  - rewrite handle_events_cons. cbn [find]. unfold ends_scan at 1.
    destruct (has_overflow ev) eqn:Ho.
    + cbn. rewrite Ho. now rewrite orb_true_r.
    + cbn [orb]. destruct (has_self_gone ev) eqn:Hs.
      * cbn [orb]. rewrite Ho, orb_false_r.
        destruct (dict_get Z.eqb (wd ev) (InotifyWaiter._wds self))
          as [[[|] path]|]; try (split; reflexivity).
        split; [reflexivity | apply refresh_overflowed].
      * cbn [orb]. destruct (str_truthy (name ev)) eqn:Hn.
        -- rewrite Ho, orb_false_r. cbn zeta.
           split; [reflexivity | apply scan_tracked_overflowed].
        -- exact IH.
Qed.

Lemma wait_unfold timeout ms self w :
  InotifyWaiter.timeout_ms timeout = Ok ms ->
  InotifyWaiter.wait E P timeout self w =
    let w1 := {| os := snd (os_read E ms (os w));
                 trace := trace w ++ [CRead ms (fst (os_read E ms (os w)))] |} in
    match fst (os_read E ms (os w)) with
    | Raised => (Raised, self, w1)
    | Ok [] => (Ok false, self, w1)
    | Ok (ev :: rest) =>
        (Ok (fst (fst (InotifyWaiter.handle_events E P (ev :: rest) self w1))),
         snd (fst (InotifyWaiter.handle_events E P (ev :: rest) self w1)),
         snd (InotifyWaiter.handle_events E P (ev :: rest) self w1))
    end.
Proof.
  intros Hms. unfold InotifyWaiter.wait, read, perform. rewrite Hms.
  destruct (os_read E ms (os w)) as [[[|ev rest]|] o1]; cbn [fst snd]; try reflexivity.
  destruct (InotifyWaiter.handle_events E P (ev :: rest) self _) as [[b s1] w1].
  reflexivity.
Qed.

Lemma wait_result_nonempty timeout ms events o1 self w :
  InotifyWaiter.timeout_ms timeout = Ok ms ->
  os_read E ms (os w) = (Ok events, o1) ->
  events <> [] ->
  fst (fst (InotifyWaiter.wait E P timeout self w)) = Ok true.
Proof.
  intros Hms Hread Hne. rewrite (wait_unfold _ _ _ _ Hms), Hread.
  cbn [fst snd]. cbv zeta.
  destruct events as [|ev rest]; [congruence|].
  cbn [fst]. f_equal. apply (handle_events_spec (ev :: rest)).
Qed.

Lemma wait_overflowed_kept timeout self w :
  InotifyWaiter.overflowed self = true ->
  InotifyWaiter.overflowed (snd (fst (InotifyWaiter.wait E P timeout self w))) = true.
Proof.
  intros Hov. destruct (InotifyWaiter.timeout_ms timeout) as [ms|] eqn:Hms.
  - rewrite (wait_unfold _ _ _ _ Hms). cbn zeta.
    destruct (fst (os_read E ms (os w))) as [[|ev rest]|]; cbn [fst snd]; auto.
    destruct (handle_events_spec (ev :: rest) self
                {| os := snd (os_read E ms (os w));
                   trace := trace w ++ [CRead ms (Ok (ev :: rest))] |}) as [_ H].
    rewrite H, Hov. reflexivity.
  - unfold InotifyWaiter.wait. rewrite Hms. exact Hov.
Qed.

Lemma watch_one_overflowed path self w :
  InotifyWaiter.overflowed (fst (InotifyWaiter._watch_one E P path self w))
  = InotifyWaiter.overflowed self.
Proof.
  unfold InotifyWaiter._watch_one. repeat (case_call; iw_simpl); reflexivity.
Qed.

Lemma watch_each_overflowed paths self w :
  InotifyWaiter.overflowed (fst (InotifyWaiter.watch_each E P paths self w))
  = InotifyWaiter.overflowed self.
Proof.
  revert self w. induction paths as [|p paths IH]; intros self w; cbn; [reflexivity|].
  pose proof (watch_one_overflowed p self w) as H.
  destruct (InotifyWaiter._watch_one E P p self w) as [s1 w1].
  rewrite IH. exact H.
Qed.

Lemma watch_paths_overflowed paths self w :
  InotifyWaiter.overflowed (fst (InotifyWaiter.watch_paths E P paths self w))
  = InotifyWaiter.overflowed self.
Proof.
  unfold InotifyWaiter.watch_paths, InotifyWaiter._reset_watches.
  now rewrite watch_each_overflowed.
Qed.

Lemma close_overflowed self w :
  InotifyWaiter.overflowed (fst (InotifyWaiter.close E self w))
  = InotifyWaiter.overflowed self.
Proof.
  unfold InotifyWaiter.close.
  destruct (backend_close E _) as [r w1]. reflexivity.
Qed.

Lemma watcher_step_overflowed op self w :
  InotifyWaiter.overflowed self = true ->
  InotifyWaiter.overflowed (fst (watcher_step E P op self w)) = true.
Proof.
  intros H. destruct op as [timeout|paths|]; cbn [watcher_step].
  - pose proof (wait_overflowed_kept timeout self w H) as H1.
    destruct (InotifyWaiter.wait E P timeout self w) as [[r s1] w1]. exact H1.
  - now rewrite watch_paths_overflowed.
  - now rewrite close_overflowed.
Qed.
End WatcherFacts.

(** C1.  In a call [InotifyWaiter.wait(timeout)] whose backend [read]
    returns, the result is [False] when the batch is empty and [True] when it
    holds at least one event, whatever the masks and names of the events and
    whatever is tracked. *)
Theorem wait_true_iff_events {W} (E : Env W) (P : Pathlib) (timeout : float)
  (self : InotifyWaiter.t) (w : World W) (ms : Z) (events : list InotifyEvent)
  (o1 : W) :
  InotifyWaiter.timeout_ms timeout = Ok ms ->
  os_read E ms (os w) = (Ok events, o1) ->
  fst (fst (InotifyWaiter.wait E P timeout self w)) =
    Ok (match events with [] => false | _ :: _ => true end).
Proof.
  intros Hms Hread. destruct events as [|ev rest].
  - rewrite (wait_unfold E P _ _ _ _ Hms), Hread. reflexivity.
  - now apply (wait_result_nonempty E P timeout ms (ev :: rest) o1).
Qed.

Lemma wait_true_iff_events_witness :
  fst (fst (InotifyWaiter.wait Fake.env Fake.posix 0.25 iw_empty
              (world_with_batch [] [] [ev_modify]))) = Ok true
  /\ fst (fst (InotifyWaiter.wait Fake.env Fake.posix 0.25 iw_empty
                 (world_with_batch [] [] []))) = Ok false.
Proof.
  split.
  - exact (wait_true_iff_events Fake.env Fake.posix 0.25 iw_empty
             (world_with_batch [] [] [ev_modify]) 250 [ev_modify] _ eq_refl eq_refl).
  - exact (wait_true_iff_events Fake.env Fake.posix 0.25 iw_empty
             (world_with_batch [] [] []) 250 [] _ eq_refl eq_refl).
Defined.

Lemma find_skip {A} (f : A -> bool) (pre : list A) (x : A) (post : list A) :
  forallb (fun a => negb (f a)) pre = true -> f x = true ->
  find f (pre ++ x :: post) = Some x.
Proof.
  intros Hpre Hx. induction pre as [|a pre IH]; cbn in *.
  - now rewrite Hx.
  - apply andb_true_iff in Hpre as [Ha Hpre].
    apply negb_true_iff in Ha. rewrite Ha. now apply IH.
Qed.

(** C2, amended.  In a call of [InotifyWaiter.wait] whose [read] returns a
    batch that is not empty, [wait] returns [True]; [overflowed] becomes true
    exactly when the first event of the batch at which the loop returns (the
    first with the overflow bit, the moved-self or deleted-self bit, or a
    name) has the overflow bit, and is left as it was otherwise.  In
    particular an overflow event sets the flag when no event before it has
    the moved-self or deleted-self bit or a name. *)
Theorem overflow_sets_flag_when_reached {W} (E : Env W) (P : Pathlib)
  (timeout : float) (self : InotifyWaiter.t) (w : World W) (ms : Z)
  (events : list InotifyEvent) (o1 : W) :
  InotifyWaiter.timeout_ms timeout = Ok ms ->
  os_read E ms (os w) = (Ok events, o1) ->
  events <> [] ->
  fst (fst (InotifyWaiter.wait E P timeout self w)) = Ok true
  /\ InotifyWaiter.overflowed (snd (fst (InotifyWaiter.wait E P timeout self w)))
     = InotifyWaiter.overflowed self
       || match find ends_scan events with
          | Some ev => has_overflow ev
          | None => false
          end
  /\ (forall pre ev post,
         events = pre ++ ev :: post ->
         forallb (fun e => negb (ends_scan e)) pre = true ->
         has_overflow ev = true ->
         InotifyWaiter.overflowed (snd (fst (InotifyWaiter.wait E P timeout self w)))
         = true).
Proof.
  intros Hms Hread Hne.
  assert (Hov : InotifyWaiter.overflowed
                  (snd (fst (InotifyWaiter.wait E P timeout self w)))
                = InotifyWaiter.overflowed self
                  || match find ends_scan events with
                     | Some ev => has_overflow ev
                     | None => false
                     end).
  { rewrite (wait_unfold E P _ _ _ _ Hms), Hread. cbn [fst snd]. cbv zeta.
    destruct events as [|ev rest]; [congruence|]. cbn [fst snd].
    apply (handle_events_spec E P (ev :: rest)). }
  split; [|split].
  - exact (wait_result_nonempty E P _ _ _ _ _ _ Hms Hread Hne).
  - exact Hov.
  - intros pre ev post -> Hpre Hev. rewrite Hov.
    rewrite (find_skip ends_scan pre ev post Hpre).
    + rewrite Hev. apply orb_true_r.
    + unfold ends_scan. now rewrite Hev.
Qed.

Lemma overflow_sets_flag_when_reached_witness :
  InotifyWaiter.overflowed
    (snd (fst (InotifyWaiter.wait Fake.env Fake.posix 0.25 iw_empty
                 (world_with_batch [] [] [ev_modify; ev_overflow; ev_moved_self]))))
  = true.
Proof.
  refine (proj2 (proj2 (overflow_sets_flag_when_reached Fake.env Fake.posix 0.25
            iw_empty (world_with_batch [] [] [ev_modify; ev_overflow; ev_moved_self])
            250 [ev_modify; ev_overflow; ev_moved_self] _ eq_refl eq_refl _))
            [ev_modify] ev_overflow [ev_moved_self] eq_refl eq_refl eq_refl).
  discriminate.
Defined.

(** C2 as stated fails: an overflow event that comes after a moved-self
    event in the batch is never looked at, [wait] returns [True] and
    [overflowed] stays false. *)
Lemma overflow_behind_self_event_unseen :
  existsb has_overflow [ev_moved_self; ev_overflow] = true
  /\ fst (fst (InotifyWaiter.wait Fake.env Fake.posix 0.25 iw_empty
                 (world_with_batch [] [] [ev_moved_self; ev_overflow]))) = Ok true
  /\ InotifyWaiter.overflowed
       (snd (fst (InotifyWaiter.wait Fake.env Fake.posix 0.25 iw_empty
                    (world_with_batch [] [] [ev_moved_self; ev_overflow]))))
     = false.
Proof. repeat split; vm_compute; reflexivity. Qed.

(** C10.  [overflowed] is false in a new [InotifyWaiter], and once it is
    true no sequence of [wait], [watch_paths] and [close] makes it false
    again. *)
Theorem overflowed_sticky {W} (E : Env W) (P : Pathlib) :
  (forall w self w1,
      InotifyWaiter.new E w = (Ok self, w1) ->
      InotifyWaiter.overflowed self = false)
  /\ (forall ops self w,
         InotifyWaiter.overflowed self = true ->
         InotifyWaiter.overflowed (fst (watcher_run E P ops self w)) = true).
Proof.
  split.
  - intros w self w1. unfold InotifyWaiter.new.
    destruct (make_backend E w) as [[u|] w2]; intros H; inversion H; reflexivity.
  - induction ops as [|op ops IH]; intros self w Hov; cbn [watcher_run].
    + exact Hov.
    + pose proof (watcher_step_overflowed E P op self w Hov) as H.
      destruct (watcher_step E P op self w) as [s1 w1]. now apply IH.
Qed.

Lemma overflowed_sticky_witness :
  InotifyWaiter.new Fake.env w0 = (Ok iw_empty, snd (InotifyWaiter.new Fake.env w0))
  /\ InotifyWaiter.overflowed iw_empty = false
  /\ InotifyWaiter.overflowed (InotifyWaiter.set_overflowed true iw_empty) = true
  /\ InotifyWaiter.overflowed
       (fst (watcher_run Fake.env Fake.posix
               [OpWait 0.25; OpWatchPaths ["/d/f"%string]; OpWait 0; OpClose; OpWait 1]
               (InotifyWaiter.set_overflowed true iw_empty)
               (world_with_batch ["/d/f"%string] ["/d"%string] [ev_moved_self])))
     = true.
Proof.
  split; [reflexivity|]. split; [|split; [reflexivity|]].
  - exact (proj1 (overflowed_sticky Fake.env Fake.posix) w0 iw_empty
             (snd (InotifyWaiter.new Fake.env w0)) eq_refl).
  - exact (proj2 (overflowed_sticky Fake.env Fake.posix)
             [OpWait 0.25; OpWatchPaths ["/d/f"%string]; OpWait 0; OpClose; OpWait 1]
             (InotifyWaiter.set_overflowed true iw_empty)
             (world_with_batch ["/d/f"%string] ["/d"%string] [ev_moved_self])
             eq_refl).
Defined.

(** ** [FileChangeWaiter] *)

Section FacadeFacts.
Context {W NW : Type} (E : Env W) (P : Pathlib) (N : Watcher W NW).

Lemma polling_wait timeout self w :
  polling self ->
  FileChangeWaiter.wait E N timeout self w =
    (fst (fst (AdaptivePollWaiter.wait E timeout (FileChangeWaiter._poll self) w)),
     FileChangeWaiter.set_poll
       (snd (fst (AdaptivePollWaiter.wait E timeout (FileChangeWaiter._poll self) w)))
       self,
     snd (AdaptivePollWaiter.wait E timeout (FileChangeWaiter._poll self) w)).
Proof.
  intros [Hu Hi]. unfold FileChangeWaiter.wait. rewrite Hu.
  now destruct (AdaptivePollWaiter.wait E timeout _ w) as [[r p] w1].
Qed.

Lemma polling_apply_paths paths self w :
  polling self ->
  FileChangeWaiter.apply_paths N paths self w =
    (FileChangeWaiter.set_paths paths self, w).
Proof.
  intros [Hu Hi]. unfold FileChangeWaiter.apply_paths.
  cbn [FileChangeWaiter.set_paths FileChangeWaiter._use_inotify
       FileChangeWaiter._inotify]. now rewrite Hu.
Qed.

Lemma polling_close self w :
  polling self -> FileChangeWaiter.close N self w = (self, w).
Proof.
  intros [Hu Hi]. unfold FileChangeWaiter.close. rewrite Hi.
  destruct self; cbn in *; subst; reflexivity.
Qed.

Lemma polling_step op self w :
  polling self -> polling (fst (facade_step E P N op self w)).
Proof.
  intros H. destruct op as [timeout|paths| |]; cbn [facade_step].
  - rewrite (polling_wait timeout self w H). exact H.
  - unfold FileChangeWaiter.update_paths.
    rewrite (polling_apply_paths _ self w H). exact H.
  - exact H.
  - now rewrite (polling_close self w H).
Qed.

Lemma polling_run ops self w :
  polling self -> polling (fst (facade_run E P N ops self w)).
Proof.
  revert self w. induction ops as [|op ops IH]; intros self w H; cbn [facade_run].
  - exact H.
  - pose proof (polling_step op self w H) as H1.
    destruct (facade_step E P N op self w) as [s1 w1]. now apply IH.
Qed.
End FacadeFacts.

(** C3.  The facade leaves the native strategy for good.  Each trigger
    (the watcher cannot be built, [watch_paths] raises inside [update_paths],
    [wait] of the watcher raises) ends with the watcher closed, [_inotify]
    emptied and [_use_inotify] off; and in that state [wait] is the poller's
    [wait], [update_paths] only stores the paths, [close] does nothing,
    [overflowed] is false, and no sequence of [wait], [update_paths],
    [reset_backoff] and [close] leaves it. *)
Theorem demotion_is_permanent {W NW} (E : Env W) (P : Pathlib) (N : Watcher W NW) :
  (forall paths enabled poll_interval debug_name w w1,
      nw_new N w = (Raised, w1) ->
      polling (fst (FileChangeWaiter.new E P N paths enabled poll_interval debug_name w)))
  /\ (forall paths self w i i1 w1,
         FileChangeWaiter._use_inotify self = true ->
         FileChangeWaiter._inotify self = Some i ->
         nw_watch_paths N (FileChangeWaiter.to_paths P paths) i w = (Raised, i1, w1) ->
         FileChangeWaiter.update_paths P N paths self w =
           (FileChangeWaiter.set_inotify None
              (FileChangeWaiter.set_use_inotify false
                 (FileChangeWaiter.set_paths (FileChangeWaiter.to_paths P paths) self)),
            snd (nw_close N i1 w1)))
  /\ (forall timeout self w i i1 w1,
         FileChangeWaiter._use_inotify self = true ->
         FileChangeWaiter._inotify self = Some i ->
         nw_wait N timeout i w = (Raised, i1, w1) ->
         let demoted :=
           FileChangeWaiter.set_inotify None
             (FileChangeWaiter.set_use_inotify false self) in
         let polled :=
           AdaptivePollWaiter.wait E timeout (FileChangeWaiter._poll self)
             (snd (nw_close N i1 w1)) in
         FileChangeWaiter.wait E N timeout self w =
           (fst (fst polled),
            FileChangeWaiter.set_poll (snd (fst polled)) demoted,
            snd polled))
  /\ (forall self,
         polling self ->
         (forall timeout w,
             let polled :=
               AdaptivePollWaiter.wait E timeout (FileChangeWaiter._poll self) w in
             FileChangeWaiter.wait E N timeout self w =
               (fst (fst polled),
                FileChangeWaiter.set_poll (snd (fst polled)) self,
                snd polled))
         /\ (forall paths w,
                FileChangeWaiter.update_paths P N paths self w =
                  (FileChangeWaiter.set_paths (FileChangeWaiter.to_paths P paths) self, w))
         /\ (forall w, FileChangeWaiter.close N self w = (self, w))
         /\ FileChangeWaiter.overflowed N self = false)
  /\ (forall ops self w,
         polling self -> polling (fst (facade_run E P N ops self w))).
Proof.
  split; [|split; [|split; [|split]]].
  - intros paths enabled poll_interval debug_name w w1 Hnew.
    unfold FileChangeWaiter.new, FileChangeWaiter._maybe_enable_inotify.
    cbn [FileChangeWaiter._enabled].
    destruct enabled; cbn [negb];
      [destruct (os_is_linux E); cbn [negb]; [rewrite Hnew|]|];
      rewrite polling_apply_paths; split; reflexivity.
  - intros paths self w i i1 w1 Hu Hi Hraise.
    unfold FileChangeWaiter.update_paths, FileChangeWaiter.apply_paths.
    cbn [FileChangeWaiter.set_paths FileChangeWaiter._use_inotify
         FileChangeWaiter._inotify FileChangeWaiter._paths].
    rewrite Hu, Hi, Hraise.
    destruct (nw_close N i1 w1) as [[r i2] w2]. reflexivity.
  - intros timeout self w i i1 w1 Hu Hi Hraise. cbv zeta.
    unfold FileChangeWaiter.wait. rewrite Hu, Hi, Hraise.
    destruct (nw_close N i1 w1) as [[r i2] w2]. cbn [snd].
    cbn [FileChangeWaiter.set_inotify FileChangeWaiter.set_use_inotify
         FileChangeWaiter._poll].
    now destruct (AdaptivePollWaiter.wait E timeout _ w2) as [[r1 p] w3].
  - intros self H. split; [|split; [|split]].
    + intros timeout w. cbv zeta. now apply polling_wait.
    + intros paths w. unfold FileChangeWaiter.update_paths.
      now apply polling_apply_paths.
    + intros w. now apply polling_close.
    + unfold FileChangeWaiter.overflowed. destruct H as [_ ->]. reflexivity.
  - intros ops self w H. now apply polling_run.
Qed.

Lemma demotion_is_permanent_witness :
  polling (snd (fst (FileChangeWaiter.wait Fake.env Fake.broken_watcher 0.25
                       facade_native w0)))
  /\ polling (fst (facade_run Fake.env Fake.posix Fake.broken_watcher
                     [FUpdatePaths ["/d/f"%string]; FWait 0.25; FClose; FWait 1]
                     (snd (fst (FileChangeWaiter.wait Fake.env Fake.broken_watcher 0.25
                                  facade_native w0)))
                     w0))
  /\ (let res := FileChangeWaiter.wait Fake.env (inotify_watcher Fake.env Fake.posix)
                   0.25 facade_inotify w_read_raises in
      fst (fst res) = Ok false
      /\ polling (snd (fst res))
      /\ calls_between w_read_raises (snd res) =
           [CRead 250 Raised; CRmWatch 3 (Ok tt); CRmWatch 7 (Ok tt);
            CClose (Ok tt); CSleep 0.05 (Ok tt)]).
Proof.
  pose proof (demotion_is_permanent Fake.env Fake.posix Fake.broken_watcher)
    as (_ & _ & Hwait & _ & Hrun).
  assert (Hp : polling (snd (fst (FileChangeWaiter.wait Fake.env Fake.broken_watcher
                                    0.25 facade_native w0)))).
  { rewrite (Hwait 0.25%float facade_native w0 tt tt w0 eq_refl eq_refl eq_refl).
    split; reflexivity. }
  split; [exact Hp|]. split; [exact (Hrun _ _ w0 Hp)|].
  pose proof (demotion_is_permanent Fake.env Fake.posix
                (inotify_watcher Fake.env Fake.posix)) as (_ & _ & Hw & _).
  cbv zeta.
  rewrite (Hw 0.25%float facade_inotify w_read_raises iw_one_file iw_one_file
              _ eq_refl eq_refl eq_refl).
  repeat split.
Defined.

(** ** Negative timeouts *)

Lemma watcher_wait_negative {W} (E : Env W) (P : Pathlib) timeout self w :
  (timeout <? 0)%float = true ->
  InotifyWaiter.wait E P timeout self w = InotifyWaiter.wait E P 0 self w.
Proof.
  intros H. unfold InotifyWaiter.wait.
  now rewrite (timeout_ms_negative timeout H), timeout_ms_zero.
Qed.

Lemma sleep_for_negative timeout self :
  (timeout <? 0)%float = true ->
  AdaptivePollWaiter.sleep_for timeout self = AdaptivePollWaiter.sleep_for 0 self.
Proof.
  intros H. unfold AdaptivePollWaiter.sleep_for.
  now rewrite (py_max_zero_neg timeout H).
Qed.

Lemma poll_wait_negative {W} (E : Env W) timeout self w :
  (timeout <? 0)%float = true ->
  AdaptivePollWaiter.wait E timeout self w = AdaptivePollWaiter.wait E 0 self w.
Proof.
  intros H. rewrite !poll_wait_unfold.
  rewrite (sleep_for_negative timeout self H), (ltb_zero_asym timeout H).
  reflexivity.
Qed.

(** C9.  A negative timeout is clamped to zero, not rejected: the
    millisecond timeout of [InotifyWaiter.wait] is 0 (the conversion does not
    raise), and [InotifyWaiter.wait], [AdaptivePollWaiter.wait] and
    [FileChangeWaiter.wait] do with it exactly what they do with a timeout of
    zero.  [InotifyWaiter.wait] then raises only if the backend's [read]
    does; the poller, whose interval is never negative, asks [time.sleep]
    for 0 seconds and returns [False] when that returns. *)
Theorem negative_timeout_clamped {W} (E : Env W) (P : Pathlib) (timeout : float) :
  (timeout <? 0)%float = true ->
  InotifyWaiter.timeout_ms timeout = Ok 0
  /\ (forall self w,
         InotifyWaiter.wait E P timeout self w = InotifyWaiter.wait E P 0 self w)
  /\ (forall self w,
         AdaptivePollWaiter.wait E timeout self w = AdaptivePollWaiter.wait E 0 self w)
  /\ (forall self w,
         FileChangeWaiter.wait E (inotify_watcher E P) timeout self w =
         FileChangeWaiter.wait E (inotify_watcher E P) 0 self w)
  /\ (forall self w,
         fst (fst (InotifyWaiter.wait E P timeout self w)) = Raised <->
         fst (os_read E 0 (os w)) = Raised)
  /\ (forall self,
         poll_nonneg self -> AdaptivePollWaiter.sleep_for timeout self = 0%float)
  /\ (forall self w,
         poll_nonneg self ->
         fst (os_sleep E 0 (os w)) = Ok tt ->
         fst (fst (AdaptivePollWaiter.wait E timeout self w)) = Ok false).
Proof.
  intros Hneg.
  assert (Hsleep : forall self, poll_nonneg self ->
                     AdaptivePollWaiter.sleep_for timeout self = 0%float).
  { intros self (_ & _ & Hc). unfold AdaptivePollWaiter.sleep_for.
    rewrite (py_max_zero_neg timeout Hneg). now apply py_min_zero_nonneg. }
  split; [|split; [|split; [|split; [|split; [|split]]]]].
  - now apply timeout_ms_negative.
  - intros. now apply watcher_wait_negative.
  - intros. now apply poll_wait_negative.
  - intros self w. unfold FileChangeWaiter.wait. cbn [nw_wait inotify_watcher].
    destruct (FileChangeWaiter._use_inotify self),
      (FileChangeWaiter._inotify self) as [i|];
      rewrite ?(watcher_wait_negative E P timeout _ _ Hneg),
        ?(poll_wait_negative E timeout _ _ Hneg); try reflexivity.
    destruct (InotifyWaiter.wait E P 0 i w) as [[[b|] i1] w1]; [reflexivity|].
    destruct (nw_close _ i1 w1) as [[r i2] w2].
    now rewrite (poll_wait_negative E timeout _ _ Hneg).
  - intros self w.
    rewrite (wait_unfold E P timeout 0 self w (timeout_ms_negative timeout Hneg)).
    cbv zeta. destruct (fst (os_read E 0 (os w))) as [[|ev rest]|]; cbn [fst];
      split; congruence.
  - exact Hsleep.
  - intros self w Hnn Hok. rewrite poll_wait_unfold, (Hsleep self Hnn), Hok.
    reflexivity.
Qed.

Lemma negative_timeout_clamped_witness :
  (-1 <? 0)%float = true
  /\ InotifyWaiter.timeout_ms (-1) = Ok 0
  /\ FileChangeWaiter.wait Fake.env (inotify_watcher Fake.env Fake.posix) (-1)
       {| FileChangeWaiter._paths := []; FileChangeWaiter._enabled := true;
          FileChangeWaiter._debug_name := EmptyString;
          FileChangeWaiter._poll := AdaptivePollWaiter.new 0.05 0.5;
          FileChangeWaiter._inotify := Some iw_empty;
          FileChangeWaiter._use_inotify := true |} w0
     = FileChangeWaiter.wait Fake.env (inotify_watcher Fake.env Fake.posix) 0
       {| FileChangeWaiter._paths := []; FileChangeWaiter._enabled := true;
          FileChangeWaiter._debug_name := EmptyString;
          FileChangeWaiter._poll := AdaptivePollWaiter.new 0.05 0.5;
          FileChangeWaiter._inotify := Some iw_empty;
          FileChangeWaiter._use_inotify := true |} w0
  /\ fst (fst (AdaptivePollWaiter.wait Fake.env (-1)
                 (AdaptivePollWaiter.new 0.05 0.5) w0)) = Ok false.
Proof.
  pose proof (negative_timeout_clamped Fake.env Fake.posix (-1)%float eq_refl)
    as (H1 & _ & _ & H4 & _ & _ & H7).
  split; [reflexivity|]. split; [exact H1|]. split.
  - apply H4.
  - apply H7; [repeat split; reflexivity | reflexivity].
Defined.

(** ** [InotifyWaiter]: refreshing a file watch *)

Lemma dict_unique_entry {K V} (d : list (K * V)) (e e' : K * V) :
  NoDup (map fst d) -> In e d -> In e' d -> fst e = fst e' -> e = e'.
Proof.
  induction d as [|x d IH]; cbn; intros Hnd He He' Hk; [contradiction|].
  inversion Hnd as [|? ? Hx Hnd']; subst.
  destruct He as [->|He], He' as [->|He']; auto.
  - exfalso. apply Hx. rewrite Hk. now apply in_map.
  - exfalso. apply Hx. rewrite <- Hk. now apply in_map.
Qed.

Lemma filter_ext_in_dict {A} (f g : A -> bool) (l : list A) :
  (forall a, In a l -> f a = g a) -> filter f l = filter g l.
Proof.
  induction l as [|a l IH]; cbn; intros H; [reflexivity|].
  rewrite (H a (or_introl eq_refl)), IH; auto.
Qed.

Lemma filter_twice {A} (f g : A -> bool) (l : list A) :
  filter f (filter g l) = filter (fun a => g a && f a) l.
Proof.
  induction l as [|a l IH]; cbn; [reflexivity|].
  destruct (g a); cbn; [destruct (f a)|]; now rewrite IH.
Qed.

Section RefreshFacts.
Context {W : Type} (E : Env W) (P : Pathlib).

(** The loop of [_refresh_file_watch]: what is left of the map, and the
    calls made. *)
Lemma drop_file_watches_spec file_path items self w :
  let res := InotifyWaiter.drop_file_watches E file_path items self w in
  let handles := dict_keys (filter (tagged_file file_path) items) in
  InotifyWaiter._wds (fst res) =
    filter (fun e => negb (existsb (Z.eqb (fst e)) handles)) (InotifyWaiter._wds self)
  /\ InotifyWaiter._tracked_files (fst res) = InotifyWaiter._tracked_files self
  /\ exists rm_calls,
      trace (snd res) = trace w ++ rm_calls /\ Forall2 is_rm_of rm_calls handles.
Proof.
  cbv zeta. revert self w.
  induction items as [|[h [k p]] items IH]; intros self w;
    cbn [InotifyWaiter.drop_file_watches filter].
  - cbn. split; [|split; [reflexivity|]].
    + induction (InotifyWaiter._wds self) as [|e d IHd]; cbn; congruence.
    + exists []. now rewrite app_nil_r.
  - change (InotifyWaiter.is_file k && String.eqb p file_path)
      with (tagged_file file_path (h, (k, p))).
    destruct (tagged_file file_path (h, (k, p))).
    + unfold rm_watch, perform.
      destruct (os_rm_watch E h (os w)) as [r o1].
      destruct (IH (InotifyWaiter.set_wds
                      (dict_pop Z.eqb h (InotifyWaiter._wds self)) self)
                  {| os := o1; trace := trace w ++ [CRmWatch h r] |})
        as (Hw & Ht & rm_calls & Htr & Hrm).
      split; [|split; [exact Ht|]].
      * rewrite Hw. cbn [InotifyWaiter._wds InotifyWaiter.set_wds dict_keys map fst].
        unfold dict_pop. rewrite filter_twice. apply filter_ext_in_dict.
        intros e _. cbn [existsb]. rewrite negb_orb, Z.eqb_sym.
        reflexivity.
      * exists (CRmWatch h r :: rm_calls). split.
        -- rewrite Htr. cbn [trace]. now rewrite <- app_assoc.
        -- constructor; [now exists r | exact Hrm].
    + apply IH.
Qed.

(** With unique keys, dropping by handle is dropping by tag. *)
Lemma dropped_by_tag file_path (d : list (Z * (InotifyWaiter.kind * string))) :
  NoDup (dict_keys d) ->
  filter (fun e => negb (existsb (Z.eqb (fst e))
                           (dict_keys (filter (tagged_file file_path) d)))) d
  = filter (fun e => negb (tagged_file file_path e)) d.
Proof.
  intros Hnd. apply filter_ext_in_dict. intros e He. f_equal.
  destruct (tagged_file file_path e) eqn:Htag.
  - apply existsb_exists. exists (fst e). split; [|apply Z.eqb_refl].
    unfold dict_keys. apply in_map. apply filter_In. now split.
  - destruct (existsb _ _) eqn:Hex; [|reflexivity].
    apply existsb_exists in Hex as (h & Hin & Heq).
    apply Z.eqb_eq in Heq. unfold dict_keys in Hin.
    apply in_map_iff in Hin as (e' & Hfst & Hin').
    apply filter_In in Hin' as [Hin' Htag'].
    assert (e = e') by (apply (dict_unique_entry d); auto; congruence).
    subst e'. congruence.
Qed.

Lemma refresh_spec file_path self w :
  NoDup (dict_keys (InotifyWaiter._wds self)) ->
  let res := InotifyWaiter._refresh_file_watch E file_path self w in
  match fst (os_path_exists E file_path (os w)) with
  | Ok true =>
      exists rm_calls r_add,
        trace (snd res) =
          trace w ++ [CExists file_path (Ok true)] ++ rm_calls
            ++ [CAddWatch file_path InotifyWaiter._FILE_MASK r_add]
        /\ Forall2 is_rm_of rm_calls
             (dict_keys (filter (tagged_file file_path) (InotifyWaiter._wds self)))
        /\ InotifyWaiter._wds (fst res) =
             match r_add with
             | Ok h =>
                 dict_set Z.eqb h (InotifyWaiter.KFile, file_path)
                   (filter (fun e => negb (tagged_file file_path e))
                      (InotifyWaiter._wds self))
             | Raised =>
                 filter (fun e => negb (tagged_file file_path e))
                   (InotifyWaiter._wds self)
             end
        /\ InotifyWaiter._tracked_files (fst res) = InotifyWaiter._tracked_files self
  | r =>
      fst res = self /\ trace (snd res) = trace w ++ [CExists file_path r]
  end.
Proof.
  intros Hnd. cbv zeta. unfold InotifyWaiter._refresh_file_watch, path_exists, perform.
  destruct (os_path_exists E file_path (os w)) as [[[|]|] o1]; cbn [fst snd];
    try (split; reflexivity).
  pose proof (drop_file_watches_spec file_path (InotifyWaiter._wds self) self
                {| os := o1; trace := trace w ++ [CExists file_path (Ok true)] |})
    as H. cbv zeta in H.
  destruct (InotifyWaiter.drop_file_watches E file_path _ self _) as [s2 w2].
  cbn [fst snd trace] in H. destruct H as (Hw & Ht & rm_calls & Htr & Hrm).
  rewrite (dropped_by_tag file_path _ Hnd) in Hw.
  unfold add_watch, perform.
  destruct (os_add_watch E file_path InotifyWaiter._FILE_MASK (os w2)) as [r_add o3].
  exists rm_calls, r_add. split; [|split; [exact Hrm|]].
  - destruct r_add; cbn [snd trace]; rewrite Htr, <- !app_assoc; reflexivity.
  - destruct r_add; cbn [fst InotifyWaiter._wds InotifyWaiter.set_wds
                           InotifyWaiter._tracked_files]; rewrite Hw; auto.
Qed.

Lemma handle_events_skip pre rest self w :
  forallb (fun e => negb (ends_scan e)) pre = true ->
  InotifyWaiter.handle_events E P (pre ++ rest) self w =
  InotifyWaiter.handle_events E P rest self w.
Proof.
  induction pre as [|e pre IH]; cbn [forallb app]; intros H; [reflexivity|].
  apply andb_true_iff in H as [He H]. apply negb_true_iff in He.
  unfold ends_scan in He. apply orb_false_iff in He as [He Hn].
  apply orb_false_iff in He as [Ho Hs].
  rewrite handle_events_cons, Ho, Hs, Hn. now apply IH.
Qed.

Lemma wait_nonempty timeout ms events o1 self w :
  InotifyWaiter.timeout_ms timeout = Ok ms ->
  os_read E ms (os w) = (Ok events, o1) ->
  events <> [] ->
  InotifyWaiter.wait E P timeout self w =
    let res := InotifyWaiter.handle_events E P events self
                 {| os := o1; trace := trace w ++ [CRead ms (Ok events)] |} in
    (Ok (fst (fst res)), snd (fst res), snd res).
Proof.
  intros Hms Hread Hne. rewrite (wait_unfold E P _ _ _ _ Hms), Hread.
  cbn [fst snd]. cbv zeta. destruct events; [congruence | reflexivity].
Qed.
End RefreshFacts.

Lemma unique_keys_NoDup {V} (d : list (Z * V)) :
  unique_keys d = true -> NoDup (dict_keys d).
Proof.
  induction d as [|[k v] d IH]; cbn; intros H; constructor.
  - apply andb_true_iff in H as [H _]. apply negb_true_iff in H.
    intros Hin. rewrite <- not_true_iff_false in H. apply H.
    apply existsb_exists. exists k. split; [exact Hin | apply Z.eqb_refl].
  - apply IH. now apply andb_true_iff in H as [_ H].
Qed.

(** C5, amended.  When the loop of [InotifyWaiter.wait] reaches an event
    that has the moved-self or deleted-self bit and not the overflow bit, and
    whose handle maps to a file entry for [path], [wait] returns [True] and
    asks whether [path] exists.  If it does, every file entry for [path] is
    taken out of the watch map (with an [rm_watch] call for each handle), one
    [add_watch] with the file mask is made for [path], and its handle is
    entered as a file entry when the call succeeds.  If it does not (or the
    check fails), the watcher is left as it was, stale entry included, and no
    watch is added.  (The keys of a watch map are distinct in every watcher
    that the methods produce: [watcher_run_unique] below.) *)
Theorem self_event_refreshes_file_watch {W} (E : Env W) (P : Pathlib)
  (timeout : float) (self : InotifyWaiter.t) (w : World W) (ms : Z)
  (pre : list InotifyEvent) (ev : InotifyEvent) (post : list InotifyEvent)
  (o1 : W) (path : string) :
  InotifyWaiter.timeout_ms timeout = Ok ms ->
  os_read E ms (os w) = (Ok (pre ++ ev :: post), o1) ->
  forallb (fun e => negb (ends_scan e)) pre = true ->
  has_overflow ev = false ->
  has_self_gone ev = true ->
  dict_get Z.eqb (wd ev) (InotifyWaiter._wds self) = Some (InotifyWaiter.KFile, path) ->
  unique_keys (InotifyWaiter._wds self) = true ->
  let res := InotifyWaiter.wait E P timeout self w in
  let self' := snd (fst res) in
  let untagged :=
    filter (fun e => negb (tagged_file path e)) (InotifyWaiter._wds self) in
  fst (fst res) = Ok true
  /\ match fst (os_path_exists E path o1) with
     | Ok true =>
         exists rm_calls r_add,
           calls_between w (snd res) =
             [CRead ms (Ok (pre ++ ev :: post)); CExists path (Ok true)]
               ++ rm_calls ++ [CAddWatch path InotifyWaiter._FILE_MASK r_add]
           /\ Forall2 is_rm_of rm_calls
                (dict_keys (filter (tagged_file path) (InotifyWaiter._wds self)))
           /\ InotifyWaiter._wds self' =
                match r_add with
                | Ok h => dict_set Z.eqb h (InotifyWaiter.KFile, path) untagged
                | Raised => untagged
                end
     | r =>
         self' = self
         /\ calls_between w (snd res) =
              [CRead ms (Ok (pre ++ ev :: post)); CExists path r]
     end.
Proof.
  intros Hms Hread Hpre Hov Hself Hget Huniq. cbv zeta.
  assert (Hne : pre ++ ev :: post <> []) by (destruct pre; discriminate).
  rewrite (wait_nonempty E P _ _ _ _ _ _ Hms Hread Hne). cbv zeta.
  rewrite (handle_events_skip E P pre (ev :: post) _ _ Hpre).
  rewrite handle_events_cons, Hov, Hself, Hget. cbn [fst snd].
  split; [reflexivity|].
  pose proof (refresh_spec E path self
                {| os := o1; trace := trace w ++ [CRead ms (Ok (pre ++ ev :: post))] |}
                (unique_keys_NoDup _ Huniq)) as H.
  cbv zeta in H. cbn [os trace] in H.
  destruct (fst (os_path_exists E path o1)) as [[|]|].
  - destruct H as (rm_calls & r_add & Htr & Hrm & Hw & _).
    exists rm_calls, r_add. split; [|split; [exact Hrm | exact Hw]].
    apply calls_between_app. rewrite Htr, <- !app_assoc. reflexivity.
  - destruct H as [-> Htr]. split; [reflexivity|].
    apply calls_between_app. rewrite Htr, <- !app_assoc. reflexivity.
  - destruct H as [-> Htr]. split; [reflexivity|].
    apply calls_between_app. rewrite Htr, <- !app_assoc. reflexivity.
Qed.

Lemma self_event_refreshes_file_watch_witness :
  let res :=
    InotifyWaiter.wait Fake.env Fake.posix 0.25 iw_one_file
      (world_with_batch ["/tmp/a.log"%string] ["/tmp"%string]
         [ev_modify; ev_deleted_self]) in
  fst (fst res) = Ok true
  /\ exists rm_calls r_add,
      calls_between
        (world_with_batch ["/tmp/a.log"%string] ["/tmp"%string]
           [ev_modify; ev_deleted_self]) (snd res) =
        [CRead 250 (Ok [ev_modify; ev_deleted_self]);
         CExists "/tmp/a.log" (Ok true)]
          ++ rm_calls ++ [CAddWatch "/tmp/a.log" InotifyWaiter._FILE_MASK r_add]
      /\ Forall2 is_rm_of rm_calls [7]
      /\ InotifyWaiter._wds (snd (fst res)) =
           match r_add with
           | Ok h =>
               dict_set Z.eqb h (InotifyWaiter.KFile, "/tmp/a.log"%string)
                 [(3, (InotifyWaiter.KDir, "/tmp"%string))]
           | Raised => [(3, (InotifyWaiter.KDir, "/tmp"%string))]
           end.
Proof.
  exact (self_event_refreshes_file_watch Fake.env Fake.posix 0.25 iw_one_file
           (world_with_batch ["/tmp/a.log"%string] ["/tmp"%string]
              [ev_modify; ev_deleted_self])
           250 [ev_modify] ev_deleted_self [] _ "/tmp/a.log"
           eq_refl eq_refl eq_refl eq_refl eq_refl eq_refl eq_refl).
Defined.

(** C5 as stated fails: when the file is gone at that instant, the loop
    returns before the removal, and the file entry of the deleted file stays
    in the watch map. *)
Lemma stale_file_watch_kept_when_file_gone :
  let res :=
    InotifyWaiter.wait Fake.env Fake.posix 0.25 iw_one_file
      (world_with_batch [] ["/tmp"%string] [ev_deleted_self]) in
  has_self_gone ev_deleted_self = true
  /\ dict_get Z.eqb (wd ev_deleted_self) (InotifyWaiter._wds iw_one_file)
     = Some (InotifyWaiter.KFile, "/tmp/a.log"%string)
  /\ fst (os_path_exists Fake.env "/tmp/a.log"
            {| Fake.files := []; Fake.dirs := ["/tmp"%string]; Fake.next_wd := 10;
               Fake.script := [] |}) = Ok false
  /\ fst (fst res) = Ok true
  /\ In (7, (InotifyWaiter.KFile, "/tmp/a.log"%string))
       (InotifyWaiter._wds (snd (fst res)))
  /\ filter (tagged_file "/tmp/a.log") (InotifyWaiter._wds (snd (fst res))) <> [].
Proof.
  cbv zeta. repeat split; try (vm_compute; reflexivity).
  - vm_compute. right. left. reflexivity.
  - vm_compute. discriminate.
Qed.

(** ** [InotifyWaiter.watch_paths] *)

Lemma dict_get_set_same {V} (h : Z) (v : V) (d : list (Z * V)) :
  dict_get Z.eqb h (dict_set Z.eqb h v d) = Some v.
Proof.
  induction d as [|[k v'] d IH]; cbn.
  - now rewrite Z.eqb_refl.
  - destruct (h =? k) eqn:Hk; cbn; [now rewrite Z.eqb_refl | now rewrite Hk].
Qed.

Lemma dict_get_set_other {V} (h k : Z) (v : V) (d : list (Z * V)) :
  h <> k -> dict_get Z.eqb h (dict_set Z.eqb k v d) = dict_get Z.eqb h d.
Proof.
  intros Hne. induction d as [|[k' v'] d IH]; cbn.
  - apply Z.eqb_neq in Hne. now rewrite Hne.
  - destruct (k =? k') eqn:Hk; cbn.
    + apply Z.eqb_eq in Hk. subst k'. apply Z.eqb_neq in Hne. now rewrite Hne.
    + destruct (h =? k'); [reflexivity | exact IH].
Qed.

Lemma recorded_app calls1 calls2 d :
  recorded (calls1 ++ calls2) d = recorded calls2 (recorded calls1 d).
Proof.
  revert d. induction calls1 as [|c calls1 IH]; intros d; cbn; [reflexivity|].
  destruct c as [| | |p m [h|]| | | |]; apply IH.
Qed.

(** The entry of a handle is the one of the last successful [add_watch] that
    returned it. *)
Lemma recorded_get calls : forall d p m h,
  handles_distinct calls ->
  In (CAddWatch p m (Ok h)) calls ->
  dict_get Z.eqb h (recorded calls d) = Some (kind_of_mask m, p).
Proof.
  induction calls as [|c calls IH] using rev_ind; intros d p m h Hd Hin.
  - contradiction.
  - rewrite recorded_app.
    assert (Hd' : handles_distinct calls).
    { intros p1 m1 p2 m2 h0 H1 H2.
      apply (Hd p1 m1 p2 m2 h0); apply in_or_app; now left. }
    destruct c as [| | |p' m' [h'|]| | | |]; cbn [recorded];
      try (apply in_app_or in Hin as [Hin|[Hin|[]]]; [now apply IH | discriminate]).
    destruct (Z.eq_dec h h') as [->|Hne].
    + rewrite dict_get_set_same.
      destruct (Hd p m p' m' h') as [-> ->];
        [exact Hin | apply in_or_app; right; now left | reflexivity].
    + rewrite dict_get_set_other by exact Hne.
      apply in_app_or in Hin as [Hin|[Hin|[]]]; [now apply IH | congruence].
Qed.

Section WatchPathsFacts.
Context {W : Type} (E : Env W) (P : Pathlib).

Lemma rm_watches_trace handles w :
  exists rm_calls,
    trace (InotifyWaiter.rm_watches E handles w) = trace w ++ rm_calls
    /\ Forall2 is_rm_of rm_calls handles
    /\ forallb add_ok rm_calls = true.
Proof.
  revert w.
  induction handles as [|h handles IH]; intros w; cbn [InotifyWaiter.rm_watches].
  - exists []. rewrite app_nil_r. repeat split. constructor.
  - unfold rm_watch, perform. destruct (os_rm_watch E h (os w)) as [r o1].
    destruct (IH {| os := o1; trace := trace w ++ [CRmWatch h r] |})
      as (rm_calls & Htr & Hrm & Hok).
    exists (CRmWatch h r :: rm_calls). split; [|split].
    + rewrite Htr. cbn [trace]. now rewrite <- app_assoc.
    + constructor; [now exists r | exact Hrm].
    + exact Hok.
Qed.

(** One path: the calls made, the map left, and the shape of the calls when
    no [add_watch] raised. *)
Lemma watch_one_spec path self w :
  let res := InotifyWaiter._watch_one E P path self w in
  exists chunk,
    trace (snd res) = trace w ++ chunk
    /\ InotifyWaiter._wds (fst res) = recorded chunk (InotifyWaiter._wds self)
    /\ (forallb add_ok chunk = true -> watch_chunk P path chunk).
Proof.
  cbv zeta. unfold InotifyWaiter._watch_one, path_exists, path_is_dir, add_watch, perform.
  destruct (os_path_exists E path (os w)) as [[[|]|] o1]; cbn [os trace].
  - destruct (os_path_is_dir E path o1) as [[[|]|] o2]; cbn [os trace].
    + destruct (os_add_watch E path InotifyWaiter._DIR_MASK o2) as [[h|] o3];
        cbn [os trace].
      * eexists. split; [|split].
        -- cbn [snd trace]. rewrite <- !app_assoc. reflexivity.
        -- reflexivity.
        -- intros _. constructor.
      * destruct (os_add_watch E (path_parent P path) InotifyWaiter._DIR_MASK o3)
          as [[h1|] o4]; cbn [os trace];
          destruct (os_add_watch E path InotifyWaiter._FILE_MASK o4) as [[h2|] o5];
          (eexists; split; [|split];
           [cbn [snd trace]; rewrite <- !app_assoc; reflexivity
           | reflexivity
           | cbn; discriminate]).
    + destruct (os_add_watch E (path_parent P path) InotifyWaiter._DIR_MASK o2)
        as [[h1|] o4]; cbn [os trace];
        destruct (os_add_watch E path InotifyWaiter._FILE_MASK o4) as [[h2|] o5];
        (eexists; split; [|split];
         [cbn [snd trace]; rewrite <- !app_assoc; reflexivity
         | reflexivity
         | cbn; try discriminate; intros _; constructor; discriminate]).
    + destruct (os_add_watch E (path_parent P path) InotifyWaiter._DIR_MASK o2)
        as [[h1|] o4]; cbn [os trace];
        destruct (os_add_watch E path InotifyWaiter._FILE_MASK o4) as [[h2|] o5];
        (eexists; split; [|split];
         [cbn [snd trace]; rewrite <- !app_assoc; reflexivity
         | reflexivity
         | cbn; try discriminate; intros _; constructor; discriminate]).
  - destruct (os_add_watch E (path_parent P path) InotifyWaiter._DIR_MASK o1)
      as [[h1|] o4];
      (eexists; split; [|split];
       [cbn [snd trace]; rewrite <- !app_assoc; reflexivity
       | reflexivity
       | cbn; try discriminate; intros _; constructor; discriminate]).
  - destruct (os_add_watch E (path_parent P path) InotifyWaiter._DIR_MASK o1)
      as [[h1|] o4];
      (eexists; split; [|split];
       [cbn [snd trace]; rewrite <- !app_assoc; reflexivity
       | reflexivity
       | cbn; try discriminate; intros _; constructor; discriminate]).
Qed.

Lemma watch_each_spec paths : forall self w,
  let res := InotifyWaiter.watch_each E P paths self w in
  exists chunks,
    trace (snd res) = trace w ++ List.concat chunks
    /\ InotifyWaiter._wds (fst res) = recorded (List.concat chunks) (InotifyWaiter._wds self)
    /\ (forallb add_ok (List.concat chunks) = true -> Forall2 (watch_chunk P) paths chunks).
Proof.
  induction paths as [|p paths IH]; intros self w; cbv zeta;
    cbn [InotifyWaiter.watch_each].
  - exists []. cbn. rewrite app_nil_r. repeat split. constructor.
  - pose proof (watch_one_spec p self w) as H1. cbv zeta in H1.
    destruct (InotifyWaiter._watch_one E P p self w) as [s1 w1].
    cbn [fst snd] in H1. destruct H1 as (chunk & Htr1 & Hw1 & Hc1).
    specialize (IH s1 w1). cbv zeta in IH.
    destruct IH as (chunks & Htr & Hw & Hc).
    exists (chunk :: chunks). cbn [List.concat]. split; [|split].
    + rewrite Htr, Htr1, <- app_assoc. reflexivity.
    + rewrite Hw, Hw1, recorded_app. reflexivity.
    + intros Hok. rewrite forallb_app in Hok.
      apply andb_true_iff in Hok as [Hok1 Hok2].
      constructor; auto.
Qed.
End WatchPathsFacts.

Lemma watch_chunk_covers P path chunk :
  watch_chunk P path chunk ->
  exists h,
    In (CAddWatch path InotifyWaiter._DIR_MASK (Ok h)) chunk
    \/ In (CAddWatch (path_parent P path) InotifyWaiter._DIR_MASK (Ok h)) chunk.
Proof.
  intros [h|r h1 h2 Hr|r h1 Hr].
  - exists h. left. cbn. auto.
  - exists h1. right. cbn. auto.
  - exists h1. right. cbn. auto.
Qed.

Lemma chunks_cover P paths chunks :
  Forall2 (watch_chunk P) paths chunks ->
  forall p, In p paths ->
    exists h,
      In (CAddWatch p InotifyWaiter._DIR_MASK (Ok h)) (List.concat chunks)
      \/ In (CAddWatch (path_parent P p) InotifyWaiter._DIR_MASK (Ok h)) (List.concat chunks).
Proof.
  induction 1 as [|path chunk paths chunks Hc Hrest IH]; intros p Hin.
  - contradiction.
  - cbn [List.concat]. destruct Hin as [->|Hin].
    + destruct (watch_chunk_covers P p chunk Hc) as (h & [H|H]);
        exists h; [left|right]; apply in_or_app; now left.
    + destruct (IH p Hin) as (h & [H|H]);
        exists h; [left|right]; apply in_or_app; now right.
Qed.

Lemma handles_distinctb_spec calls :
  handles_distinctb calls = true -> handles_distinct calls.
Proof.
  unfold handles_distinctb. intros H p1 m1 p2 m2 h H1 H2.
  rewrite forallb_forall in H. specialize (H _ H1).
  rewrite forallb_forall in H. specialize (H _ H2). cbn in H.
  rewrite Z.eqb_refl in H. cbn in H.
  apply andb_true_iff in H as [Hp Hm].
  apply String.eqb_eq in Hp. apply Z.eqb_eq in Hm. now split.
Qed.

Lemma recorded_rm_calls rm_calls handles d :
  Forall2 is_rm_of rm_calls handles -> recorded rm_calls d = d.
Proof.
  induction 1 as [|c h rm_calls handles [r ->] _ IH]; cbn; [reflexivity | exact IH].
Qed.

(** C4.  After [InotifyWaiter.watch_paths(paths)] in which no [add_watch]
    raised, the calls made are an [rm_watch] for each old handle and then,
    path by path and in order, the calls of [watch_chunk]: a path that exists
    and is a directory is watched itself with the directory mask; any other
    path has its parent watched with the directory mask and, if it exists,
    is watched itself with the file mask.  So every path is covered by a
    directory watch on itself or on its parent; nothing is removed after the
    reset, so these watches are live.  The watch map is what these calls
    record (directory-mask watches as ["dir"], file-mask watches as
    ["file"]): when no handle was returned for two different watches, each
    handle maps to the kind and path of its watch. *)
Theorem watch_paths_covers {W} (E : Env W) (P : Pathlib) (paths : list string)
  (self : InotifyWaiter.t) (w : World W) :
  let res := InotifyWaiter.watch_paths E P paths self w in
  let calls := calls_between w (snd res) in
  forallb add_ok calls = true ->
  (exists rm_calls chunks,
      calls = rm_calls ++ List.concat chunks
      /\ Forall2 is_rm_of rm_calls (dict_keys (InotifyWaiter._wds self))
      /\ Forall2 (watch_chunk P) paths chunks)
  /\ (forall p, In p paths ->
        exists h,
          In (CAddWatch p InotifyWaiter._DIR_MASK (Ok h)) calls
          \/ In (CAddWatch (path_parent P p) InotifyWaiter._DIR_MASK (Ok h)) calls)
  /\ InotifyWaiter._wds (fst res) = recorded calls []
  /\ (handles_distinctb calls = true ->
      forall p m h,
        In (CAddWatch p m (Ok h)) calls ->
        dict_get Z.eqb h (InotifyWaiter._wds (fst res)) = Some (kind_of_mask m, p)).
Proof.
  cbv zeta. unfold InotifyWaiter.watch_paths, InotifyWaiter._reset_watches.
  destruct (rm_watches_trace E (dict_keys (InotifyWaiter._wds self)) w)
    as (rm_calls & Htr0 & Hrm & _).
  pose proof (watch_each_spec E P paths
                (InotifyWaiter.set_tracked_files [] (InotifyWaiter.set_wds [] self))
                (InotifyWaiter.rm_watches E (dict_keys (InotifyWaiter._wds self)) w))
    as H. cbv zeta in H.
  destruct (InotifyWaiter.watch_each E P paths _ _) as [s1 w1].
  cbn [fst snd] in *. destruct H as (chunks & Htr & Hw & Hc).
  cbn [InotifyWaiter._wds InotifyWaiter.set_tracked_files InotifyWaiter.set_wds] in Hw.
  rewrite Htr0, <- app_assoc in Htr.
  rewrite (calls_between_app w w1 _ Htr).
  intros Hok. rewrite forallb_app in Hok. apply andb_true_iff in Hok as [_ Hok].
  specialize (Hc Hok).
  assert (Hrec : InotifyWaiter._wds s1 = recorded (rm_calls ++ List.concat chunks) []).
  { now rewrite recorded_app, (recorded_rm_calls _ _ _ Hrm). }
  split; [|split; [|split]].
  - exists rm_calls, chunks. auto.
  - intros p Hin. destruct (chunks_cover P paths chunks Hc p Hin) as (h & [Hh|Hh]);
      exists h; [left|right]; apply in_or_app; now right.
  - exact Hrec.
  - intros Hd p m h Hin. rewrite Hrec.
    apply recorded_get; [now apply handles_distinctb_spec | exact Hin].
Qed.

Lemma watch_paths_covers_witness :
  let res :=
    InotifyWaiter.watch_paths Fake.env Fake.posix
      ["/e"%string; "/d/f"%string; "/d/g"%string] iw_one_file w_tree in
  calls_between w_tree (snd res) =
    [CRmWatch 3 (Ok tt); CRmWatch 7 (Ok tt);
     CExists "/e" (Ok true); CIsDir "/e" (Ok true);
     CAddWatch "/e" InotifyWaiter._DIR_MASK (Ok 1);
     CExists "/d/f" (Ok true); CIsDir "/d/f" (Ok false);
     CAddWatch "/d" InotifyWaiter._DIR_MASK (Ok 2);
     CAddWatch "/d/f" InotifyWaiter._FILE_MASK (Ok 3);
     CExists "/d/g" (Ok false);
     CAddWatch "/d" InotifyWaiter._DIR_MASK (Ok 4)]
  /\ dict_get Z.eqb 1 (InotifyWaiter._wds (fst res))
     = Some (InotifyWaiter.KDir, "/e"%string)
  /\ dict_get Z.eqb 2 (InotifyWaiter._wds (fst res))
     = Some (InotifyWaiter.KDir, "/d"%string)
  /\ dict_get Z.eqb 3 (InotifyWaiter._wds (fst res))
     = Some (InotifyWaiter.KFile, "/d/f"%string)
  /\ dict_get Z.eqb 4 (InotifyWaiter._wds (fst res))
     = Some (InotifyWaiter.KDir, "/d"%string).
Proof.
  cbv zeta.
  pose proof (watch_paths_covers Fake.env Fake.posix
                ["/e"%string; "/d/f"%string; "/d/g"%string] iw_one_file w_tree
                eq_refl) as (_ & _ & _ & H).
  specialize (H eq_refl).
  split; [reflexivity|]. split; [|split; [|split]].
  - apply (H "/e"%string InotifyWaiter._DIR_MASK 1). vm_compute. tauto.
  - apply (H "/d"%string InotifyWaiter._DIR_MASK 2). vm_compute. tauto.
  - apply (H "/d/f"%string InotifyWaiter._FILE_MASK 3). vm_compute. tauto.
  - apply (H "/d"%string InotifyWaiter._DIR_MASK 4). vm_compute. tauto.
Defined.

(** ** The keys of [_wds] stay distinct *)

Lemma NoDup_unique_keys {V} (d : list (Z * V)) :
  NoDup (dict_keys d) -> unique_keys d = true.
Proof.
  induction d as [|[k v] d IH]; cbn; intros H; [reflexivity|].
  inversion H as [|? ? Hk Hd]; subst. rewrite (IH Hd), andb_true_r.
  apply negb_true_iff. destruct (existsb (Z.eqb k) (dict_keys d)) eqn:Hex;
    [|reflexivity].
  apply existsb_exists in Hex as (k' & Hin & Heq).
  apply Z.eqb_eq in Heq. subst k'. contradiction.
Qed.

Lemma dict_set_keys {V} (k : Z) (v : V) (d : list (Z * V)) (x : Z) :
  In x (dict_keys (dict_set Z.eqb k v d)) -> x = k \/ In x (dict_keys d).
Proof.
  induction d as [|[k' v'] d IH]; cbn.
  - intros [<-|[]]. now left.
  - destruct (k =? k') eqn:Hk; cbn.
    + apply Z.eqb_eq in Hk. subst k'. tauto.
    + intros [<-|H]; [tauto|]. destruct (IH H); tauto.
Qed.

Lemma dict_set_NoDup {V} (k : Z) (v : V) (d : list (Z * V)) :
  NoDup (dict_keys d) -> NoDup (dict_keys (dict_set Z.eqb k v d)).
Proof.
  induction d as [|[k' v'] d IH]; cbn; intros H.
  - constructor; [intros [] | constructor].
  - inversion H as [|? ? Hk Hd]; subst.
    destruct (k =? k') eqn:Heq; cbn.
    + apply Z.eqb_eq in Heq. subst k'. now constructor.
    + constructor; [|now apply IH].
      intros Hin. apply dict_set_keys in Hin as [->|Hin]; [|contradiction].
      now rewrite Z.eqb_refl in Heq.
Qed.

Lemma filter_keys_NoDup {V} (f : Z * V -> bool) (d : list (Z * V)) :
  NoDup (dict_keys d) -> NoDup (dict_keys (filter f d)).
Proof.
  induction d as [|e d IH]; cbn; intros H; [constructor|].
  inversion H as [|? ? Hk Hd]; subst.
  destruct (f e); cbn; [|now apply IH].
  constructor; [|now apply IH].
  intros Hin. apply Hk. unfold dict_keys in *.
  apply in_map_iff in Hin as (e' & Hfst & Hin).
  apply filter_In in Hin as [Hin _]. rewrite <- Hfst. now apply in_map.
Qed.

Lemma recorded_NoDup calls : forall d,
  NoDup (dict_keys d) -> NoDup (dict_keys (recorded calls d)).
Proof.
  induction calls as [|c calls IH]; intros d Hd; cbn; [exact Hd|].
  destruct c as [| | |p m [h|]| | | |]; apply IH; auto using dict_set_NoDup.
Qed.

Section UniqueHandles.
Context {W : Type} (E : Env W) (P : Pathlib).

Lemma watch_paths_unique paths self w :
  wds_unique (fst (InotifyWaiter.watch_paths E P paths self w)).
Proof.
  unfold wds_unique, InotifyWaiter.watch_paths, InotifyWaiter._reset_watches.
  destruct (watch_each_spec E P paths
              (InotifyWaiter.set_tracked_files [] (InotifyWaiter.set_wds [] self))
              (InotifyWaiter.rm_watches E (dict_keys (InotifyWaiter._wds self)) w))
    as (chunks & _ & -> & _).
  apply recorded_NoDup. constructor.
Qed.

Lemma refresh_unique file_path self w :
  wds_unique self ->
  wds_unique (fst (InotifyWaiter._refresh_file_watch E file_path self w)).
Proof.
  unfold wds_unique. intros H.
  pose proof (refresh_spec E file_path self w H) as Hs. cbv zeta in Hs.
  destruct (fst (os_path_exists E file_path (os w))) as [[|]|].
  - destruct Hs as (rm_calls & r_add & _ & _ & -> & _).
    destruct r_add; auto using dict_set_NoDup, filter_keys_NoDup.
  - destruct Hs as [-> _]. exact H.
  - destruct Hs as [-> _]. exact H.
Qed.

Lemma scan_tracked_unique ev_name watched_path items self w :
  wds_unique self ->
  wds_unique (fst (InotifyWaiter.scan_tracked E P ev_name watched_path items self w)).
Proof.
  intros H. induction items as [|[f p] items IH]; cbn; [exact H|].
  destruct (negb (str_truthy p)); [exact IH|].
  destruct (str_truthy watched_path && negb (String.eqb watched_path p));
    [exact IH|].
  destruct (String.eqb (path_name P f) ev_name); [|exact IH].
  now apply refresh_unique.
Qed.

Lemma handle_events_unique events self w :
  wds_unique self ->
  wds_unique (snd (fst (InotifyWaiter.handle_events E P events self w))).
Proof.
  intros H. induction events as [|ev events IH]; [exact H|].
  rewrite handle_events_cons.
  destruct (has_overflow ev); [exact H|].
  destruct (has_self_gone ev).
  - destruct (dict_get Z.eqb (wd ev) (InotifyWaiter._wds self)) as [[[|] path]|];
      try exact H.
    now apply refresh_unique.
  - destruct (str_truthy (name ev)); [|exact IH].
    cbv zeta. now apply scan_tracked_unique.
Qed.

Lemma wait_unique timeout self w :
  wds_unique self ->
  wds_unique (snd (fst (InotifyWaiter.wait E P timeout self w))).
Proof.
  intros H. destruct (InotifyWaiter.timeout_ms timeout) as [ms|] eqn:Hms.
  - rewrite (wait_unfold E P _ _ _ _ Hms). cbv zeta.
    destruct (fst (os_read E ms (os w))) as [[|ev rest]|]; cbn [fst snd]; auto.
    now apply handle_events_unique.
  - unfold InotifyWaiter.wait. rewrite Hms. exact H.
Qed.

Lemma close_unique self w :
  wds_unique (fst (InotifyWaiter.close E self w)).
Proof.
  unfold wds_unique, InotifyWaiter.close.
  destruct (backend_close E _) as [r w1]. constructor.
Qed.

(** Every watcher that the methods can produce has distinct keys in [_wds]. *)
Lemma watcher_run_unique ops : forall self w,
  wds_unique self -> wds_unique (fst (watcher_run E P ops self w)).
Proof.
  induction ops as [|op ops IH]; intros self w H; cbn [watcher_run]; [exact H|].
  assert (H1 : wds_unique (fst (watcher_step E P op self w))).
  { destruct op as [timeout|paths|]; cbn [watcher_step].
    - pose proof (wait_unique timeout self w H) as Hw.
      now destruct (InotifyWaiter.wait E P timeout self w) as [[r s1] w1].
    - apply watch_paths_unique.
    - apply close_unique. }
  destruct (watcher_step E P op self w) as [s1 w1]. now apply IH.
Qed.

Lemma new_unique w self w1 :
  InotifyWaiter.new E w = (Ok self, w1) -> wds_unique self.
Proof.
  unfold InotifyWaiter.new. destruct (make_backend E w) as [[u|] w2];
    intros H; inversion H. constructor.
Qed.
End UniqueHandles.

(** ** The decode loop of [_CtypesInotifyBackend.read] *)

Import CtypesInotifyBackend.

Lemma byte_val_range b : 0 <= byte_val b < 256.
Proof.
  unfold byte_val. pose proof (Byte.to_N_bounded b). lia.
Qed.

Lemma byte_val_of z : byte_val (byte_of z) = z mod 256.
Proof.
  unfold byte_val, byte_of.
  pose proof (Z.mod_pos_bound z 256 ltac:(lia)) as Hr.
  destruct (Byte.of_N (Z.to_N (z mod 256))) as [b|] eqn:Hb.
  - apply Byte.to_of_N in Hb. rewrite Hb. lia.
  - apply Byte.of_N_None_iff in Hb. lia.
Qed.

Lemma uint_le_bytes n : forall z, uint_le (bytes_le n z) = z mod 256 ^ Z.of_nat n.
Proof.
  induction n as [|n IH]; intros z.
  - cbn. now rewrite Z.mod_1_r.
  - cbn [bytes_le uint_le]. rewrite byte_val_of, IH.
    rewrite Nat2Z.inj_succ, Z.pow_succ_r by lia.
    rewrite (Z.rem_mul_r z 256 (256 ^ Z.of_nat n)) by lia. reflexivity.
Qed.

Lemma bytes_le_length n : forall z, List.length (bytes_le n z) = n.
Proof. induction n as [|n IH]; intros z; cbn; [reflexivity | now rewrite IH]. Qed.

Lemma field_length bo z : List.length (field bo z) = 4%nat.
Proof.
  destruct bo; cbn [field]; rewrite ?length_rev; apply bytes_le_length.
Qed.

Lemma unpack_I_field bo z : unpack_I bo (field bo z) = z mod 2 ^ 32.
Proof.
  destruct bo; cbn [unpack_I field]; rewrite ?rev_involutive;
    apply (uint_le_bytes 4).
Qed.

Lemma unpack_i_field bo z :
  - 2 ^ 31 <= z < 2 ^ 31 -> unpack_i bo (field bo z) = z.
Proof.
  intros Hz. unfold unpack_i. rewrite unpack_I_field.
  destruct (Z.ltb_spec (z mod 2 ^ 32) (2 ^ 31)) as [H|H].
  - destruct (Z.neg_nonneg_cases z) as [Hn|Hp].
    + rewrite <- (Z.mod_add z 1 (2 ^ 32)) in H by lia.
      rewrite Z.mod_small in H; lia.
    + apply Z.mod_small. lia.
  - destruct (Z.neg_nonneg_cases z) as [Hn|Hp].
    + rewrite <- (Z.mod_add z 1 (2 ^ 32)) by lia.
      rewrite Z.mod_small; lia.
    + rewrite Z.mod_small in H; lia.
Qed.

Lemma slice_at (pre x post : list byte) (lo hi : nat) :
  lo = List.length pre -> hi = (lo + List.length x)%nat ->
  slice (pre ++ x ++ post) lo hi = x.
Proof.
  intros -> ->. unfold slice.
  rewrite skipn_app, skipn_all, Nat.sub_diag. cbn [skipn app].
  replace (List.length pre + List.length x - List.length pre)%nat
    with (List.length x) by lia.
  rewrite firstn_app, firstn_all, Nat.sub_diag. cbn. apply app_nil_r.
Qed.

Lemma unpack_header bo pre r rest :
  well_formed r ->
  unpack_from_iIII bo (pre ++ record_bytes bo r ++ rest) (List.length pre) =
    (ie_wd r, ie_mask r, ie_cookie r, Z.of_nat (List.length (ie_name r))).
Proof.
  intros (Hwd & Hmask & Hcookie & Hlen).
  unfold unpack_from_iIII, record_bytes.
  set (a := field bo (ie_wd r)). set (b := field bo (ie_mask r)).
  set (c := field bo (ie_cookie r)).
  set (d := field bo (Z.of_nat (List.length (ie_name r)))).
  assert (La : List.length a = 4%nat) by apply field_length.
  assert (Lb : List.length b = 4%nat) by apply field_length.
  assert (Lc : List.length c = 4%nat) by apply field_length.
  assert (Ld : List.length d = 4%nat) by apply field_length.
  f_equal; [f_equal; [f_equal|]|].
  - replace (pre ++ (a ++ b ++ c ++ d ++ ie_name r) ++ rest)
      with (pre ++ a ++ (b ++ c ++ d ++ ie_name r ++ rest))
      by (now rewrite <- !app_assoc).
    rewrite slice_at by lia. now apply unpack_i_field.
  - replace (pre ++ (a ++ b ++ c ++ d ++ ie_name r) ++ rest)
      with ((pre ++ a) ++ b ++ (c ++ d ++ ie_name r ++ rest))
      by (now rewrite <- !app_assoc).
    rewrite slice_at by (rewrite ?length_app; lia).
    unfold b. rewrite unpack_I_field. apply Z.mod_small. lia.
  - replace (pre ++ (a ++ b ++ c ++ d ++ ie_name r) ++ rest)
      with ((pre ++ a ++ b) ++ c ++ (d ++ ie_name r ++ rest))
      by (now rewrite <- !app_assoc).
    rewrite slice_at by (rewrite ?length_app; lia).
    unfold c. rewrite unpack_I_field. apply Z.mod_small. lia.
  - replace (pre ++ (a ++ b ++ c ++ d ++ ie_name r) ++ rest)
      with ((pre ++ a ++ b ++ c) ++ d ++ (ie_name r ++ rest))
      by (now rewrite <- !app_assoc).
    rewrite slice_at by (rewrite ?length_app; lia).
    unfold d. rewrite unpack_I_field. apply Z.mod_small. lia.
Qed.

Lemma record_bytes_length bo r :
  List.length (record_bytes bo r) = (header_size + List.length (ie_name r))%nat.
Proof.
  unfold record_bytes, header_size. rewrite !length_app, !field_length. lia.
Qed.

Lemma name_slice bo pre r rest :
  slice (pre ++ record_bytes bo r ++ rest) (List.length pre + header_size)
    (List.length pre + header_size + List.length (ie_name r)) = ie_name r.
Proof.
  unfold record_bytes.
  replace (pre ++ (field bo (ie_wd r) ++ field bo (ie_mask r) ++ field bo (ie_cookie r)
                     ++ field bo (Z.of_nat (List.length (ie_name r))) ++ ie_name r) ++ rest)
    with ((pre ++ field bo (ie_wd r) ++ field bo (ie_mask r) ++ field bo (ie_cookie r)
                ++ field bo (Z.of_nat (List.length (ie_name r)))) ++ ie_name r ++ rest)
    by (now rewrite <- !app_assoc).
  apply slice_at; [|reflexivity].
  rewrite !length_app, !field_length. unfold header_size. lia.
Qed.

Section DecodeFacts.
Variable utf8_decode_ignore : list byte -> string.
Variable bo : byteorder.

Lemma decode_loop_records recs : forall pre events fuel,
  Forall well_formed recs ->
  (List.length recs <= fuel)%nat ->
  decode_loop utf8_decode_ignore bo fuel
    (pre ++ List.concat (map (record_bytes bo) recs)) (List.length pre) events
  = Some (events ++ map (event_of utf8_decode_ignore) recs).
Proof.
  induction recs as [|r recs IH]; intros pre events fuel Hwf Hfuel.
  - cbn [map List.concat]. rewrite !app_nil_r.
    destruct fuel; cbn [decode_loop];
      (destruct (Nat.leb_spec (List.length pre + header_size) (List.length pre));
       [unfold header_size in *; lia | reflexivity]).
  - inversion Hwf as [|? ? Hr Hrest]; subst.
    destruct fuel as [|fuel]; [cbn in Hfuel; lia|].
    cbn [map List.concat decode_loop].
    destruct (Nat.leb_spec (List.length pre + header_size)
                (List.length (pre ++ record_bytes bo r
                                ++ List.concat (map (record_bytes bo) recs))))
      as [_|Hlt];
      [|rewrite !length_app, record_bytes_length in Hlt; lia].
    rewrite (unpack_header bo pre r _ Hr).
    assert (Hnext : (List.length pre + header_size + List.length (ie_name r))%nat
                    = List.length (pre ++ record_bytes bo r)).
    { rewrite length_app, record_bytes_length. lia. }
    specialize (IH (pre ++ record_bytes bo r)).
    rewrite <- app_assoc in IH.
    unfold int_truthy. destruct (ie_name r) as [|b name] eqn:Hname.
    + cbn [List.length Z.of_nat Z.eqb negb].
      cbn [List.length] in Hnext. rewrite Nat.add_0_r in Hnext. rewrite Hnext.
      rewrite IH by (auto; cbn in Hfuel; lia).
      rewrite <- app_assoc. cbn [app]. unfold event_of at 2. now rewrite Hname.
    + replace (Z.of_nat (List.length (b :: name)) =? 0) with false
        by (symmetry; apply Z.eqb_neq; cbn [List.length]; lia).
      cbn [negb]. rewrite Nat2Z.id. rewrite <- Hname in Hnext |- *.
      rewrite name_slice, Hnext.
      rewrite IH by (auto; cbn in Hfuel; lia).
      rewrite <- app_assoc. cbn [app]. unfold event_of at 2. now rewrite Hname.
Qed.

Lemma records_length_le recs :
  (List.length recs <= List.length (List.concat (map (record_bytes bo) recs)))%nat.
Proof.
  induction recs as [|r recs IH]; cbn [map List.concat List.length]; [lia|].
  rewrite length_app, record_bytes_length. unfold header_size. lia.
Qed.
End DecodeFacts.

Lemma decode_loop_total (utf8_decode_ignore : list byte -> string)
  (bo : byteorder) (data : list byte) : forall fuel offset events,
  (List.length data - offset <= fuel)%nat ->
  exists out, decode_loop utf8_decode_ignore bo fuel data offset events = Some out.
Proof.
  induction fuel as [|fuel IH]; intros offset events Hfuel; cbn [decode_loop];
    destruct (Nat.leb_spec (offset + header_size) (List.length data)) as [Hle|Hgt];
    try (eexists; reflexivity); unfold header_size in *; [lia|].
  destruct (unpack_from_iIII bo data offset) as [[[h m] c] name_len].
  destruct (int_truthy name_len); apply IH; lia.
Qed.

(** [decode] returns on every buffer. *)
Lemma decode_total (utf8_decode_ignore : list byte -> string)
  (bo : byteorder) (data : list byte) :
  exists out, decode utf8_decode_ignore bo data = Some out.
Proof. apply decode_loop_total. lia. Qed.

(** C8.  On a buffer that is the concatenation of well-formed inotify
    records (the four 32-bit header fields in native byte order, then as many
    name bytes as the length field says), the decode loop of
    [_CtypesInotifyBackend.read] produces exactly one [InotifyEvent] per
    record, in the order of the records, with the header fields of the
    record and with the name bytes up to the first NUL, decoded, as its name
    (the empty string for a record without name bytes). *)
Theorem decode_well_formed_records (utf8_decode_ignore : list byte -> string)
  (bo : byteorder) (recs : list inotify_event) :
  Forall well_formed recs ->
  decode utf8_decode_ignore bo (List.concat (map (record_bytes bo) recs))
  = Some (map (event_of utf8_decode_ignore) recs).
Proof.
  intros Hwf. unfold decode.
  apply (decode_loop_records utf8_decode_ignore bo recs [] []); [exact Hwf|].
  apply records_length_le.
Qed.

Lemma decode_well_formed_records_witness :
  decode string_of_list_byte little
    (List.concat (map (record_bytes little) [rec_created; rec_overflow]))
  = Some [{| wd := 1; mask := 256; cookie := 0; name := "a.log" |};
          {| wd := -1; mask := 16384; cookie := 0; name := EmptyString |}].
Proof.
  refine (decode_well_formed_records string_of_list_byte little
            [rec_created; rec_overflow] _).
  repeat first [apply Forall_nil | apply Forall_cons];
    unfold well_formed; repeat split; vm_compute; congruence.
Defined.

(* ================================================================== *)
(** * Further properties *)

(** ** The millisecond timeout of [InotifyWaiter.wait] *)

Lemma binary_round_aux_sign m e l :
  sf_unsigned (binary_round_aux prec emax false m e l).
Proof.
  unfold binary_round_aux.
  destruct (shr_fexp prec emax m e l) as [mrs' e'].
  destruct (shr_fexp prec emax _ e' loc_Exact) as [mrs'' e''].
  destruct (shr_m mrs'') as [|p|p]; [exact eq_refl | | exact I].
  destruct (e'' <=? emax - prec); exact eq_refl.
Qed.

Lemma SFmul_unsigned x y :
  sf_unsigned x -> sf_unsigned y -> sf_unsigned (SFmul prec emax x y).
Proof.
  destruct x as [sx|sx| |sx mx ex], y as [sy|sy| |sy my ey]; cbn;
    intros Hx Hy; subst; cbn; auto.
  apply binary_round_aux_sign.
Qed.

Lemma py_max_zero_unsigned (t : float) : sf_unsigned (Prim2SF (py_max 0 t)).
Proof.
  unfold py_max. destruct (0 <? t)%float eqn:H; [|reflexivity].
  rewrite ltb_spec in H. change (Prim2SF 0) with (S754_zero false) in H.
  destruct (Prim2SF t) as [s|s| |s m e]; cbn in *; try discriminate;
    destruct s; cbn in *; congruence.
Qed.

Lemma py_int_unsigned (x : float) (z : Z) :
  sf_unsigned (Prim2SF x) -> py_int x = Ok z -> 0 <= z.
Proof.
  unfold py_int. destruct (Prim2SF x) as [s|s| |s m e]; cbn [sf_unsigned];
    intros Hs H; try discriminate.
  - injection H as <-. lia.
  - injection H as <-. subst s. cbv zeta. cbv iota.
    destruct (0 <=? e) eqn:He.
    + change (0 <= Z.pos m * 2 ^ e).
      apply Z.mul_nonneg_nonneg; [lia | apply Z.pow_nonneg; lia].
    + change (0 <= Z.pos m / 2 ^ (- e)).
      apply Z.leb_gt in He. apply Z.div_pos; [lia|].
      apply Z.pow_pos_nonneg; lia.
Qed.

Lemma timeout_ms_not_positive (t : float) :
  (0 <? t)%float = false -> InotifyWaiter.timeout_ms t = Ok 0.
Proof.
  intros H. unfold InotifyWaiter.timeout_ms, py_max. rewrite H.
  vm_compute. reflexivity.
Qed.

(** X1.  The millisecond timeout that [InotifyWaiter.wait] hands to the
    backend, [int(max(0.0, timeout) * 1000)], is never negative.  It is 0
    for every timeout that is not above zero (negative, zero or NaN), and
    the conversion can raise only for a timeout above zero. *)
Theorem timeout_ms_never_negative (timeout : float) :
  ((0 <? timeout)%float = false -> InotifyWaiter.timeout_ms timeout = Ok 0)
  /\ (forall ms, InotifyWaiter.timeout_ms timeout = Ok ms -> 0 <= ms)
  /\ (InotifyWaiter.timeout_ms timeout = Raised -> (0 <? timeout)%float = true).
Proof.
  split; [apply timeout_ms_not_positive|]. split.
  - intros ms. unfold InotifyWaiter.timeout_ms. apply py_int_unsigned.
    rewrite mul_spec. apply SFmul_unsigned; [apply py_max_zero_unsigned|].
    vm_compute. reflexivity.
  - intros H. destruct (0 <? timeout)%float eqn:Hp; [reflexivity|].
    rewrite (timeout_ms_not_positive timeout Hp) in H. discriminate.
Qed.


(** ** The interval of the poller stays between [base] and [max] *)

Lemma SFcompare_not_lt x y :
  x <> S754_nan -> y <> S754_nan -> SFltb y x = false -> SFleb x y = true.
Proof.
  unfold SFltb, SFleb.
  destruct x as [sx|sx| |sx mx ex], y as [sy|sy| |sy my ey]; cbn;
    try congruence; intros _ _;
    try (destruct sx; cbn; congruence);
    try (destruct sy; cbn; congruence);
    try (destruct sx, sy; cbn; congruence).
  destruct sx, sy; cbn; try congruence;
    rewrite (Z.compare_antisym ey ex);
    destruct (ey ?= ex) eqn:He; cbn; try congruence;
    rewrite !Pos.compare_cont_spec; cbn [Pos.switch_Eq];
    rewrite (Pos.compare_antisym my mx);
    destruct (my ?= mx)%positive; cbn; congruence.
Qed.

Lemma not_ltb_leb (a b : float) :
  (a <=? a)%float = true -> (b <=? b)%float = true ->
  (b <? a)%float = false -> (a <=? b)%float = true.
Proof.
  rewrite ltb_spec, !leb_spec. intros Ha Hb.
  apply SFcompare_not_lt.
  - intros E. rewrite E in Ha. discriminate.
  - intros E. rewrite E in Hb. discriminate.
Qed.

Lemma leb_refl_l (a b : float) : (a <=? b)%float = true -> (a <=? a)%float = true.
Proof.
  rewrite !leb_spec. intros H. unfold SFleb.
  rewrite SFcompare_refl; [reflexivity|].
  intros E. rewrite E in H. discriminate.
Qed.

Lemma py_max_ge_first (a b : float) :
  (a <=? a)%float = true -> (a <=? py_max a b)%float = true.
Proof.
  intros Ha. unfold py_max.
  destruct (a <? b)%float eqn:H; [now apply ltb_leb | exact Ha].
Qed.

Lemma py_min_ge_both (c a b : float) :
  (c <=? a)%float = true -> (c <=? b)%float = true ->
  (c <=? py_min a b)%float = true.
Proof. intros Ha Hb. unfold py_min. now destruct (b <? a)%float. Qed.

Lemma py_min_le_r (a b : float) :
  (a <=? a)%float = true -> (b <=? b)%float = true ->
  (py_min a b <=? b)%float = true.
Proof.
  intros Ha Hb. unfold py_min.
  destruct (b <? a)%float eqn:H; [exact Hb | now apply not_ltb_leb].
Qed.

Lemma poll_new_bounded base_interval max_interval :
  poll_bounded (AdaptivePollWaiter.new base_interval max_interval).
Proof.
  unfold poll_bounded, AdaptivePollWaiter.new; cbn.
  pose proof (py_max_zero_nonneg base_interval) as Hb.
  pose proof (leb_refl_r _ _ Hb) as Hbb.
  repeat split; auto using py_max_ge_first.
Qed.

Lemma poll_reset_bounded self :
  poll_bounded self -> poll_bounded (AdaptivePollWaiter.reset self).
Proof.
  unfold poll_bounded, AdaptivePollWaiter.reset; cbn. intros (Hb & Hc & Hm).
  repeat split; eauto using leb_refl_r, leb_trans.
Qed.

Lemma poll_wait_bounded {W} (E : Env W) timeout self w :
  poll_bounded self ->
  poll_bounded (snd (fst (AdaptivePollWaiter.wait E timeout self w))).
Proof.
  intros (Hb & Hc & Hm). rewrite poll_wait_unfold. cbv zeta. cbn [fst snd].
  destruct (fst (os_sleep E _ _)); [|now repeat split].
  destruct (0 <? timeout)%float; [|now repeat split].
  unfold poll_bounded, AdaptivePollWaiter.set_current,
    AdaptivePollWaiter.next_interval; cbn.
  pose proof (leb_refl_r _ _ Hb) as Hbb.
  pose proof (leb_refl_r _ _ Hm) as Hmm.
  repeat split; auto.
  - apply py_min_ge_both; [eauto using leb_trans | now apply py_max_ge_first].
  - now apply py_min_le_l.
Qed.

Lemma poll_run_bounded {W} (E : Env W) ops : forall self w,
  poll_bounded self -> poll_bounded (fst (poll_run E ops self w)).
Proof.
  induction ops as [|[timeout|] ops IH]; intros self w H; cbn [poll_run].
  - exact H.
  - pose proof (poll_wait_bounded E timeout self w H) as H1.
    destruct (AdaptivePollWaiter.wait E timeout self w) as [[r s1] w1].
    now apply IH.
  - apply IH. now apply poll_reset_bounded.
Qed.

(** X2.  Whatever the two intervals given to [AdaptivePollWaiter] are (also
    negative, infinite or NaN) and whatever sequence of [wait] and [reset]
    follows, the poller keeps [0 <= _base <= _current <= _max]; so none of
    the three is ever NaN. *)
Theorem poll_interval_bounded {W} (E : Env W) (base_interval max_interval : float)
  (ops : list poll_op) (w : World W) :
  poll_bounded
    (fst (poll_run E ops (AdaptivePollWaiter.new base_interval max_interval) w)).
Proof. apply poll_run_bounded, poll_new_bounded. Qed.

(** X3.  In every state that a poller reaches, the duration handed to
    [time.sleep] by [wait(timeout)] is at least zero (so neither negative nor
    NaN, which [time.sleep] rejects) and at most the current interval and
    the maximal interval, for every timeout. *)
Theorem poll_sleep_valid {W} (E : Env W) (base_interval max_interval : float)
  (ops : list poll_op) (w : World W) (timeout : float) :
  let self :=
    fst (poll_run E ops (AdaptivePollWaiter.new base_interval max_interval) w) in
  (0 <=? AdaptivePollWaiter.sleep_for timeout self)%float = true
  /\ (AdaptivePollWaiter.sleep_for timeout self
      <=? AdaptivePollWaiter._current self)%float = true
  /\ (AdaptivePollWaiter.sleep_for timeout self
      <=? AdaptivePollWaiter._max self)%float = true.
Proof.
  cbv zeta.
  destruct (poll_run_bounded E ops _ w (poll_new_bounded base_interval max_interval))
    as (Hb & Hc & Hm).
  set (self := fst (poll_run E ops _ w)) in *.
  pose proof (py_max_zero_nonneg timeout) as Ht.
  assert (H0c : (0 <=? AdaptivePollWaiter._current self)%float = true)
    by eauto using leb_trans.
  assert (Hle : (AdaptivePollWaiter.sleep_for timeout self
                 <=? AdaptivePollWaiter._current self)%float = true).
  { unfold AdaptivePollWaiter.sleep_for.
    apply py_min_le_r; eauto using leb_refl_r. }
  split; [|split].
  - unfold AdaptivePollWaiter.sleep_for. now apply py_min_ge_both.
  - exact Hle.
  - eauto using leb_trans.
Qed.


(** ** [InotifyWaiter]: the tracked files *)

Lemma sdict_get_set_same {V} (k : string) (v : V) (d : list (string * V)) :
  dict_get String.eqb k (dict_set String.eqb k v d) = Some v.
Proof.
  induction d as [|[k' v'] d IH]; cbn.
  - now rewrite String.eqb_refl.
  - destruct (String.eqb k k') eqn:Hk; cbn;
      [now rewrite String.eqb_refl | now rewrite Hk].
Qed.

Lemma sdict_get_set_other {V} (h k : string) (v : V) (d : list (string * V)) :
  h <> k ->
  dict_get String.eqb h (dict_set String.eqb k v d) = dict_get String.eqb h d.
Proof.
  intros Hne. induction d as [|[k' v'] d IH]; cbn.
  - apply String.eqb_neq in Hne. now rewrite Hne.
  - destruct (String.eqb k k') eqn:Hk; cbn.
    + apply String.eqb_eq in Hk. subst k'.
      apply String.eqb_neq in Hne. now rewrite Hne.
    + destruct (String.eqb h k'); [reflexivity | exact IH].
Qed.

Lemma track_all_get P paths : forall d p,
  dict_get String.eqb p (track_all P paths d) =
    if existsb (String.eqb p) paths then Some (path_parent P p)
    else dict_get String.eqb p d.
Proof.
  induction paths as [|q paths IH]; intros d p; cbn; [reflexivity|].
  rewrite IH. destruct (existsb (String.eqb p) paths); [now rewrite orb_true_r|].
  rewrite orb_false_r. destruct (String.eqb p q) eqn:Hq.
  - apply String.eqb_eq in Hq. subst q. apply sdict_get_set_same.
  - apply String.eqb_neq in Hq. now apply sdict_get_set_other.
Qed.

Section TrackedFacts.
Context {W : Type} (E : Env W) (P : Pathlib).

Lemma watch_one_tracked path self w :
  InotifyWaiter._tracked_files (fst (InotifyWaiter._watch_one E P path self w))
  = dict_set String.eqb path (path_parent P path) (InotifyWaiter._tracked_files self).
Proof.
  unfold InotifyWaiter._watch_one. repeat (case_call; iw_simpl); reflexivity.
Qed.

Lemma watch_each_tracked paths : forall self w,
  InotifyWaiter._tracked_files (fst (InotifyWaiter.watch_each E P paths self w))
  = track_all P paths (InotifyWaiter._tracked_files self).
Proof.
  induction paths as [|p paths IH]; intros self w; cbn [InotifyWaiter.watch_each track_all];
    [reflexivity|].
  pose proof (watch_one_tracked p self w) as H.
  destruct (InotifyWaiter._watch_one E P p self w) as [s1 w1].
  rewrite IH. cbn [fst] in H. now rewrite H.
Qed.

Lemma drop_file_watches_tracked file_path items self w :
  InotifyWaiter._tracked_files
    (fst (InotifyWaiter.drop_file_watches E file_path items self w))
  = InotifyWaiter._tracked_files self.
Proof. apply drop_file_watches_spec. Qed.

Lemma refresh_tracked file_path self w :
  InotifyWaiter._tracked_files
    (fst (InotifyWaiter._refresh_file_watch E file_path self w))
  = InotifyWaiter._tracked_files self.
Proof.
  unfold InotifyWaiter._refresh_file_watch.
  destruct (path_exists E file_path w) as [[[|]|] w1]; try reflexivity.
  pose proof (drop_file_watches_tracked file_path
                (InotifyWaiter._wds self) self w1) as H.
  destruct (InotifyWaiter.drop_file_watches E file_path _ self w1) as [s2 w2].
  destruct (add_watch E file_path InotifyWaiter._FILE_MASK w2) as [[h|] w3];
    exact H.
Qed.

Lemma scan_tracked_tracked ev_name watched_path items self w :
  InotifyWaiter._tracked_files
    (fst (InotifyWaiter.scan_tracked E P ev_name watched_path items self w))
  = InotifyWaiter._tracked_files self.
Proof.
  induction items as [|[f p] items IH]; cbn; [reflexivity|].
  destruct (negb (str_truthy p)); [exact IH|].
  destruct (str_truthy watched_path && negb (String.eqb watched_path p));
    [exact IH|].
  destruct (String.eqb (path_name P f) ev_name); [|exact IH].
  apply refresh_tracked.
Qed.

Lemma handle_events_tracked events self w :
  InotifyWaiter._tracked_files
    (snd (fst (InotifyWaiter.handle_events E P events self w)))
  = InotifyWaiter._tracked_files self.
Proof.
  induction events as [|ev events IH]; [reflexivity|].
  rewrite handle_events_cons.
  destruct (has_overflow ev); [reflexivity|].
  destruct (has_self_gone ev).
  - destruct (dict_get Z.eqb (wd ev) (InotifyWaiter._wds self)) as [[[|] path]|];
      try reflexivity.
    apply refresh_tracked.
  - destruct (str_truthy (name ev)); [|exact IH].
    cbv zeta. apply scan_tracked_tracked.
Qed.

Lemma wait_tracked timeout self w :
  InotifyWaiter._tracked_files (snd (fst (InotifyWaiter.wait E P timeout self w)))
  = InotifyWaiter._tracked_files self.
Proof.
  destruct (InotifyWaiter.timeout_ms timeout) as [ms|] eqn:Hms.
  - rewrite (wait_unfold E P _ _ _ _ Hms). cbv zeta.
    destruct (fst (os_read E ms (os w))) as [[|ev rest]|]; cbn [fst snd]; auto.
    apply handle_events_tracked.
  - unfold InotifyWaiter.wait. now rewrite Hms.
Qed.

Lemma close_tracked self w :
  InotifyWaiter._tracked_files (fst (InotifyWaiter.close E self w))
  = InotifyWaiter._tracked_files self.
Proof.
  unfold InotifyWaiter.close. now destruct (backend_close E _) as [r w1].
Qed.
End TrackedFacts.

(** X4.  After [InotifyWaiter.watch_paths(paths)] the tracked files are
    exactly the given paths, each with its parent directory, whatever was
    tracked before and whatever the file system and the backend answered. *)
Theorem watch_paths_tracks_exactly {W} (E : Env W) (P : Pathlib)
  (paths : list string) (self : InotifyWaiter.t) (w : World W) (p : string) :
  dict_get String.eqb p
    (InotifyWaiter._tracked_files (fst (InotifyWaiter.watch_paths E P paths self w)))
  = if existsb (String.eqb p) paths then Some (path_parent P p) else None.
Proof.
  unfold InotifyWaiter.watch_paths, InotifyWaiter._reset_watches.
  rewrite watch_each_tracked. cbn [InotifyWaiter._tracked_files
    InotifyWaiter.set_tracked_files]. apply track_all_get.
Qed.

(** X5.  Only [watch_paths] changes the tracked files: any sequence of
    [wait] and [close] leaves [_tracked_files] as it was, also when a
    refresh drops and re-adds watches. *)
Theorem tracked_files_change_only_in_watch_paths {W} (E : Env W) (P : Pathlib)
  (ops : list watcher_op) (self : InotifyWaiter.t) (w : World W) :
  forallb keeps_paths ops = true ->
  InotifyWaiter._tracked_files (fst (watcher_run E P ops self w))
  = InotifyWaiter._tracked_files self.
Proof.
  revert self w. induction ops as [|op ops IH]; intros self w H; cbn [watcher_run];
    [reflexivity|].
  cbn [forallb] in H. apply andb_true_iff in H as [Hop H].
  assert (H1 : InotifyWaiter._tracked_files (fst (watcher_step E P op self w))
               = InotifyWaiter._tracked_files self).
  { destruct op as [timeout|paths|]; cbn [watcher_step]; [|discriminate|].
    - pose proof (wait_tracked E P timeout self w) as Hw.
      now destruct (InotifyWaiter.wait E P timeout self w) as [[r s1] w1].
    - apply close_tracked. }
  destruct (watcher_step E P op self w) as [s1 w1]. cbn [fst] in H1.
  rewrite IH by exact H. exact H1.
Qed.


Lemma tracked_files_change_only_in_watch_paths_witness :
  InotifyWaiter._tracked_files
    (fst (watcher_run Fake.env Fake.posix [OpWait 0.25; OpClose; OpWait 1]
            iw_one_file
            (world_with_batch ["/tmp/a.log"%string] ["/tmp"%string]
               [ev_modify; ev_deleted_self])))
  = [("/tmp/a.log"%string, "/tmp"%string)].
Proof.
  exact (tracked_files_change_only_in_watch_paths Fake.env Fake.posix
           [OpWait 0.25; OpClose; OpWait 1] iw_one_file
           (world_with_batch ["/tmp/a.log"%string] ["/tmp"%string]
              [ev_modify; ev_deleted_self]) eq_refl).
Defined.

(** ** [InotifyWaiter.close] *)

(** X6.  [InotifyWaiter.close] asks the backend to remove every handle of
    the watch map, in the order of the map, then closes the backend, and
    leaves the map empty; failures of the backend do not stop it.  A second
    [close] removes nothing: it only closes the backend again and leaves the
    state as it is. *)
Theorem close_removes_every_watch {W} (E : Env W) (self : InotifyWaiter.t)
  (w : World W) :
  let res := InotifyWaiter.close E self w in
  fst res = InotifyWaiter.set_wds [] self
  /\ (exists rm_calls r,
         calls_between w (snd res) = rm_calls ++ [CClose r]
         /\ Forall2 is_rm_of rm_calls (dict_keys (InotifyWaiter._wds self)))
  /\ (exists r,
         calls_between (snd res) (snd (InotifyWaiter.close E (fst res) (snd res)))
         = [CClose r])
  /\ fst (InotifyWaiter.close E (fst res) (snd res)) = fst res.
Proof.
  cbv zeta. unfold InotifyWaiter.close.
  destruct (rm_watches_trace E (dict_keys (InotifyWaiter._wds self)) w)
    as (rm_calls & Htr & Hrm & _).
  unfold backend_close, perform.
  destruct (os_close E (os (InotifyWaiter.rm_watches E _ w))) as [r o1].
  cbn [fst snd InotifyWaiter._wds InotifyWaiter.set_wds dict_keys map
       InotifyWaiter.rm_watches os trace].
  destruct (os_close E o1) as [r2 o2]. cbn [fst snd].
  split; [reflexivity|]. split; [|split; [|reflexivity]].
  - exists rm_calls, r. split; [|exact Hrm].
    apply calls_between_app. cbn [trace]. now rewrite Htr, <- app_assoc.
  - exists r2. now apply calls_between_app.
Qed.

(** ** [InotifyWaiter.wait]: the events that leave the watches alone *)

Section WaitCases.
Context {W : Type} (E : Env W) (P : Pathlib).

(** [wait] from the point where the loop reaches [ev]. *)
Lemma wait_reaches timeout ms pre ev post o1 self w :
  InotifyWaiter.timeout_ms timeout = Ok ms ->
  os_read E ms (os w) = (Ok (pre ++ ev :: post), o1) ->
  forallb (fun e => negb (ends_scan e)) pre = true ->
  InotifyWaiter.wait E P timeout self w =
    let res := InotifyWaiter.handle_events E P (ev :: post) self
                 {| os := o1;
                    trace := trace w ++ [CRead ms (Ok (pre ++ ev :: post))] |} in
    (Ok (fst (fst res)), snd (fst res), snd res).
Proof.
  intros Hms Hread Hpre.
  assert (Hne : pre ++ ev :: post <> []) by (destruct pre; discriminate).
  rewrite (wait_nonempty E P _ _ _ _ _ _ Hms Hread Hne). cbv zeta.
  now rewrite (handle_events_skip E P pre (ev :: post) _ _ Hpre).
Qed.
End WaitCases.

(** X7.  When [read] returns a batch in which no event has the overflow
    bit, the moved-self or deleted-self bit, or a name, [InotifyWaiter.wait]
    returns [True], leaves the watcher as it was and makes no call besides
    the [read]. *)
Theorem wait_on_plain_events_changes_nothing {W} (E : Env W) (P : Pathlib)
  (timeout : float) (self : InotifyWaiter.t) (w : World W) (ms : Z)
  (events : list InotifyEvent) (o1 : W) :
  InotifyWaiter.timeout_ms timeout = Ok ms ->
  os_read E ms (os w) = (Ok events, o1) ->
  events <> [] ->
  forallb (fun e => negb (ends_scan e)) events = true ->
  InotifyWaiter.wait E P timeout self w =
    (Ok true, self, {| os := o1; trace := trace w ++ [CRead ms (Ok events)] |}).
Proof.
  intros Hms Hread Hne Hquiet.
  rewrite (wait_nonempty E P _ _ _ _ _ _ Hms Hread Hne). cbv zeta.
  pose proof (handle_events_skip E P events [] self
                {| os := o1; trace := trace w ++ [CRead ms (Ok events)] |} Hquiet)
    as H.
  rewrite app_nil_r in H. rewrite H. reflexivity.
Qed.

Lemma wait_on_plain_events_changes_nothing_witness :
  InotifyWaiter.wait Fake.env Fake.posix 0.25 iw_one_file
    (world_with_batch ["/tmp/a.log"%string] ["/tmp"%string] [ev_modify; ev_modify])
  = (Ok true, iw_one_file,
     {| os := {| Fake.files := ["/tmp/a.log"%string]; Fake.dirs := ["/tmp"%string];
                 Fake.next_wd := 10; Fake.script := [] |};
        trace := [CRead 250 (Ok [ev_modify; ev_modify])] |}).
Proof.
  refine (wait_on_plain_events_changes_nothing Fake.env Fake.posix 0.25 iw_one_file
            (world_with_batch ["/tmp/a.log"%string] ["/tmp"%string]
               [ev_modify; ev_modify])
            250 [ev_modify; ev_modify] _ eq_refl eq_refl _ eq_refl).
  discriminate.
Defined.

(** X8.  The loop of [InotifyWaiter.wait] stops at the first event that
    has the overflow bit, a self bit or a name.  If that event has the
    overflow bit, the only change is [overflowed = True]; if it has a self
    bit and its handle is not that of a file watch (unknown, or a directory
    watch), nothing changes at all.  In both cases [wait] returns [True],
    makes no call besides the [read], and the events behind are not looked
    at. *)
Theorem wait_returns_at_once {W} (E : Env W) (P : Pathlib)
  (timeout : float) (self : InotifyWaiter.t) (w : World W) (ms : Z)
  (pre : list InotifyEvent) (ev : InotifyEvent) (post : list InotifyEvent)
  (o1 : W) :
  InotifyWaiter.timeout_ms timeout = Ok ms ->
  os_read E ms (os w) = (Ok (pre ++ ev :: post), o1) ->
  forallb (fun e => negb (ends_scan e)) pre = true ->
  let w1 := {| os := o1; trace := trace w ++ [CRead ms (Ok (pre ++ ev :: post))] |} in
  (has_overflow ev = true ->
   InotifyWaiter.wait E P timeout self w
   = (Ok true, InotifyWaiter.set_overflowed true self, w1))
  /\ (has_overflow ev = false ->
      has_self_gone ev = true ->
      (forall path, dict_get Z.eqb (wd ev) (InotifyWaiter._wds self)
                    <> Some (InotifyWaiter.KFile, path)) ->
      InotifyWaiter.wait E P timeout self w = (Ok true, self, w1)).
Proof.
  intros Hms Hread Hpre. cbv zeta.
  rewrite (wait_reaches E P _ _ _ _ _ _ _ _ Hms Hread Hpre). cbv zeta.
  rewrite handle_events_cons. split.
  - intros ->. reflexivity.
  - intros -> -> Hget.
    destruct (dict_get Z.eqb (wd ev) (InotifyWaiter._wds self)) as [[[|] path]|];
      try reflexivity.
    now destruct (Hget path).
Qed.

Lemma wait_returns_at_once_witness :
  InotifyWaiter.wait Fake.env Fake.posix 0.25 iw_empty
    (world_with_batch [] [] [ev_modify; ev_deleted_self; ev_overflow])
  = (Ok true, iw_empty,
     {| os := {| Fake.files := []; Fake.dirs := []; Fake.next_wd := 10;
                 Fake.script := [] |};
        trace := [CRead 250 (Ok [ev_modify; ev_deleted_self; ev_overflow])] |}).
Proof.
  refine (proj2 (wait_returns_at_once Fake.env Fake.posix 0.25 iw_empty
                   (world_with_batch [] [] [ev_modify; ev_deleted_self; ev_overflow])
                   250 [ev_modify] ev_deleted_self [ev_overflow] _
                   eq_refl eq_refl eq_refl) eq_refl eq_refl _).
  intros path. discriminate.
Defined.

(** ** [InotifyWaiter.wait]: an event that names a child of a directory *)

Lemma scan_tracked_first {W} (E : Env W) (P : Pathlib) ev_name watched_path
  items self w :
  InotifyWaiter.scan_tracked E P ev_name watched_path items self w =
    match find (names_tracked P ev_name watched_path) items with
    | Some (file_path, _) => InotifyWaiter._refresh_file_watch E file_path self w
    | None => (self, w)
    end.
Proof.
  induction items as [|[f p] items IH]; cbn [InotifyWaiter.scan_tracked find];
    [reflexivity|].
  unfold names_tracked at 1. cbn [fst snd].
  destruct (str_truthy p); cbn [negb andb]; [|exact IH].
  destruct (str_truthy watched_path); cbn [negb andb orb].
  - destruct (String.eqb watched_path p); cbn [negb andb]; [|exact IH].
    destruct (String.eqb (path_name P f) ev_name); [reflexivity | exact IH].
  - destruct (String.eqb (path_name P f) ev_name); [reflexivity | exact IH].
Qed.

(** X9.  When the first event at which the loop stops carries a name (and
    neither the overflow bit nor a self bit), [InotifyWaiter.wait] refreshes
    the file watch of the first tracked file, in insertion order, whose
    parent is not empty, whose parent is the directory of the event's handle
    when that handle is known, and whose last component is the name; at most
    one file is refreshed, and none if no tracked file matches.  [wait]
    returns [True] in both cases. *)
Theorem named_event_refreshes_first_match {W} (E : Env W) (P : Pathlib)
  (timeout : float) (self : InotifyWaiter.t) (w : World W) (ms : Z)
  (pre : list InotifyEvent) (ev : InotifyEvent) (post : list InotifyEvent)
  (o1 : W) :
  InotifyWaiter.timeout_ms timeout = Ok ms ->
  os_read E ms (os w) = (Ok (pre ++ ev :: post), o1) ->
  forallb (fun e => negb (ends_scan e)) pre = true ->
  has_overflow ev = false ->
  has_self_gone ev = false ->
  str_truthy (name ev) = true ->
  let w1 := {| os := o1; trace := trace w ++ [CRead ms (Ok (pre ++ ev :: post))] |} in
  InotifyWaiter.wait E P timeout self w =
    match find (names_tracked P (name ev) (watched_path_of self ev))
            (InotifyWaiter._tracked_files self) with
    | Some (file_path, _) =>
        (Ok true,
         fst (InotifyWaiter._refresh_file_watch E file_path self w1),
         snd (InotifyWaiter._refresh_file_watch E file_path self w1))
    | None => (Ok true, self, w1)
    end.
Proof.
  intros Hms Hread Hpre Hov Hself Hname. cbv zeta.
  rewrite (wait_reaches E P _ _ _ _ _ _ _ _ Hms Hread Hpre). cbv zeta.
  rewrite handle_events_cons, Hov, Hself, Hname. cbv zeta.
  rewrite scan_tracked_first. fold (watched_path_of self ev).
  now destruct (find _ _) as [[f p]|].
Qed.


Lemma named_event_refreshes_first_match_witness :
  let w := world_with_batch ["/tmp/a.log"%string] ["/tmp"%string]
             [ev_modify; ev_created; ev_overflow] in
  let w1 := {| os := {| Fake.files := ["/tmp/a.log"%string];
                        Fake.dirs := ["/tmp"%string];
                        Fake.next_wd := 10; Fake.script := [] |};
               trace := [CRead 250 (Ok [ev_modify; ev_created; ev_overflow])] |} in
  InotifyWaiter.wait Fake.env Fake.posix 0.25 iw_one_file w
  = (Ok true,
     fst (InotifyWaiter._refresh_file_watch Fake.env "/tmp/a.log" iw_one_file w1),
     snd (InotifyWaiter._refresh_file_watch Fake.env "/tmp/a.log" iw_one_file w1)).
Proof.
  exact (named_event_refreshes_first_match Fake.env Fake.posix 0.25 iw_one_file
           (world_with_batch ["/tmp/a.log"%string] ["/tmp"%string]
              [ev_modify; ev_created; ev_overflow])
           250 [ev_modify] ev_created [ev_overflow] _
           eq_refl eq_refl eq_refl eq_refl eq_refl eq_refl).
Defined.

(** ** Every entry of the watch map comes from an [add_watch] *)



Lemma dict_set_in {V} (k : Z) (v : V) (d : list (Z * V)) (e : Z * V) :
  In e (dict_set Z.eqb k v d) -> e = (k, v) \/ In e d.
Proof.
  induction d as [|[k' v'] d IH]; cbn.
  - intros [<-|[]]. now left.
  - destruct (k =? k'); cbn; intros [<-|H]; auto.
    destruct (IH H); auto.
Qed.



Section BackedFacts.
Context {W : Type} (E : Env W) (P : Pathlib).







End BackedFacts.




(** ** [FileChangeWaiter]: what a facade without a watcher does *)

Section FacadeRuns.
Context {W NW : Type} (E : Env W) (P : Pathlib) (N : Watcher W NW).

Lemma polling_step_sleeps op self w :
  polling self ->
  exists seg,
    trace (snd (facade_step E P N op self w)) = trace w ++ seg
    /\ forallb is_sleep seg = true.
Proof.
  intros H. destruct op as [timeout|paths| |]; cbn [facade_step].
  - rewrite (polling_wait E N timeout self w H), poll_wait_unfold. cbv zeta.
    cbn [snd trace]. eexists. split; reflexivity.
  - unfold FileChangeWaiter.update_paths.
    rewrite (polling_apply_paths N _ self w H). exists []. now rewrite app_nil_r.
  - exists []. now rewrite app_nil_r.
  - rewrite (polling_close N self w H). exists []. now rewrite app_nil_r.
Qed.

Lemma polling_run_sleeps ops : forall self w,
  polling self ->
  exists seg,
    trace (snd (facade_run E P N ops self w)) = trace w ++ seg
    /\ forallb is_sleep seg = true.
Proof.
  induction ops as [|op ops IH]; intros self w H; cbn [facade_run].
  - exists []. now rewrite app_nil_r.
  - destruct (polling_step_sleeps op self w H) as (seg1 & Ht1 & Hs1).
    pose proof (polling_step E P N op self w H) as Hp.
    destruct (facade_step E P N op self w) as [s1 w1]. cbn [fst snd] in *.
    destruct (IH s1 w1 Hp) as (seg2 & Ht2 & Hs2).
    exists (seg1 ++ seg2). split.
    + now rewrite Ht2, Ht1, app_assoc.
    + now rewrite forallb_app, Hs1, Hs2.
Qed.

Lemma new_without_watcher paths enabled poll_interval debug_name w :
  enabled = false \/ os_is_linux E = false ->
  FileChangeWaiter.new E P N paths enabled poll_interval debug_name w =
    ({| FileChangeWaiter._paths := FileChangeWaiter.to_paths P paths;
        FileChangeWaiter._enabled := enabled;
        FileChangeWaiter._debug_name := debug_name;
        FileChangeWaiter._poll := AdaptivePollWaiter.new poll_interval 0.5;
        FileChangeWaiter._inotify := None;
        FileChangeWaiter._use_inotify := false |}, w).
Proof.
  intros H. unfold FileChangeWaiter.new, FileChangeWaiter._maybe_enable_inotify.
  cbn [FileChangeWaiter._enabled].
  destruct enabled; cbn [negb].
  - destruct H as [H|H]; [discriminate|]. rewrite H. reflexivity.
  - reflexivity.
Qed.
End FacadeRuns.

(** X11.  A [FileChangeWaiter] on the polling strategy touches nothing but
    the clock: in any sequence of [wait], [update_paths], [reset_backoff]
    and [close], every call it makes is a [time.sleep]. *)
Theorem polling_facade_only_sleeps {W NW} (E : Env W) (P : Pathlib)
  (N : Watcher W NW) (ops : list facade_op) (self : FileChangeWaiter.t NW)
  (w : World W) :
  polling self ->
  forallb is_sleep (calls_between w (snd (facade_run E P N ops self w))) = true.
Proof.
  intros H. destruct (polling_run_sleeps E P N ops self w H) as (seg & Ht & Hs).
  now rewrite (calls_between_app _ _ _ Ht).
Qed.

Lemma polling_facade_only_sleeps_witness :
  forallb is_sleep
    (calls_between w0
       (snd (facade_run Fake.env Fake.posix Fake.broken_watcher
               [FWait 0.25; FUpdatePaths ["/d/f"%string]; FResetBackoff; FWait 1; FClose]
               facade_polling w0))) = true.
Proof.
  exact (polling_facade_only_sleeps Fake.env Fake.posix Fake.broken_watcher
           [FWait 0.25; FUpdatePaths ["/d/f"%string]; FResetBackoff; FWait 1; FClose]
           facade_polling w0 (conj eq_refl eq_refl)).
Defined.

(** X12.  With [enabled=False], or on a platform other than Linux, the
    constructor of [FileChangeWaiter] makes no call at all (no watcher is
    built, no path is looked at), the facade starts on the polling strategy,
    and whatever is called on it later only sleeps. *)
Theorem disabled_facade_never_uses_inotify {W NW} (E : Env W) (P : Pathlib)
  (N : Watcher W NW) (paths : list string) (enabled : bool)
  (poll_interval : float) (debug_name : string) (ops : list facade_op)
  (w : World W) :
  enabled = false \/ os_is_linux E = false ->
  let built := FileChangeWaiter.new E P N paths enabled poll_interval debug_name w in
  snd built = w
  /\ polling (fst built)
  /\ forallb is_sleep
       (calls_between w (snd (facade_run E P N ops (fst built) (snd built)))) = true.
Proof.
  intros H. cbv zeta. rewrite (new_without_watcher E P N _ _ _ _ w H).
  cbn [fst snd]. split; [reflexivity|]. split; [split; reflexivity|].
  destruct (polling_run_sleeps E P N ops _ w
              (conj eq_refl eq_refl
               : polling {| FileChangeWaiter._paths := FileChangeWaiter.to_paths P paths;
                            FileChangeWaiter._enabled := enabled;
                            FileChangeWaiter._debug_name := debug_name;
                            FileChangeWaiter._poll :=
                              AdaptivePollWaiter.new poll_interval 0.5;
                            FileChangeWaiter._inotify := None;
                            FileChangeWaiter._use_inotify := false |}))
    as (seg & Ht & Hs).
  now rewrite (calls_between_app _ _ _ Ht).
Qed.

Lemma disabled_facade_never_uses_inotify_witness :
  let built := FileChangeWaiter.new Fake.env Fake.posix
                 (inotify_watcher Fake.env Fake.posix) ["/d/f"%string] false 0.05
                 EmptyString w_tree in
  snd built = w_tree
  /\ polling (fst built)
  /\ forallb is_sleep
       (calls_between w_tree
          (snd (facade_run Fake.env Fake.posix (inotify_watcher Fake.env Fake.posix)
                  [FWait 0.25; FUpdatePaths ["/e"%string]; FWait 1]
                  (fst built) (snd built)))) = true.
Proof.
  exact (disabled_facade_never_uses_inotify Fake.env Fake.posix
           (inotify_watcher Fake.env Fake.posix) ["/d/f"%string] false 0.05
           EmptyString [FWait 0.25; FUpdatePaths ["/e"%string]; FWait 1] w_tree
           (or_introl eq_refl)).
Defined.

(** X13.  [FileChangeWaiter.wait] returns [True] only when the facade is
    on the native strategy and the [wait] of its watcher returned [True];
    the polling path never reports a change.  An exception of the watcher
    never leaves [wait]: if [time.sleep] does not raise, [wait] does not
    raise. *)
Theorem facade_wait_outcomes {W NW} (E : Env W) (N : Watcher W NW)
  (timeout : float) (self : FileChangeWaiter.t NW) (w : World W) :
  (fst (fst (FileChangeWaiter.wait E N timeout self w)) = Ok true ->
   exists i, native self i /\ fst (fst (nw_wait N timeout i w)) = Ok true)
  /\ ((forall d o, fst (os_sleep E d o) = Ok tt) ->
      fst (fst (FileChangeWaiter.wait E N timeout self w)) <> Raised).
Proof.
  unfold FileChangeWaiter.wait, native.
  destruct (FileChangeWaiter._use_inotify self),
    (FileChangeWaiter._inotify self) as [i|].
  2-4: rewrite poll_wait_unfold; cbv zeta; cbn [fst]; split;
       [ destruct (fst (os_sleep E _ _)); discriminate
       | intros Hs; rewrite Hs; discriminate ].
  destruct (nw_wait N timeout i w) as [[[b|] i1] w1] eqn:Hw; cbn [fst].
  - split; [|discriminate]. intros Hb. exists i. rewrite Hw. now repeat split.
  - destruct (nw_close N i1 w1) as [[r i2] w2].
    rewrite poll_wait_unfold. cbv zeta. cbn [fst]. split.
    + destruct (fst (os_sleep E _ _)); discriminate.
    + intros Hs. rewrite Hs. discriminate.
Qed.

Lemma facade_wait_outcomes_witness :
  fst (fst (FileChangeWaiter.wait Fake.env Fake.broken_watcher 0.25 facade_native w0))
  <> Raised.
Proof.
  exact (proj2 (facade_wait_outcomes Fake.env Fake.broken_watcher 0.25 facade_native w0)
           (fun d o => eq_refl)).
Defined.

(** X14.  [FileChangeWaiter.close] closes the watcher it holds, if any,
    swallows its failure, and lets go of it, leaving every other field
    (also [_use_inotify]) as it was.  On the closed facade [overflowed] is
    [False], a second [close] does nothing, [update_paths] only stores the
    paths, and [wait] is the [wait] of the poller. *)
Theorem facade_close_detaches {W NW} (E : Env W) (P : Pathlib) (N : Watcher W NW)
  (self : FileChangeWaiter.t NW) (w : World W) :
  let closed := fst (FileChangeWaiter.close N self w) in
  closed = FileChangeWaiter.set_inotify None self
  /\ snd (FileChangeWaiter.close N self w) =
       match FileChangeWaiter._inotify self with
       | Some i => snd (nw_close N i w)
       | None => w
       end
  /\ FileChangeWaiter.overflowed N closed = false
  /\ (forall w1, FileChangeWaiter.close N closed w1 = (closed, w1))
  /\ (forall paths w1,
         FileChangeWaiter.update_paths P N paths closed w1 =
           (FileChangeWaiter.set_paths (FileChangeWaiter.to_paths P paths) closed, w1))
  /\ (forall timeout w1,
         let polled :=
           AdaptivePollWaiter.wait E timeout (FileChangeWaiter._poll self) w1 in
         FileChangeWaiter.wait E N timeout closed w1 =
           (fst (fst polled),
            FileChangeWaiter.set_poll (snd (fst polled)) closed,
            snd polled)).
Proof.
  cbv zeta. unfold FileChangeWaiter.close.
  assert (Hc : fst (let '(self0, w0) :=
                      match FileChangeWaiter._inotify self with
                      | Some i => let '(_, i0, w0) := nw_close N i w in
                                  (FileChangeWaiter.set_inotify (Some i0) self, w0)
                      | None => (self, w)
                      end in
                    (FileChangeWaiter.set_inotify None self0, w0))
               = FileChangeWaiter.set_inotify None self).
  { destruct (FileChangeWaiter._inotify self) as [i|]; [|reflexivity].
    now destruct (nw_close N i w) as [[r i1] w1]. }
  rewrite Hc. split; [reflexivity|]. split; [|split; [|split; [|split]]].
  - destruct (FileChangeWaiter._inotify self) as [i|]; [|reflexivity].
    now destruct (nw_close N i w) as [[r i1] w1].
  - reflexivity.
  - intros w1. reflexivity.
  - intros paths w1. unfold FileChangeWaiter.update_paths, FileChangeWaiter.apply_paths.
    cbn. now destruct (FileChangeWaiter._use_inotify self).
  - intros timeout w1. unfold FileChangeWaiter.wait. cbn.
    destruct (FileChangeWaiter._use_inotify self);
      now destruct (AdaptivePollWaiter.wait E timeout _ w1) as [[r p] w2].
Qed.


(** ** [FileChangeWaiter] over [InotifyWaiter] *)

Section RealFacade.
Context {W : Type} (E : Env W) (P : Pathlib).

Lemma watcher_wait_raises timeout self w :
  fst (fst (InotifyWaiter.wait E P timeout self w)) = Raised <->
  (InotifyWaiter.timeout_ms timeout = Raised
   \/ exists ms, InotifyWaiter.timeout_ms timeout = Ok ms
                 /\ fst (os_read E ms (os w)) = Raised).
Proof.
  destruct (InotifyWaiter.timeout_ms timeout) as [ms|] eqn:Hms.
  - rewrite (wait_unfold E P _ _ _ _ Hms). cbv zeta.
    destruct (fst (os_read E ms (os w))) as [[|ev rest]|] eqn:Hr; cbn [fst]; split;
      try discriminate.
    + intros [H|(ms' & Hm & H)]; [discriminate|]. inversion Hm; subst.
      rewrite Hr in H. discriminate.
    + intros [H|(ms' & Hm & H)]; [discriminate|]. inversion Hm; subst.
      rewrite Hr in H. discriminate.
    + intros _. right. exists ms. now split.
    + reflexivity.
  - unfold InotifyWaiter.wait. rewrite Hms. cbn. split; auto.
Qed.
End RealFacade.

(** X15.  Over an [InotifyWaiter], [FileChangeWaiter.update_paths] never
    leaves the native strategy: [watch_paths] does not raise, so the facade
    stores the non-empty paths, holds the watcher as [watch_paths] left it,
    and makes exactly the calls of [watch_paths]. *)
Theorem update_paths_keeps_inotify {W} (E : Env W) (P : Pathlib)
  (paths : list string) (self : FileChangeWaiter.t InotifyWaiter.t)
  (i : InotifyWaiter.t) (w : World W) :
  native self i ->
  let watched :=
    InotifyWaiter.watch_paths E P (FileChangeWaiter.to_paths P paths) i w in
  FileChangeWaiter.update_paths P (inotify_watcher E P) paths self w =
    (FileChangeWaiter.set_inotify (Some (fst watched))
       (FileChangeWaiter.set_paths (FileChangeWaiter.to_paths P paths) self),
     snd watched)
  /\ native (fst (FileChangeWaiter.update_paths P (inotify_watcher E P) paths self w))
       (fst watched).
Proof.
  intros [Hu Hi]. cbv zeta.
  assert (Heq : FileChangeWaiter.update_paths P (inotify_watcher E P) paths self w =
                (FileChangeWaiter.set_inotify
                   (Some (fst (InotifyWaiter.watch_paths E P
                                 (FileChangeWaiter.to_paths P paths) i w)))
                   (FileChangeWaiter.set_paths (FileChangeWaiter.to_paths P paths) self),
                 snd (InotifyWaiter.watch_paths E P
                        (FileChangeWaiter.to_paths P paths) i w))).
  { unfold FileChangeWaiter.update_paths, FileChangeWaiter.apply_paths.
    cbn [FileChangeWaiter.set_paths FileChangeWaiter._use_inotify
         FileChangeWaiter._inotify FileChangeWaiter._paths nw_watch_paths
         inotify_watcher].
    rewrite Hu, Hi.
    now destruct (InotifyWaiter.watch_paths E P _ i w) as [i1 w1]. }
  split; [exact Heq|]. rewrite Heq. split; [exact Hu | reflexivity].
Qed.

Lemma update_paths_keeps_inotify_witness :
  native
    (fst (FileChangeWaiter.update_paths Fake.posix (inotify_watcher Fake.env Fake.posix)
            ["/d/f"%string; "/nowhere/x"%string] facade_inotify w_tree))
    (fst (InotifyWaiter.watch_paths Fake.env Fake.posix
            ["/d/f"%string; "/nowhere/x"%string] iw_one_file w_tree)).
Proof.
  exact (proj2 (update_paths_keeps_inotify Fake.env Fake.posix
                  ["/d/f"%string; "/nowhere/x"%string] facade_inotify iw_one_file
                  w_tree (conj eq_refl eq_refl))).
Defined.

(** X16.  A native [FileChangeWaiter] over an [InotifyWaiter] is on the
    polling strategy after [wait(timeout)] exactly when the timeout could
    not be converted to milliseconds or the [read] of the backend raised.
    In every other case it stays native, holds the watcher as its [wait]
    left it, and returns what that [wait] returned. *)
Theorem facade_wait_demotes_iff_watcher_raises {W} (E : Env W) (P : Pathlib)
  (timeout : float) (self : FileChangeWaiter.t InotifyWaiter.t)
  (i : InotifyWaiter.t) (w : World W) :
  native self i ->
  let after := snd (fst (FileChangeWaiter.wait E (inotify_watcher E P) timeout self w)) in
  (polling after <->
   (InotifyWaiter.timeout_ms timeout = Raised
    \/ exists ms, InotifyWaiter.timeout_ms timeout = Ok ms
                  /\ fst (os_read E ms (os w)) = Raised))
  /\ (~ polling after ->
      native after (snd (fst (InotifyWaiter.wait E P timeout i w)))
      /\ FileChangeWaiter.wait E (inotify_watcher E P) timeout self w =
           (fst (fst (InotifyWaiter.wait E P timeout i w)), after,
            snd (InotifyWaiter.wait E P timeout i w))).
Proof.
  intros [Hu Hi]. cbv zeta.
  rewrite <- (watcher_wait_raises E P timeout i w).
  unfold FileChangeWaiter.wait. cbn [nw_wait nw_close inotify_watcher].
  rewrite Hu, Hi.
  destruct (InotifyWaiter.wait E P timeout i w) as [[[b|] i1] w1]; cbn [fst snd].
  - split.
    + split; [|discriminate]. intros [H _]. cbn in H. congruence.
    + intros _. split; [split; [exact Hu | reflexivity] | reflexivity].
  - destruct (InotifyWaiter.close E i1 w1) as [i2 w2].
    destruct (AdaptivePollWaiter.wait E timeout _ w2) as [[r p] w3]. cbn [fst snd].
    split.
    + split; [reflexivity|]. intros _. split; reflexivity.
    + intros H. exfalso. apply H. split; reflexivity.
Qed.

Lemma facade_wait_demotes_iff_watcher_raises_witness :
  polling (snd (fst (FileChangeWaiter.wait Fake.env (inotify_watcher Fake.env Fake.posix)
                       0.25 facade_inotify w_read_raises)))
  /\ ~ polling (snd (fst (FileChangeWaiter.wait Fake.env
                            (inotify_watcher Fake.env Fake.posix)
                            0.25 facade_inotify w0))).
Proof.
  split.
  - apply (proj1 (facade_wait_demotes_iff_watcher_raises Fake.env Fake.posix 0.25
                    facade_inotify iw_one_file w_read_raises (conj eq_refl eq_refl))).
    right. exists 250. split; reflexivity.
  - intros H.
    apply (proj1 (facade_wait_demotes_iff_watcher_raises Fake.env Fake.posix 0.25
                    facade_inotify iw_one_file w0 (conj eq_refl eq_refl))) in H.
    destruct H as [H|(ms & Hms & H)]; [vm_compute in H; discriminate|].
    vm_compute in Hms. injection Hms as <-. vm_compute in H. discriminate.
Defined.

(** X17.  A timeout whose conversion to milliseconds raises (an infinite
    one, for instance) makes a native [FileChangeWaiter] give up inotify for
    polling without a single [read] of the backend. *)
Theorem raising_timeout_demotes_without_read {W} (E : Env W) (P : Pathlib)
  (timeout : float) (self : FileChangeWaiter.t InotifyWaiter.t)
  (i : InotifyWaiter.t) (w : World W) :
  native self i ->
  InotifyWaiter.timeout_ms timeout = Raised ->
  let res := FileChangeWaiter.wait E (inotify_watcher E P) timeout self w in
  polling (snd (fst res))
  /\ forallb (fun c => match c with CRead _ _ => false | _ => true end)
       (calls_between w (snd res)) = true.
Proof.
  intros [Hu Hi] Hms. cbv zeta.
  unfold FileChangeWaiter.wait. cbn [nw_wait nw_close inotify_watcher].
  rewrite Hu, Hi. unfold InotifyWaiter.wait. rewrite Hms.
  unfold InotifyWaiter.close.
  destruct (rm_watches_trace E (dict_keys (InotifyWaiter._wds i)) w)
    as (rm_calls & Htr & Hrm & _).
  unfold backend_close, perform.
  destruct (os_close E (os (InotifyWaiter.rm_watches E _ w))) as [r o1].
  rewrite poll_wait_unfold. cbv zeta. cbn [fst snd os trace].
  split; [destruct (fst (os_sleep E _ _)); split; reflexivity|].
  erewrite calls_between_app
    by (cbn [trace]; rewrite Htr, <- !app_assoc; reflexivity).
  rewrite forallb_app. apply andb_true_iff. split; [|reflexivity].
  clear - Hrm. induction Hrm as [|c h l l' [r0 ->] _ IH]; [reflexivity|exact IH].
Qed.


Lemma raising_timeout_demotes_without_read_witness :
  let res := FileChangeWaiter.wait Fake.env (inotify_watcher Fake.env Fake.posix)
               infinity facade_inotify w0 in
  polling (snd (fst res))
  /\ forallb (fun c => match c with CRead _ _ => false | _ => true end)
       (calls_between w0 (snd res)) = true.
Proof.
  exact (raising_timeout_demotes_without_read Fake.env Fake.posix infinity
           facade_inotify iw_one_file w0 (conj eq_refl eq_refl) eq_refl).
Defined.

(** X18.  After [wait] on a native [FileChangeWaiter] over an
    [InotifyWaiter], [overflowed] is the flag of the watcher if its [wait]
    returned, and [False] if it raised: the facade forgets an overflow seen
    earlier when it drops to polling. *)
Theorem facade_overflowed_after_wait {W} (E : Env W) (P : Pathlib)
  (timeout : float) (self : FileChangeWaiter.t InotifyWaiter.t)
  (i : InotifyWaiter.t) (w : World W) :
  native self i ->
  let watched := InotifyWaiter.wait E P timeout i w in
  FileChangeWaiter.overflowed (inotify_watcher E P)
    (snd (fst (FileChangeWaiter.wait E (inotify_watcher E P) timeout self w)))
  = match fst (fst watched) with
    | Ok _ => InotifyWaiter.overflowed (snd (fst watched))
    | Raised => false
    end.
Proof.
  intros [Hu Hi]. cbv zeta.
  unfold FileChangeWaiter.wait. cbn [nw_wait nw_close inotify_watcher].
  rewrite Hu, Hi.
  destruct (InotifyWaiter.wait E P timeout i w) as [[[b|] i1] w1]; cbn [fst snd].
  - reflexivity.
  - destruct (InotifyWaiter.close E i1 w1) as [i2 w2].
    now destruct (AdaptivePollWaiter.wait E timeout _ w2) as [[r p] w3].
Qed.

Lemma facade_overflowed_after_wait_witness :
  FileChangeWaiter.overflowed (inotify_watcher Fake.env Fake.posix)
    (snd (fst (FileChangeWaiter.wait Fake.env (inotify_watcher Fake.env Fake.posix)
                 0.25
                 (FileChangeWaiter.set_inotify
                    (Some (InotifyWaiter.set_overflowed true iw_one_file))
                    facade_inotify)
                 w_read_raises)))
  = false.
Proof.
  exact (facade_overflowed_after_wait Fake.env Fake.posix 0.25
           (FileChangeWaiter.set_inotify
              (Some (InotifyWaiter.set_overflowed true iw_one_file)) facade_inotify)
           (InotifyWaiter.set_overflowed true iw_one_file) w_read_raises
           (conj eq_refl eq_refl)).
Defined.

(** X19.  With [enabled=True] on Linux, the constructor of
    [FileChangeWaiter] builds an [InotifyWaiter] first.  If that succeeds,
    the facade starts native, holding the watcher after
    [watch_paths] on the non-empty paths; if it raises, the facade starts on
    the polling strategy and nothing more is called.  In both cases it
    stores the non-empty paths and a poller with the given base interval and
    the maximal interval 0.5. *)
Theorem enabled_facade_starts_native {W} (E : Env W) (P : Pathlib)
  (paths : list string) (poll_interval : float) (debug_name : string)
  (w : World W) :
  os_is_linux E = true ->
  let built := FileChangeWaiter.new E P (inotify_watcher E P) paths true
                 poll_interval debug_name w in
  let made := InotifyWaiter.new E w in
  match fst made with
  | Ok i =>
      let watched :=
        InotifyWaiter.watch_paths E P (FileChangeWaiter.to_paths P paths) i
          (snd made) in
      native (fst built) (fst watched) /\ snd built = snd watched
  | Raised => polling (fst built) /\ snd built = snd made
  end
  /\ FileChangeWaiter._paths (fst built) = FileChangeWaiter.to_paths P paths
  /\ FileChangeWaiter._poll (fst built) = AdaptivePollWaiter.new poll_interval 0.5.
Proof.
  intros Hl. cbv zeta.
  unfold FileChangeWaiter.new, FileChangeWaiter._maybe_enable_inotify.
  cbn [FileChangeWaiter._enabled negb nw_new inotify_watcher]. rewrite Hl. cbn [negb].
  destruct (InotifyWaiter.new E w) as [[i|] w1]; cbn [fst snd].
  - unfold FileChangeWaiter.apply_paths.
    cbn [FileChangeWaiter.set_paths FileChangeWaiter.set_use_inotify
         FileChangeWaiter.set_inotify FileChangeWaiter._use_inotify
         FileChangeWaiter._inotify FileChangeWaiter._paths nw_watch_paths
         inotify_watcher].
    destruct (InotifyWaiter.watch_paths E P _ i w1) as [i1 w2]. cbn.
    repeat split.
  - cbn. repeat split.
Qed.

Lemma enabled_facade_starts_native_witness :
  let built := FileChangeWaiter.new Fake.env Fake.posix
                 (inotify_watcher Fake.env Fake.posix) ["/d/f"%string; ""%string]
                 true 0.05 EmptyString w_tree in
  native (fst built)
    {| InotifyWaiter._wds := [(1, (InotifyWaiter.KDir, "/d"%string));
                              (2, (InotifyWaiter.KFile, "/d/f"%string))];
       InotifyWaiter._tracked_files := [("/d/f"%string, "/d"%string)];
       InotifyWaiter.overflowed := false |}.
Proof.
  exact (proj1 (proj1 (enabled_facade_starts_native Fake.env Fake.posix
                         ["/d/f"%string; ""%string] 0.05 EmptyString w_tree eq_refl))).
Defined.


(** ** The decode loop on buffers that are not whole records *)

Section DecodeEdges.
Variable utf8_decode_ignore : list byte -> string.
Variable bo : byteorder.

(** The loop over whole records followed by anything. *)
Lemma decode_loop_prefix recs : forall pre tail events fuel,
  Forall well_formed recs ->
  decode_loop utf8_decode_ignore bo (List.length recs + fuel)
    (pre ++ List.concat (map (record_bytes bo) recs) ++ tail) (List.length pre) events
  = decode_loop utf8_decode_ignore bo fuel
      (pre ++ List.concat (map (record_bytes bo) recs) ++ tail)
      (List.length (pre ++ List.concat (map (record_bytes bo) recs)))
      (events ++ map (event_of utf8_decode_ignore) recs).
Proof.
  induction recs as [|r recs IH]; intros pre tail events fuel Hwf.
  - cbn [map List.concat List.length Nat.add app]. now rewrite !app_nil_r.
  - inversion Hwf as [|? ? Hr Hrest]; subst.
    cbn [map List.concat List.length Nat.add].
    rewrite <- !app_assoc.
    cbn [decode_loop].
    destruct (Nat.leb_spec (List.length pre + header_size)
                (List.length (pre ++ record_bytes bo r
                                ++ List.concat (map (record_bytes bo) recs) ++ tail)))
      as [_|Hlt];
      [|rewrite !length_app, record_bytes_length in Hlt; lia].
    rewrite (unpack_header bo pre r _ Hr).
    assert (Hnext : (List.length pre + header_size + List.length (ie_name r))%nat
                    = List.length (pre ++ record_bytes bo r)).
    { rewrite length_app, record_bytes_length. lia. }
    specialize (IH (pre ++ record_bytes bo r) tail).
    rewrite <- !app_assoc in IH.
    unfold int_truthy. destruct (ie_name r) as [|b nm] eqn:Hname.
    + cbn [List.length Z.of_nat Z.eqb negb].
      cbn [List.length] in Hnext. rewrite Nat.add_0_r in Hnext. rewrite Hnext.
      rewrite IH by exact Hrest.
      rewrite <- !app_assoc. cbn [app]. unfold event_of at 2. now rewrite Hname.
    + replace (Z.of_nat (List.length (b :: nm)) =? 0) with false
        by (symmetry; apply Z.eqb_neq; cbn [List.length]; lia).
      cbn [negb]. rewrite Nat2Z.id. rewrite <- Hname in Hnext |- *.
      rewrite name_slice, Hnext.
      rewrite IH by exact Hrest.
      rewrite <- !app_assoc. cbn [app]. unfold event_of at 2. now rewrite Hname.
Qed.

Lemma decode_loop_stops fuel data offset events :
  (List.length data < offset + header_size)%nat ->
  decode_loop utf8_decode_ignore bo fuel data offset events = Some events.
Proof.
  intros H. destruct fuel; cbn [decode_loop];
    destruct (Nat.leb_spec (offset + header_size) (List.length data)); (lia || reflexivity).
Qed.

Lemma concat_records_length recs :
  (header_size * List.length recs
   <= List.length (List.concat (map (record_bytes bo) recs)))%nat.
Proof.
  induction recs as [|r recs IH]; cbn [map List.concat List.length]; [lia|].
  rewrite length_app, record_bytes_length. lia.
Qed.

(** Any number of events decoded takes [header_size] bytes each. *)
Lemma decode_loop_count fuel data : forall offset events out,
  decode_loop utf8_decode_ignore bo fuel data offset events = Some out ->
  (header_size * (List.length out - List.length events)
   <= List.length data - offset)%nat.
Proof.
  induction fuel as [|fuel IH]; intros offset events out; cbn [decode_loop];
    destruct (Nat.leb_spec (offset + header_size) (List.length data)) as [Hle|Hgt];
    try discriminate;
    try (intros H; inversion H; subst; rewrite Nat.sub_diag; lia).
  destruct (unpack_from_iIII bo data offset) as [[[h m] c] name_len].
  destruct (int_truthy name_len); intros H; apply IH in H;
    rewrite length_app in H; cbn [List.length] in H;
    unfold header_size in *; lia.
Qed.

Lemma uint_le_bound bs : 0 <= uint_le bs < 256 ^ Z.of_nat (List.length bs).
Proof.
  induction bs as [|b bs IH]; cbn [uint_le List.length].
  - cbn. lia.
  - rewrite Nat2Z.inj_succ, Z.pow_succ_r by lia.
    pose proof (byte_val_range b). lia.
Qed.

Lemma slice_length data lo hi : (List.length (slice data lo hi) <= hi - lo)%nat.
Proof. unfold slice. apply firstn_le_length. Qed.

Lemma unpack_I_range data lo :
  0 <= unpack_I bo (slice data lo (lo + 4)) < 2 ^ 32.
Proof.
  assert (H : forall bs, (List.length bs <= 4)%nat -> 0 <= uint_le bs < 2 ^ 32).
  { intros bs Hl. pose proof (uint_le_bound bs) as Hb.
    assert (256 ^ Z.of_nat (List.length bs) <= 256 ^ 4)
      by (apply Z.pow_le_mono_r; lia).
    change (2 ^ 32) with (256 ^ 4). lia. }
  pose proof (slice_length data lo (lo + 4)) as Hl.
  destruct bo; cbn [unpack_I]; apply H; rewrite ?length_rev; lia.
Qed.

Lemma unpack_i_range data lo :
  - 2 ^ 31 <= unpack_i bo (slice data lo (lo + 4)) < 2 ^ 31.
Proof.
  unfold unpack_i. pose proof (unpack_I_range data lo) as H.
  destruct (Z.ltb_spec (unpack_I bo (slice data lo (lo + 4))) (2 ^ 31)); lia.
Qed.

Lemma decode_loop_ranges fuel data : forall offset events out,
  Forall fields_in_range events ->
  decode_loop utf8_decode_ignore bo fuel data offset events = Some out ->
  Forall fields_in_range out.
Proof.
  induction fuel as [|fuel IH]; intros offset events out Hev; cbn [decode_loop];
    destruct (Nat.leb_spec (offset + header_size) (List.length data)) as [Hle|Hgt];
    try discriminate;
    try (intros H; inversion H; subst; exact Hev).
  unfold unpack_from_iIII.
  pose proof (unpack_i_range data offset) as Hwd.
  pose proof (unpack_I_range data (offset + 4)) as Hmask.
  pose proof (unpack_I_range data (offset + 8)) as Hcookie.
  replace (offset + 4 + 4)%nat with (offset + 8)%nat in Hmask by lia.
  replace (offset + 8 + 4)%nat with (offset + 12)%nat in Hcookie by lia.
  destruct (int_truthy _); apply IH; apply Forall_app; split; auto;
    constructor; auto; repeat split; cbn [wd mask cookie]; lia.
Qed.
End DecodeEdges.

Lemma slice_within (pre mid rest1 rest2 : list byte) lo hi :
  (List.length pre <= lo)%nat ->
  (hi <= List.length pre + List.length mid)%nat ->
  slice (pre ++ mid ++ rest1) lo hi = slice (pre ++ mid ++ rest2) lo hi.
Proof.
  intros Hlo Hhi.
  assert (H : forall rest, slice (pre ++ mid ++ rest) lo hi
                           = firstn (hi - lo) (skipn (lo - List.length pre) mid)).
  { intros rest. unfold slice.
    rewrite skipn_app, skipn_all2 by lia. cbn [app].
    rewrite skipn_app, firstn_app.
    replace (hi - lo - List.length (skipn (lo - List.length pre) mid))%nat
      with 0%nat by (rewrite length_skipn; lia).
    cbn [firstn]. now rewrite app_nil_r. }
  now rewrite !H.
Qed.

(** X20.  Bytes behind the last whole record that are too few for a header
    (fewer than 16) are ignored by the decode loop of
    [_CtypesInotifyBackend.read]: the events are those of the records before
    them. *)
Theorem decode_ignores_short_tail (utf8_decode_ignore : list byte -> string)
  (bo : byteorder) (recs : list inotify_event) (tail : list byte) :
  Forall well_formed recs ->
  (List.length tail < header_size)%nat ->
  decode utf8_decode_ignore bo (List.concat (map (record_bytes bo) recs) ++ tail)
  = Some (map (event_of utf8_decode_ignore) recs).
Proof.
  intros Hwf Htail. unfold decode.
  pose proof (concat_records_length bo recs) as Hlen.
  set (data := List.concat (map (record_bytes bo) recs) ++ tail).
  assert (Hfuel : List.length data
                  = (List.length recs + (List.length data - List.length recs))%nat).
  { unfold data. rewrite length_app. unfold header_size in Hlen. lia. }
  rewrite Hfuel.
  rewrite (decode_loop_prefix utf8_decode_ignore bo recs [] tail [] _ Hwf).
  cbn [app]. apply decode_loop_stops.
  unfold data. rewrite length_app. lia.
Qed.

Lemma decode_ignores_short_tail_witness :
  decode string_of_list_byte big
    (List.concat (map (record_bytes big) [rec_created; rec_overflow])
       ++ [x01; x00; x00])
  = Some [{| wd := 1; mask := 256; cookie := 0; name := "a.log" |};
          {| wd := -1; mask := 16384; cookie := 0; name := EmptyString |}].
Proof.
  refine (decode_ignores_short_tail string_of_list_byte big
            [rec_created; rec_overflow] [x01; x00; x00] _ _).
  - repeat first [apply Forall_nil | apply Forall_cons];
      unfold well_formed; repeat split; vm_compute; congruence.
  - vm_compute. lia.
Defined.

(** X21.  A last record whose header is whole but whose name is cut off by
    the end of the buffer still gives an event: its header fields, and as
    name the bytes that are there, up to the first NUL; the loop then
    stops. *)
Theorem decode_keeps_truncated_name (utf8_decode_ignore : list byte -> string)
  (bo : byteorder) (recs : list inotify_event) (r : inotify_event) (k : nat) :
  Forall well_formed recs ->
  well_formed r ->
  (k < List.length (ie_name r))%nat ->
  decode utf8_decode_ignore bo
    (List.concat (map (record_bytes bo) recs)
       ++ firstn (header_size + k) (record_bytes bo r))
  = Some (map (event_of utf8_decode_ignore) recs
            ++ [{| wd := ie_wd r; mask := ie_mask r; cookie := ie_cookie r;
                   name := utf8_decode_ignore (before_nul (firstn k (ie_name r))) |}]).
Proof.
  intros Hwf Hr Hk. unfold decode.
  pose proof (concat_records_length bo recs) as Hlen.
  set (body := List.concat (map (record_bytes bo) recs)) in *.
  set (hdr := field bo (ie_wd r) ++ field bo (ie_mask r) ++ field bo (ie_cookie r)
                ++ field bo (Z.of_nat (List.length (ie_name r)))).
  assert (Lhdr : List.length hdr = header_size).
  { unfold hdr. rewrite !length_app, !field_length. reflexivity. }
  assert (Hcut : firstn (header_size + k) (record_bytes bo r)
                 = hdr ++ firstn k (ie_name r)).
  { unfold record_bytes. fold hdr.
    replace (field bo (ie_wd r) ++ field bo (ie_mask r) ++ field bo (ie_cookie r)
               ++ field bo (Z.of_nat (List.length (ie_name r))) ++ ie_name r)
      with (hdr ++ ie_name r) by (unfold hdr; now rewrite <- !app_assoc).
    rewrite firstn_app, firstn_all2 by lia. f_equal. f_equal. lia. }
  rewrite Hcut.
  set (tail := hdr ++ firstn k (ie_name r)).
  assert (Ltail : List.length tail = (header_size + k)%nat).
  { unfold tail. rewrite length_app, Lhdr, length_firstn. lia. }
  assert (Hfuel : List.length (body ++ tail)
                  = (List.length recs + S (List.length (body ++ tail)
                                           - S (List.length recs)))%nat).
  { rewrite length_app, Ltail. unfold header_size in *. lia. }
  rewrite Hfuel.
  pose proof (decode_loop_prefix utf8_decode_ignore bo recs [] tail []
                (S (List.length (body ++ tail) - S (List.length recs))) Hwf) as Hp.
  cbn [app List.length] in Hp. fold body in Hp. rewrite Hp. clear Hp Hfuel.
  cbn [decode_loop].
  destruct (Nat.leb_spec (List.length body + header_size) (List.length (body ++ tail)))
    as [_|Hlt]; [|rewrite length_app, Ltail in Hlt; lia].
  (* the header of the cut record is whole *)
  assert (Hrec : record_bytes bo r = hdr ++ ie_name r).
  { unfold record_bytes, hdr. now rewrite <- !app_assoc. }
  assert (Hhead : unpack_from_iIII bo (body ++ tail) (List.length body)
                  = (ie_wd r, ie_mask r, ie_cookie r,
                     Z.of_nat (List.length (ie_name r)))).
  { pose proof (unpack_header bo body r [] Hr) as Hu.
    unfold unpack_from_iIII in *. rewrite Hrec, <- app_assoc in Hu.
    unfold tail, header_size in *.
    rewrite !(slice_within body hdr (firstn k (ie_name r)) (ie_name r ++ [])) by lia.
    exact Hu. }
  rewrite Hhead.
  unfold int_truthy.
  replace (Z.of_nat (List.length (ie_name r)) =? 0) with false
    by (symmetry; apply Z.eqb_neq; lia).
  cbn [negb]. rewrite Nat2Z.id.
  assert (Hname : slice (body ++ tail) (List.length body + header_size)
                    (List.length body + header_size + List.length (ie_name r))
                  = firstn k (ie_name r)).
  { unfold slice, tail.
    replace (body ++ hdr ++ firstn k (ie_name r))
      with ((body ++ hdr) ++ firstn k (ie_name r)) by (now rewrite <- app_assoc).
    rewrite skipn_app, skipn_all2 by (rewrite length_app; lia). cbn [app].
    replace (List.length body + header_size - List.length (body ++ hdr))%nat
      with 0%nat by (rewrite length_app; lia).
    cbn [skipn]. apply firstn_all2. rewrite length_firstn. lia. }
  rewrite Hname.
  rewrite decode_loop_stops by (rewrite length_app, Ltail; unfold header_size; lia).
  reflexivity.
Qed.

Lemma decode_keeps_truncated_name_witness :
  decode string_of_list_byte little
    (List.concat (map (record_bytes little) [rec_overflow])
       ++ firstn (header_size + 3) (record_bytes little rec_created))
  = Some [{| wd := -1; mask := 16384; cookie := 0; name := EmptyString |};
          {| wd := 1; mask := 256; cookie := 0; name := "a.l" |}].
Proof.
  refine (decode_keeps_truncated_name string_of_list_byte little
            [rec_overflow] rec_created 3 _ _ _).
  - repeat first [apply Forall_nil | apply Forall_cons];
      unfold well_formed; repeat split; vm_compute; congruence.
  - unfold well_formed; repeat split; vm_compute; congruence.
  - vm_compute. lia.
Defined.


(** X22.  On every buffer the decode loop of [_CtypesInotifyBackend.read]
    returns, with at most one event per 16 bytes of the buffer (none for a
    buffer shorter than a header), and every event has a handle in the range
    of a C [int] and a mask and a cookie in the range of a [uint32_t]. *)
Theorem decode_event_count (utf8_decode_ignore : list byte -> string)
  (bo : byteorder) (data : list byte) :
  exists out,
    decode utf8_decode_ignore bo data = Some out
    /\ (header_size * List.length out <= List.length data)%nat
    /\ Forall fields_in_range out.
Proof.
  destruct (decode_total utf8_decode_ignore bo data) as [out H].
  exists out. split; [exact H|]. unfold decode in H. split.
  - apply decode_loop_count in H. cbn [List.length] in H. lia.
  - eapply (decode_loop_ranges utf8_decode_ignore bo); [apply Forall_nil | exact H].
Qed.



(** ** [_CtypesInotifyBackend]: the calls and the errors of the methods *)

Lemma syscalls_between_app {S} (m m' : CtypesBackend.Machine S) seg :
  CtypesBackend.syscalls m' = CtypesBackend.syscalls m ++ seg ->
  syscalls_between m m' = seg.
Proof.
  intros H. unfold syscalls_between. rewrite H.
  rewrite skipn_app, skipn_all, Nat.sub_diag. reflexivity.
Qed.

Lemma c_int_range z : - 2 ^ 31 <= CtypesBackend.c_int z < 2 ^ 31.
Proof.
  unfold CtypesBackend.c_int.
  pose proof (Z.mod_pos_bound (z + 2 ^ 31) (2 ^ 32) ltac:(lia)). lia.
Qed.

Section CtypesFacts.
Context {S : Type} (L : CtypesBackend.Libc S).
Variable utf8_decode_ignore : list byte -> string.
Variable bo : byteorder.

Lemma events_of_decode data :
  decode utf8_decode_ignore bo data
  = Some (CtypesBackend.events_of utf8_decode_ignore bo data).
Proof.
  unfold CtypesBackend.events_of.
  destruct (decode_total utf8_decode_ignore bo data) as [out H]. now rewrite H.
Qed.
End CtypesFacts.


Section ReadFacts.
Context {S : Type} (L : CtypesBackend.Libc S).
Variable utf8_decode_ignore : list byte -> string.
Variable bo : byteorder.

Lemma passes_read_spec errno :
  (errno =? CtypesBackend.EAGAIN) || (errno =? CtypesBackend.EWOULDBLOCK)
  = negb (passes_read (CtypesBackend.OSError errno)).
Proof.
  unfold passes_read. change CtypesBackend.EWOULDBLOCK with CtypesBackend.EAGAIN.
  rewrite orb_diag. now destruct (errno =? CtypesBackend.EAGAIN).
Qed.

(** [read], by what [select] and [os.read] give. *)
Lemma read_unfold timeout_ms ms self m :
  CtypesBackend.float_of_int timeout_ms = CtypesBackend.Returns ms ->
  let fd := CtypesBackend._fd self in
  let selected :=
    CtypesBackend.select_select L [fd] (py_max 0 (ms / 1000)%float)
      (CtypesBackend.mem m) in
  let got := CtypesBackend.posix_read L fd 65536 (snd selected) in
  fst (CtypesBackend.read L utf8_decode_ignore bo timeout_ms self m) =
    match fst selected with
    | CtypesBackend.Raises e =>
        if passes_select e then CtypesBackend.Raises e else CtypesBackend.Returns []
    | CtypesBackend.Returns [] => CtypesBackend.Returns []
    | CtypesBackend.Returns (_ :: _) =>
        match fst got with
        | CtypesBackend.Raises e =>
            if passes_read e then CtypesBackend.Raises e else CtypesBackend.Returns []
        | CtypesBackend.Returns data =>
            CtypesBackend.Returns (CtypesBackend.events_of utf8_decode_ignore bo data)
        end
    end.
Proof.
  intros Hms. cbv zeta. unfold CtypesBackend.read. rewrite Hms.
  destruct (CtypesBackend.select_select L _ _ (CtypesBackend.mem m)) as [r s].
  cbn [fst snd CtypesBackend.mem].
  destruct r as [[|x rest]|e0]; [reflexivity| |now destruct e0].
  change (64 * 1024) with 65536.
  destruct (CtypesBackend.posix_read L _ 65536 s) as [d s2]. cbn [fst snd].
  destruct d as [data|[errno| | |]]; try reflexivity.
  rewrite passes_read_spec. now destruct (passes_read _).
Qed.

Lemma read_raises_cases timeout_ms ms self m e :
  CtypesBackend.float_of_int timeout_ms = CtypesBackend.Returns ms ->
  let fd := CtypesBackend._fd self in
  let selected :=
    CtypesBackend.select_select L [fd] (py_max 0 (ms / 1000)%float)
      (CtypesBackend.mem m) in
  let got := CtypesBackend.posix_read L fd 65536 (snd selected) in
  fst (CtypesBackend.read L utf8_decode_ignore bo timeout_ms self m)
  = CtypesBackend.Raises e <->
  (fst selected = CtypesBackend.Raises e /\ passes_select e = true)
  \/ (exists x rest, fst selected = CtypesBackend.Returns (x :: rest))
     /\ fst got = CtypesBackend.Raises e /\ passes_read e = true.
Proof.
  intros Hms. cbv zeta. rewrite (read_unfold _ _ _ _ Hms). cbv zeta.
  destruct (fst (CtypesBackend.select_select L _ _ _)) as [[|x rest]|e0].
  - split; [discriminate|]. intros [[H _]|[(x & rest & H) _]]; discriminate.
  - destruct (fst (CtypesBackend.posix_read L _ _ _)) as [data|e1].
    + split; [discriminate|]. intros [[H _]|[_ [H _]]]; discriminate.
    + destruct (passes_read e1) eqn:Hp; split.
      * intros H. injection H as <-. right. split; [now exists x, rest | now split].
      * intros [[H _]|[_ [H _]]]; [discriminate | congruence].
      * discriminate.
      * intros [[H _]|[_ [H Hp']]]; [discriminate|]. congruence.
  - destruct (passes_select e0) eqn:Hp; split.
    + intros H. injection H as <-. left. now split.
    + intros [[H _]|[(x & rest & H) _]]; [congruence | discriminate].
    + discriminate.
    + intros [[H Hp']|[(x & rest & H) _]]; [congruence | discriminate].
Qed.

Lemma read_returns_cases timeout_ms self m events :
  fst (CtypesBackend.read L utf8_decode_ignore bo timeout_ms self m)
  = CtypesBackend.Returns events ->
  events = []
  \/ exists fd n s data,
       fst (CtypesBackend.posix_read L fd n s) = CtypesBackend.Returns data
       /\ n = 65536
       /\ decode utf8_decode_ignore bo data = Some events.
Proof.
  destruct (CtypesBackend.float_of_int timeout_ms) as [ms|e] eqn:Hms.
  - rewrite (read_unfold _ _ _ _ Hms). cbv zeta.
    destruct (fst (CtypesBackend.select_select L _ _ _)) as [[|x rest]|e0].
    + left. congruence.
    + destruct (fst (CtypesBackend.posix_read L _ _ _)) as [data|e1] eqn:Hgot.
      * intros H. injection H as <-. right.
        eexists _, _, _, data. split; [exact Hgot|]. split; [reflexivity|].
        apply events_of_decode.
      * destruct (passes_read e1); [discriminate|]. left. congruence.
    + destruct (passes_select e0); [discriminate|]. left. congruence.
  - unfold CtypesBackend.read. rewrite Hms. discriminate.
Qed.
End ReadFacts.

(** X24.  When its timeout converts to a float,
    [_CtypesInotifyBackend.read] raises exactly in two cases: [select] raised
    something other than [OSError] and [ValueError], or [select] reported
    the descriptor and [os.read] raised something other than an [OSError]
    with [EAGAIN] (which is [EWOULDBLOCK]); the exception is passed on as it
    is.  In every other failure it returns no event.  A list of events that
    is not empty is the decoding of the bytes that [os.read] returned after
    [select] reported the descriptor. *)
Theorem ctypes_read_raises_iff {S} (L : CtypesBackend.Libc S)
  (utf8_decode_ignore : list byte -> string) (bo : byteorder)
  (timeout_ms : Z) (ms : float) (self : CtypesBackend.t)
  (m : CtypesBackend.Machine S) :
  CtypesBackend.float_of_int timeout_ms = CtypesBackend.Returns ms ->
  let fd := CtypesBackend._fd self in
  let selected :=
    CtypesBackend.select_select L [fd] (py_max 0 (ms / 1000)%float)
      (CtypesBackend.mem m) in
  let got := CtypesBackend.posix_read L fd 65536 (snd selected) in
  let res := fst (CtypesBackend.read L utf8_decode_ignore bo timeout_ms self m) in
  (forall e,
     res = CtypesBackend.Raises e <->
     (fst selected = CtypesBackend.Raises e /\ passes_select e = true)
     \/ (exists x rest, fst selected = CtypesBackend.Returns (x :: rest))
        /\ fst got = CtypesBackend.Raises e /\ passes_read e = true)
  /\ (forall events,
        res = CtypesBackend.Returns events ->
        events <> [] ->
        (exists x rest, fst selected = CtypesBackend.Returns (x :: rest))
        /\ exists data,
             fst got = CtypesBackend.Returns data
             /\ decode utf8_decode_ignore bo data = Some events).
Proof.
  intros Hms. cbv zeta. split.
  - intros e. exact (read_raises_cases L utf8_decode_ignore bo _ _ self m e Hms).
  - intros events. rewrite (read_unfold L utf8_decode_ignore bo _ _ _ _ Hms). cbv zeta.
    destruct (fst (CtypesBackend.select_select L _ _ _)) as [[|x rest]|e0].
    + intros H Hne. congruence.
    + destruct (fst (CtypesBackend.posix_read L _ _ _)) as [data|e1].
      * intros H _. injection H as <-. split; [now exists x, rest|].
        exists data. split; [reflexivity | apply events_of_decode].
      * destruct (passes_read e1); [discriminate|]. intros H Hne. congruence.
    + destruct (passes_select e0); [discriminate|]. intros H Hne. congruence.
Qed.

(** X25.  If [os.read] returns no more bytes than it is asked for, one
    [_CtypesInotifyBackend.read] returns at most 4096 events, each with a
    handle in the range of a C [int] and a mask and a cookie in the range of
    a [uint32_t]. *)
Theorem ctypes_read_event_bound {S} (L : CtypesBackend.Libc S)
  (utf8_decode_ignore : list byte -> string) (bo : byteorder)
  (timeout_ms : Z) (self : CtypesBackend.t) (m : CtypesBackend.Machine S)
  (events : list InotifyEvent) :
  read_within_count L ->
  fst (CtypesBackend.read L utf8_decode_ignore bo timeout_ms self m)
  = CtypesBackend.Returns events ->
  (List.length events <= 4096)%nat /\ Forall fields_in_range events.
Proof.
  intros Hcount H.
  apply read_returns_cases in H as [->|(fd & n & s & data & Hgot & -> & Hdec)].
  - split; [cbn; lia | constructor].
  - apply Hcount in Hgot. unfold decode in Hdec. split.
    + apply decode_loop_count in Hdec. cbn [List.length] in Hdec.
      unfold header_size in Hdec. lia.
    + eapply (decode_loop_ranges utf8_decode_ignore bo); [apply Forall_nil | exact Hdec].
Qed.


(** X26.  [_CtypesInotifyBackend.add_watch] never returns a negative
    handle.  If it returns, the handle is the result of the one
    [inotify_add_watch] call it made, a C [int] that is not negative; if it
    raises, either the path could not be encoded and no call was made, or
    the call gave a negative result and the exception is an [OSError] with
    the [errno] of that call. *)
Theorem ctypes_add_watch_outcome {S} (L : CtypesBackend.Libc S)
  (path : string) (mask : Z) (self : CtypesBackend.t)
  (m : CtypesBackend.Machine S) :
  let res := CtypesBackend.add_watch L path mask self m in
  (forall wd,
     fst res = CtypesBackend.Returns wd ->
     0 <= wd < 2 ^ 31
     /\ exists encoded,
          CtypesBackend.os_fsencode L path = CtypesBackend.Returns encoded
          /\ syscalls_between m (snd res) =
               [CtypesBackend.SAddWatch (CtypesBackend.c_int (CtypesBackend._fd self))
                  encoded (CtypesBackend.c_uint32 mask) wd])
  /\ (forall e,
        fst res = CtypesBackend.Raises e ->
        (CtypesBackend.os_fsencode L path = CtypesBackend.Raises e /\ snd res = m)
        \/ exists encoded rc,
             CtypesBackend.os_fsencode L path = CtypesBackend.Returns encoded
             /\ syscalls_between m (snd res) =
                  [CtypesBackend.SAddWatch (CtypesBackend.c_int (CtypesBackend._fd self))
                     encoded (CtypesBackend.c_uint32 mask) rc]
             /\ rc < 0
             /\ e = CtypesBackend.OSError
                      (CtypesBackend.ctypes_get_errno L (CtypesBackend.mem (snd res)))).
Proof.
  cbv zeta. unfold CtypesBackend.add_watch.
  destruct (CtypesBackend.os_fsencode L path) as [encoded|e0].
  2: { split; [discriminate|]. intros e H. left. cbn in *. now inversion H. }
  destruct (CtypesBackend.libc_inotify_add_watch L _ encoded _ (CtypesBackend.mem m))
    as [rc s].
  pose proof (c_int_range rc) as Hr.
  destruct (Z.ltb_spec (CtypesBackend.c_int rc) 0) as [Hneg|Hpos]; cbn [fst snd]; split.
  - discriminate.
  - intros e H. injection H as <-. right. exists encoded, (CtypesBackend.c_int rc).
    split; [reflexivity|]. split; [now apply syscalls_between_app|]. now split.
  - intros wd H. injection H as <-. split; [lia|]. exists encoded.
    split; [reflexivity | now apply syscalls_between_app].
  - discriminate.
Qed.

(** X27.  [_CtypesInotifyBackend.rm_watch] does nothing for a handle that
    is zero or negative: no call is made and the state is the same.  For a
    positive handle it makes exactly one [inotify_rm_watch] call, and raises
    (an [OSError] with the [errno] of the call) only when the call gave a
    negative result with an [errno] other than [EINVAL] and [ENOENT]. *)
Theorem ctypes_rm_watch_outcome {S} (L : CtypesBackend.Libc S)
  (wd : Z) (self : CtypesBackend.t) (m : CtypesBackend.Machine S) :
  let res := CtypesBackend.rm_watch L wd self m in
  (wd <= 0 -> res = (CtypesBackend.Returns tt, m))
  /\ (0 < wd ->
      exists rc,
        syscalls_between m (snd res) =
          [CtypesBackend.SRmWatch (CtypesBackend.c_int (CtypesBackend._fd self))
             (CtypesBackend.c_int wd) rc]
        /\ let err := CtypesBackend.ctypes_get_errno L (CtypesBackend.mem (snd res)) in
           fst res =
             if (rc <? 0)
                && negb ((err =? CtypesBackend.EINVAL) || (err =? CtypesBackend.ENOENT))
             then CtypesBackend.Raises (CtypesBackend.OSError err)
             else CtypesBackend.Returns tt).
Proof.
  cbv zeta. unfold CtypesBackend.rm_watch.
  destruct (Z.leb_spec wd 0) as [Hle|Hgt]; split; try lia; try reflexivity.
  intros _.
  destruct (CtypesBackend.libc_inotify_rm_watch L _ _ (CtypesBackend.mem m)) as [rc s].
  exists (CtypesBackend.c_int rc). cbn [CtypesBackend.mem].
  destruct (CtypesBackend.c_int rc <? 0); cbn [andb].
  - destruct ((CtypesBackend.ctypes_get_errno L s =? CtypesBackend.EINVAL)
              || (CtypesBackend.ctypes_get_errno L s =? CtypesBackend.ENOENT)) eqn:He;
      cbn [fst snd CtypesBackend.mem]; rewrite He; cbn [negb];
      (split; [now apply syscalls_between_app | reflexivity]).
  - cbn [fst snd]. split; [now apply syscalls_between_app | reflexivity].
Qed.

(** ** [InotifyWaiter] over the ctypes backend *)

Section HandleFacts.
Context {W : Type} (E : Env W) (P : Pathlib).
Variable Q : Z -> Prop.
Hypothesis add_watch_gives :
  forall path mask o h o', os_add_watch E path mask o = (Ok h, o') -> Q h.

Lemma set_q h v self :
  Q h -> all_handles Q self ->
  all_handles Q (InotifyWaiter.set_wds (dict_set Z.eqb h v (InotifyWaiter._wds self)) self).
Proof.
  intros Hh H h' v' Hin. cbn in Hin. apply dict_set_in in Hin as [Heq|Hin].
  - now inversion Heq.
  - now apply (H h' v').
Qed.

Lemma add_watch_q path mask w h w' :
  add_watch E path mask w = (Ok h, w') -> Q h.
Proof.
  unfold add_watch, perform.
  destruct (os_add_watch E path mask (os w)) as [r o] eqn:Ha.
  intros H. inversion H; subst. exact (add_watch_gives _ _ _ _ _ Ha).
Qed.

Lemma watch_one_q path self w :
  all_handles Q self -> all_handles Q (fst (InotifyWaiter._watch_one E P path self w)).
Proof.
  intros H. unfold InotifyWaiter._watch_one.
  set (self1 := InotifyWaiter.set_tracked_files _ self).
  assert (H1 : all_handles Q self1) by exact H.
  clearbody self1.
  destruct (path_exists E path w) as [[[|]|] w1];
    try destruct (path_is_dir E path w1) as [[[|]|] w2];
    repeat match goal with
    | |- context [add_watch E ?p ?m ?w0] =>
        let Ha := fresh "Ha" in
        destruct (add_watch E p m w0) as [[?|] ?] eqn:Ha
    end;
    cbn [fst];
    repeat (apply set_q; eauto using add_watch_q);
    try exact H1.
Qed.

Lemma watch_each_q paths : forall self w,
  all_handles Q self -> all_handles Q (fst (InotifyWaiter.watch_each E P paths self w)).
Proof.
  induction paths as [|p paths IH]; intros self w H; cbn [InotifyWaiter.watch_each];
    [exact H|].
  pose proof (watch_one_q p self w H) as H1.
  destruct (InotifyWaiter._watch_one E P p self w) as [s1 w1]. now apply IH.
Qed.

Lemma watch_paths_q paths self w :
  all_handles Q (fst (InotifyWaiter.watch_paths E P paths self w)).
Proof.
  unfold InotifyWaiter.watch_paths, InotifyWaiter._reset_watches.
  apply watch_each_q. intros h v [].
Qed.

Lemma refresh_q file_path self w :
  all_handles Q self -> all_handles Q (fst (InotifyWaiter._refresh_file_watch E file_path self w)).
Proof.
  intros H. unfold InotifyWaiter._refresh_file_watch, path_exists, perform.
  destruct (os_path_exists E file_path (os w)) as [[[|]|] o1]; cbn [fst snd];
    try exact H.
  pose proof (drop_file_watches_spec E file_path (InotifyWaiter._wds self) self
                {| os := o1; trace := trace w ++ [CExists file_path (Ok true)] |})
    as Hd. cbv zeta in Hd.
  destruct (InotifyWaiter.drop_file_watches E file_path _ self _) as [s2 w2].
  cbn [fst snd trace] in Hd. destruct Hd as (Hw & _).
  assert (H2 : all_handles Q s2).
  { intros h v Hin. rewrite Hw in Hin. apply filter_In in Hin as [Hin _].
    now apply (H h v). }
  destruct (add_watch E file_path InotifyWaiter._FILE_MASK w2) as [[h|] w3] eqn:Ha;
    cbn [fst]; [|exact H2].
  apply set_q; [exact (add_watch_q _ _ _ _ _ Ha) | exact H2].
Qed.

Lemma scan_tracked_q ev_name watched_path items self w :
  all_handles Q self ->
  all_handles Q (fst (InotifyWaiter.scan_tracked E P ev_name watched_path items self w)).
Proof.
  intros H. induction items as [|[f p] items IH]; cbn; [exact H|].
  destruct (negb (str_truthy p)); [exact IH|].
  destruct (str_truthy watched_path && negb (String.eqb watched_path p));
    [exact IH|].
  destruct (String.eqb (path_name P f) ev_name); [|exact IH].
  now apply refresh_q.
Qed.

Lemma handle_events_q events self w :
  all_handles Q self ->
  all_handles Q (snd (fst (InotifyWaiter.handle_events E P events self w))).
Proof.
  intros H. induction events as [|ev events IH]; [exact H|].
  rewrite handle_events_cons.
  destruct (has_overflow ev); [exact H|].
  destruct (has_self_gone ev).
  - destruct (dict_get Z.eqb (wd ev) (InotifyWaiter._wds self)) as [[[|] path]|];
      try exact H.
    now apply refresh_q.
  - destruct (str_truthy (name ev)); [|exact IH].
    cbv zeta. now apply scan_tracked_q.
Qed.

Lemma wait_q timeout self w :
  all_handles Q self -> all_handles Q (snd (fst (InotifyWaiter.wait E P timeout self w))).
Proof.
  intros H. destruct (InotifyWaiter.timeout_ms timeout) as [ms|] eqn:Hms.
  - rewrite (wait_unfold E P _ _ _ _ Hms). cbv zeta.
    destruct (fst (os_read E ms (os w))) as [[|ev rest]|]; cbn [fst snd];
      try exact H.
    now apply handle_events_q.
  - unfold InotifyWaiter.wait. rewrite Hms. exact H.
Qed.

Lemma watcher_run_q ops : forall self w,
  all_handles Q self -> all_handles Q (fst (watcher_run E P ops self w)).
Proof.
  induction ops as [|op ops IH]; intros self w H; cbn [watcher_run]; [exact H|].
  assert (H1 : all_handles Q (fst (watcher_step E P op self w))).
  { destruct op as [timeout|paths|]; cbn [watcher_step].
    - pose proof (wait_q timeout self w H) as Hw.
      now destruct (InotifyWaiter.wait E P timeout self w) as [[r s1] w1].
    - apply watch_paths_q.
    - unfold InotifyWaiter.close. destruct (backend_close E _) as [r w1].
      intros h v []. }
  destruct (watcher_step E P op self w) as [s1 w1]. now apply IH.
Qed.
End HandleFacts.

(** X28.  Over a [_CtypesInotifyBackend], whatever libc answers: if every
    handle of the watch map of an [InotifyWaiter] is a C [int] that is not
    negative, it is still so after any sequence of [wait], [watch_paths] and
    [close]. *)
Theorem ctypes_handles_valid {S} (L : CtypesBackend.Libc S)
  (utf8_decode_ignore : list byte -> string) (bo : byteorder)
  (B : CtypesBackend.t) (base : Env (CtypesBackend.Machine S)) (P : Pathlib)
  (ops : list watcher_op) (self : InotifyWaiter.t)
  (w : World (CtypesBackend.Machine S)) :
  handles_valid self ->
  handles_valid
    (fst (watcher_run (ctypes_env L utf8_decode_ignore bo B base) P ops self w)).
Proof.
  unfold handles_valid. rewrite !Forall_forall. intros H [h v].
  refine (watcher_run_q (ctypes_env L utf8_decode_ignore bo B base) P
            (fun h => 0 <= h < 2 ^ 31) _ ops self w _ h v);
    [|intros h0 v0 Hin; exact (H (h0, v0) Hin)].
  intros path mask o h1 o'. cbn [os_add_watch ctypes_env].
  unfold CtypesBackend.add_watch.
  destruct (CtypesBackend.os_fsencode L path) as [encoded|e0]; [|discriminate].
  destruct (CtypesBackend.libc_inotify_add_watch L _ encoded _ (CtypesBackend.mem o))
    as [rc s].
  pose proof (c_int_range rc) as Hr.
  destruct (Z.ltb_spec (CtypesBackend.c_int rc) 0); cbn [forget]; [discriminate|].
  intros H1. inversion H1; subst. lia.
Qed.



Section CtypesFacade.
Context {S : Type} (L : CtypesBackend.Libc S).
Variable utf8_decode_ignore : list byte -> string.
Variable bo : byteorder.
Variable B : CtypesBackend.t.
Variable base : Env (CtypesBackend.Machine S).
Variable P : Pathlib.

Lemma facade_wait_polling_iff {W} (E0 : Env W) timeout
  (self : FileChangeWaiter.t InotifyWaiter.t) i w :
  native self i ->
  polling (snd (fst (FileChangeWaiter.wait E0 (inotify_watcher E0 P) timeout self w)))
  <-> fst (fst (InotifyWaiter.wait E0 P timeout i w)) = Raised.
Proof.
  intros [Hu Hi]. unfold FileChangeWaiter.wait. cbn [nw_wait nw_close inotify_watcher].
  rewrite Hu, Hi.
  destruct (InotifyWaiter.wait E0 P timeout i w) as [[[b|] i1] w1]; cbn [fst snd].
  - split; [|discriminate]. intros [H _]. cbn in H. congruence.
  - destruct (InotifyWaiter.close E0 i1 w1) as [i2 w2].
    destruct (AdaptivePollWaiter.wait E0 timeout _ w2) as [[r p] w3]. cbn [fst snd].
    split; [reflexivity|]. intros _. split; reflexivity.
Qed.

Lemma ctypes_read_raised timeout_ms m :
  fst (os_read (ctypes_env L utf8_decode_ignore bo B base) timeout_ms m) = Raised <->
  exists e,
    fst (CtypesBackend.read L utf8_decode_ignore bo timeout_ms B m)
    = CtypesBackend.Raises e.
Proof.
  cbn [os_read ctypes_env].
  destruct (CtypesBackend.read L utf8_decode_ignore bo timeout_ms B m) as [[evs|e] m1];
    cbn [fst forget]; split; try discriminate.
  - intros [e H]. discriminate.
  - intros _. now exists e.
  - reflexivity.
Qed.
End CtypesFacade.

(** X29.  A native [FileChangeWaiter] over an [InotifyWaiter] with a
    [_CtypesInotifyBackend], waiting with a timeout that converts to
    milliseconds: it is on the polling strategy afterwards exactly when
    [select] raised something other than [OSError] and [ValueError], or
    [select] reported the descriptor and [os.read] raised something other
    than [EAGAIN].  A [select] that fails with [OSError] or [ValueError], a
    [select] that times out and an [os.read] that would block never make
    the facade give up inotify. *)
Theorem ctypes_facade_demotes_iff {S} (L : CtypesBackend.Libc S)
  (utf8_decode_ignore : list byte -> string) (bo : byteorder)
  (B : CtypesBackend.t) (base : Env (CtypesBackend.Machine S)) (P : Pathlib)
  (timeout : float) (ms : Z) (f : float)
  (self : FileChangeWaiter.t InotifyWaiter.t) (i : InotifyWaiter.t)
  (w : World (CtypesBackend.Machine S)) :
  native self i ->
  InotifyWaiter.timeout_ms timeout = Ok ms ->
  CtypesBackend.float_of_int ms = CtypesBackend.Returns f ->
  let E := ctypes_env L utf8_decode_ignore bo B base in
  let selected :=
    CtypesBackend.select_select L [CtypesBackend._fd B] (py_max 0 (f / 1000)%float)
      (CtypesBackend.mem (os w)) in
  let got := CtypesBackend.posix_read L (CtypesBackend._fd B) 65536 (snd selected) in
  polling (snd (fst (FileChangeWaiter.wait E (inotify_watcher E P) timeout self w)))
  <-> exists e,
        (fst selected = CtypesBackend.Raises e /\ passes_select e = true)
        \/ (exists x rest, fst selected = CtypesBackend.Returns (x :: rest))
           /\ fst got = CtypesBackend.Raises e /\ passes_read e = true.
Proof.
  intros Hn Hms Hf. cbv zeta.
  rewrite (facade_wait_polling_iff P _ timeout self i w Hn).
  rewrite watcher_wait_raises, Hms.
  split.
  - intros [H|(ms' & Hm & H)]; [discriminate|]. injection Hm as <-.
    apply (ctypes_read_raised L utf8_decode_ignore bo B base) in H as [e H].
    exists e.
    now apply (read_raises_cases L utf8_decode_ignore bo ms f B (os w) e Hf).
  - intros [e H]. right. exists ms. split; [reflexivity|].
    apply (ctypes_read_raised L utf8_decode_ignore bo B base). exists e.
    now apply (read_raises_cases L utf8_decode_ignore bo ms f B (os w) e Hf).
Qed.


(** ** [watch_paths] when calls fail *)

Section AttemptFacts.
Context {W : Type} (E : Env W) (P : Pathlib).

Lemma watch_one_attempt path self w :
  let res := InotifyWaiter._watch_one E P path self w in
  exists chunk,
    trace (snd res) = trace w ++ chunk
    /\ InotifyWaiter._wds (fst res) = recorded chunk (InotifyWaiter._wds self)
    /\ watch_attempt P path chunk.
Proof.
  cbv zeta. unfold InotifyWaiter._watch_one, path_exists, path_is_dir, add_watch, perform.
  destruct (os_path_exists E path (os w)) as [[[|]|] o1]; cbn [os trace].
  - destruct (os_path_is_dir E path o1) as [[[|]|] o2]; cbn [os trace].
    + destruct (os_add_watch E path InotifyWaiter._DIR_MASK o2) as [[h|] o3];
        cbn [os trace].
      * eexists. split; [|split].
        -- cbn [snd trace]. rewrite <- !app_assoc. reflexivity.
        -- reflexivity.
        -- constructor.
      * destruct (os_add_watch E (path_parent P path) InotifyWaiter._DIR_MASK o3)
          as [[h1|] o4]; cbn [os trace];
          destruct (os_add_watch E path InotifyWaiter._FILE_MASK o4) as [[h2|] o5];
          (eexists; split; [|split];
           [cbn [snd trace]; rewrite <- !app_assoc; reflexivity
           | reflexivity
           | apply attempt_directory_refused]).
    + destruct (os_add_watch E (path_parent P path) InotifyWaiter._DIR_MASK o2)
        as [[h1|] o4]; cbn [os trace];
        destruct (os_add_watch E path InotifyWaiter._FILE_MASK o4) as [[h2|] o5];
        (eexists; split; [|split];
         [cbn [snd trace]; rewrite <- !app_assoc; reflexivity
         | reflexivity
         | apply attempt_file; discriminate]).
    + destruct (os_add_watch E (path_parent P path) InotifyWaiter._DIR_MASK o2)
        as [[h1|] o4]; cbn [os trace];
        destruct (os_add_watch E path InotifyWaiter._FILE_MASK o4) as [[h2|] o5];
        (eexists; split; [|split];
         [cbn [snd trace]; rewrite <- !app_assoc; reflexivity
         | reflexivity
         | apply attempt_file; discriminate]).
  - destruct (os_add_watch E (path_parent P path) InotifyWaiter._DIR_MASK o1)
      as [[h1|] o4];
      (eexists; split; [|split];
       [cbn [snd trace]; rewrite <- !app_assoc; reflexivity
       | reflexivity
       | apply attempt_missing; discriminate]).
  - destruct (os_add_watch E (path_parent P path) InotifyWaiter._DIR_MASK o1)
      as [[h1|] o4];
      (eexists; split; [|split];
       [cbn [snd trace]; rewrite <- !app_assoc; reflexivity
       | reflexivity
       | apply attempt_missing; discriminate]).
Qed.

Lemma watch_each_attempts paths : forall self w,
  let res := InotifyWaiter.watch_each E P paths self w in
  exists chunks,
    trace (snd res) = trace w ++ List.concat chunks
    /\ InotifyWaiter._wds (fst res)
       = recorded (List.concat chunks) (InotifyWaiter._wds self)
    /\ Forall2 (watch_attempt P) paths chunks.
Proof.
  induction paths as [|p paths IH]; intros self w; cbv zeta;
    cbn [InotifyWaiter.watch_each].
  - exists []. cbn. rewrite app_nil_r. repeat split. constructor.
  - pose proof (watch_one_attempt p self w) as H1. cbv zeta in H1.
    destruct (InotifyWaiter._watch_one E P p self w) as [s1 w1].
    cbn [fst snd] in H1. destruct H1 as (chunk & Htr1 & Hw1 & Hc1).
    specialize (IH s1 w1). cbv zeta in IH.
    destruct IH as (chunks & Htr & Hw & Hc).
    exists (chunk :: chunks). cbn [List.concat]. split; [|split].
    + rewrite Htr, Htr1, <- app_assoc. reflexivity.
    + rewrite Hw, Hw1. symmetry. apply recorded_app.
    + now constructor.
Qed.
End AttemptFacts.

(** X30.  [InotifyWaiter.watch_paths(paths)] whatever fails: it never
    raises, and the calls made are an [rm_watch] for each old handle and
    then, path by path and in order, the calls of [watch_attempt].  A
    directory whose watch is refused is treated as a file (its parent is
    watched, and the directory itself with the file mask); a failure of
    [exists] or [is_dir] counts as a negative answer; a refused [add_watch]
    of a parent or of a file is passed over.  The watch map is what the
    [add_watch] calls that succeeded record. *)
Theorem watch_paths_attempts {W} (E : Env W) (P : Pathlib) (paths : list string)
  (self : InotifyWaiter.t) (w : World W) :
  let res := InotifyWaiter.watch_paths E P paths self w in
  exists rm_calls chunks,
    calls_between w (snd res) = rm_calls ++ List.concat chunks
    /\ Forall2 is_rm_of rm_calls (dict_keys (InotifyWaiter._wds self))
    /\ Forall2 (watch_attempt P) paths chunks
    /\ InotifyWaiter._wds (fst res) = recorded (List.concat chunks) [].
Proof.
  cbv zeta. unfold InotifyWaiter.watch_paths, InotifyWaiter._reset_watches.
  destruct (rm_watches_trace E (dict_keys (InotifyWaiter._wds self)) w)
    as (rm_calls & Htr0 & Hrm & _).
  pose proof (watch_each_attempts E P paths
                (InotifyWaiter.set_tracked_files [] (InotifyWaiter.set_wds [] self))
                (InotifyWaiter.rm_watches E (dict_keys (InotifyWaiter._wds self)) w))
    as H. cbv zeta in H.
  destruct (InotifyWaiter.watch_each E P paths _ _) as [s1 w1].
  cbn [fst snd] in *. destruct H as (chunks & Htr & Hw & Hc).
  cbn [InotifyWaiter._wds InotifyWaiter.set_tracked_files InotifyWaiter.set_wds] in Hw.
  rewrite Htr0, <- app_assoc in Htr.
  exists rm_calls, chunks. split; [exact (calls_between_app w w1 _ Htr)|].
  repeat split; assumption.
Qed.


(** ** Examples over the scripted libc *)

Lemma ctypes_read_raises_iff_witness :
  fst (CtypesBackend.read FakeLibc.libc string_of_list_byte little 250 backend3
         m_read_fails)
  = CtypesBackend.Raises (CtypesBackend.OSError 5).
Proof.
  apply (proj1 (ctypes_read_raises_iff FakeLibc.libc string_of_list_byte little
                  250 250 backend3 m_read_fails eq_refl)
           (CtypesBackend.OSError 5)).
  right. split; [now exists 3, []|]. split; reflexivity.
Defined.

Lemma ctypes_read_event_bound_witness :
  exists events,
    fst (CtypesBackend.read FakeLibc.libc string_of_list_byte little 250 backend3
           m_two_records) = CtypesBackend.Returns events
    /\ (List.length events <= 4096)%nat.
Proof.
  exists [{| wd := 1; mask := 256; cookie := 0; name := "a.log" |};
          {| wd := -1; mask := 16384; cookie := 0; name := EmptyString |}].
  split; [reflexivity|].
  refine (proj1 (ctypes_read_event_bound FakeLibc.libc string_of_list_byte little 250
                   backend3 m_two_records _ _ eq_refl)).
  intros fd n s data. cbn [CtypesBackend.posix_read FakeLibc.libc fst].
  destruct (FakeLibc.input s) as [d|e]; [|discriminate].
  intros H. injection H as <-. rewrite length_firstn. apply Nat.le_min_l.
Defined.

Lemma ctypes_handles_valid_witness :
  handles_valid
    (fst (watcher_run
            (ctypes_env FakeLibc.libc string_of_list_byte little backend3 fake_base)
            Fake.posix [OpWatchPaths ["/d/f"%string]; OpWait 0.25]
            iw_empty (world_of m_handle5))).
Proof.
  apply (ctypes_handles_valid FakeLibc.libc string_of_list_byte little backend3
           fake_base Fake.posix [OpWatchPaths ["/d/f"%string]; OpWait 0.25]
           iw_empty (world_of m_handle5)).
  apply Forall_nil.
Defined.

Lemma ctypes_facade_demotes_iff_witness :
  polling
    (snd (fst (FileChangeWaiter.wait
                 (ctypes_env FakeLibc.libc string_of_list_byte little backend3
                    fake_base)
                 (inotify_watcher
                    (ctypes_env FakeLibc.libc string_of_list_byte little backend3
                       fake_base) Fake.posix)
                 0.25 facade_inotify (world_of m_read_fails)))).
Proof.
  apply (proj2 (ctypes_facade_demotes_iff FakeLibc.libc string_of_list_byte little
                  backend3 fake_base Fake.posix 0.25 250 250 facade_inotify
                  iw_one_file (world_of m_read_fails)
                  (conj eq_refl eq_refl) eq_refl eq_refl)).
  exists (CtypesBackend.OSError 5). right.
  split; [now exists 3, []|]. split; reflexivity.
Defined.

Lemma ctypes_add_watch_outcome_witness :
  exists encoded rc,
    syscalls_between m_enoent
      (snd (CtypesBackend.add_watch FakeLibc.libc "/d/f" 908 backend3 m_enoent))
    = [CtypesBackend.SAddWatch 3 encoded 908 rc]
    /\ rc < 0
    /\ fst (CtypesBackend.add_watch FakeLibc.libc "/d/f" 908 backend3 m_enoent)
       = CtypesBackend.Raises (CtypesBackend.OSError 2).
Proof.
  destruct (proj2 (ctypes_add_watch_outcome FakeLibc.libc "/d/f" 908 backend3 m_enoent)
              (CtypesBackend.OSError 2) eq_refl)
    as [[H _]|(encoded & rc & _ & Hcalls & Hneg & _)]; [discriminate|].
  exists encoded, rc. split; [exact Hcalls|]. split; [exact Hneg | reflexivity].
Defined.

Lemma ctypes_rm_watch_outcome_witness :
  exists rc,
    syscalls_between m_enoent
      (snd (CtypesBackend.rm_watch FakeLibc.libc 7 backend3 m_enoent))
    = [CtypesBackend.SRmWatch 3 7 rc]
    /\ fst (CtypesBackend.rm_watch FakeLibc.libc 7 backend3 m_enoent)
       = CtypesBackend.Returns tt.
Proof.
  destruct (proj2 (ctypes_rm_watch_outcome FakeLibc.libc 7 backend3 m_enoent)
              eq_refl) as (rc & Hcalls & Hres).
  exists rc. split; [exact Hcalls | reflexivity].
Defined.

